(** * Branded identifiers in Atlas: schema validation, comment markers,
      HCL type specs and PostgreSQL CHECK constraints

    A shallow embedding of the Go packages
    - [sql/branded]       (branded.go, hcl.go),
    - [sql/postgres]      (branded_constraints.go, inspect_branded.go),
    - [internal/branded]  (validator.go),
    together with the fragment of the Go standard library they call
    ([fmt], [strings], [strconv], [unicode/utf8], [regexp]).

    Go strings are byte strings: they are modelled by [string], whose
    characters ([ascii]) are the bytes. *)

From Stdlib Require Import String Ascii List ZArith NArith Bool Lia DecimalString.
Import ListNotations.
Open Scope list_scope.
Open Scope string_scope.

(** ** Execution outcomes

    The embedded functions run in a small error monad.  [Panic] is a Go
    run-time panic (here always a nil-pointer dereference); [Unmodelled]
    marks a call of [fmt.Sprintf] with a format string outside the fragment
    of [fmt] that this development embeds. *)

Inductive result (A : Type) : Type :=
| Ok (a : A)
| Panic
| Unmodelled.

Arguments Ok {A} a.
Arguments Panic {A}.
Arguments Unmodelled {A}.

Definition bind {A B : Type} (m : result A) (f : A -> result B) : result B :=
  match m with
  | Ok a => f a
  | Panic => Panic
  | Unmodelled => Unmodelled
  end.

Definition fmap {A B : Type} (f : A -> B) (m : result A) : result B :=
  bind m (fun a => Ok (f a)).

Notation "x <- m ;; k" := (bind m (fun x => k))
  (at level 61, m at next level, right associativity).

Fixpoint mapM {A B : Type} (f : A -> result B) (l : list A) : result (list B) :=
  match l with
  | [] => Ok []
  | a :: l' => b <- f a ;; bs <- mapM f l' ;; Ok (b :: bs)
  end.

(** ** Bytes *)

Definition byteZ (c : ascii) : Z := Z.of_N (N_of_ascii c).

Definition byteOfZ (z : Z) : ascii := ascii_of_N (Z.to_N (z mod 256)).

Definition between (lo hi : Z) (c : ascii) : bool :=
  (lo <=? byteZ c)%Z && (byteZ c <=? hi)%Z.

(** ['A' <= c && c <= 'Z'], ['a' <= c && c <= 'z'], ['0' <= c && c <= '9']. *)
Definition isUpper (c : ascii) : bool := between 65 90 c.
Definition isLower (c : ascii) : bool := between 97 122 c.
Definition isDigit (c : ascii) : bool := between 48 57 c.
Definition isAlnum (c : ascii) : bool := isDigit c || isUpper c || isLower c.

Fixpoint forallb_s (p : ascii -> bool) (s : string) : bool :=
  match s with
  | "" => true
  | String c s' => p c && forallb_s p s'
  end.

Fixpoint existsb_s (p : ascii -> bool) (s : string) : bool :=
  match s with
  | "" => false
  | String c s' => p c || existsb_s p s'
  end.

Fixpoint map_s (f : ascii -> ascii) (s : string) : string :=
  match s with
  | "" => ""
  | String c s' => String (f c) (map_s f s')
  end.

(** [s[n:]] for [n <= len(s)]. *)
Fixpoint drop (n : nat) (s : string) : string :=
  match n, s with
  | O, _ => s
  | S n', String _ s' => drop n' s'
  | S _, "" => ""
  end.

(** [s[:n]] for [n <= len(s)]. *)
Fixpoint take (n : nat) (s : string) : string :=
  match n, s with
  | O, _ => ""
  | S n', String c s' => String c (take n' s')
  | S _, "" => ""
  end.

Definition isASCII (s : string) : bool :=
  forallb_s (fun c => (byteZ c <? 128)%Z) s.

(** The ASCII upper-case and lower-case mappings on bytes. *)
Definition upperByte (c : ascii) : ascii :=
  if isLower c then byteOfZ (byteZ c - 32) else c.
Definition lowerByte (c : ascii) : ascii :=
  if isUpper c then byteOfZ (byteZ c + 32) else c.
Definition asciiUpper (s : string) : string := map_s upperByte s.
Definition asciiLower (s : string) : string := map_s lowerByte s.

(** ** The Unicode tables

    Go's case mappings, printability table and the NFC normal form are
    data of the standard library.  Their ASCII (and, for printability,
    Latin-1) part is written out below as Go's own fast paths have it;
    the rest is a parameter of the development. *)

Class Unicode : Type := {
  (** [unicode.ToUpper] on code points above U+007F *)
  upperWide : Z -> Z;
  (** [unicode.ToLower] on code points above U+007F *)
  lowerWide : Z -> Z;
  (** [strconv.IsPrint] on code points above U+00FF *)
  printWide : Z -> bool;
  (** the NFC normal form of a string that is not pure ASCII *)
  nfcWide : string -> string
}.

(** *** unicode/utf8 *)
Module utf8.

Definition RuneError : Z := 65533.
Definition RuneSelf : Z := 128.
Definition MaxRune : Z := 1114111.

(** The [first] table and [acceptRanges]: for a leading byte, the length of
    the sequence and the range allowed for the second byte. *)
Definition first (b0 : Z) : option (nat * Z * Z) :=
  (if b0 <? 194 then None
   else if b0 <=? 223 then Some (2%nat, 128, 191)
   else if b0 =? 224 then Some (3%nat, 160, 191)
   else if b0 <=? 236 then Some (3%nat, 128, 191)
   else if b0 =? 237 then Some (3%nat, 128, 159)
   else if b0 <=? 239 then Some (3%nat, 128, 191)
   else if b0 =? 240 then Some (4%nat, 144, 191)
   else if b0 <=? 243 then Some (4%nat, 128, 191)
   else if b0 =? 244 then Some (4%nat, 128, 143)
   else None)%Z.

Definition cont (c : ascii) : Z := Z.land (byteZ c) 63.

Definition DecodeRuneInString (s : string) : Z * nat :=
  match s with
  | "" => (RuneError, 0%nat)
  | String c0 t =>
    let b0 := byteZ c0 in
    if (b0 <? RuneSelf)%Z then (b0, 1%nat)
    else match first b0 with
    | None => (RuneError, 1%nat)
    | Some (sz, lo, hi) =>
      match t with
      | "" => (RuneError, 1%nat)
      | String c1 t1 =>
        if negb (between lo hi c1) then (RuneError, 1%nat)
        else if (sz <=? 2)%nat then
          (Z.lor (Z.shiftl (Z.land b0 31) 6) (cont c1), 2%nat)
        else match t1 with
        | "" => (RuneError, 1%nat)
        | String c2 t2 =>
          if negb (between 128 191 c2) then (RuneError, 1%nat)
          else if (sz <=? 3)%nat then
            (Z.lor (Z.shiftl (Z.land b0 15) 12)
               (Z.lor (Z.shiftl (cont c1) 6) (cont c2)), 3%nat)
          else match t2 with
          | "" => (RuneError, 1%nat)
          | String c3 _ =>
            if negb (between 128 191 c3) then (RuneError, 1%nat)
            else
              (Z.lor (Z.shiftl (Z.land b0 7) 18)
                 (Z.lor (Z.shiftl (cont c1) 12)
                    (Z.lor (Z.shiftl (cont c2) 6) (cont c3))), 4%nat)
          end
        end
      end
    end
  end.

Definition tail6 (r : Z) (k : Z) : ascii :=
  byteOfZ (Z.lor 128 (Z.land (Z.shiftr r k) 63)).

Definition encode3 (r : Z) : string :=
  String (byteOfZ (Z.lor 224 (Z.shiftr r 12)))
    (String (tail6 r 6) (String (tail6 r 0) "")).

(** [utf8.AppendRune(nil, r)] *)
Definition EncodeRune (r : Z) : string :=
  (if (0 <=? r) && (r <=? 127) then String (byteOfZ r) ""
   else if (0 <=? r) && (r <=? 2047) then
     String (byteOfZ (Z.lor 192 (Z.shiftr r 6))) (String (tail6 r 0) "")
   else if (r <? 0) || (MaxRune <? r) || ((55296 <=? r) && (r <=? 57343))
     then encode3 RuneError
   else if r <=? 65535 then encode3 r
   else
     String (byteOfZ (Z.lor 240 (Z.shiftr r 18)))
       (String (tail6 r 12) (String (tail6 r 6) (String (tail6 r 0) ""))))%Z.

(** The runes visited by [for _, c := range s]. *)
Fixpoint rangeRunes (fuel : nat) (s : string) : list Z :=
  match fuel with
  | O => []
  | S fuel' =>
    match s with
    | "" => []
    | _ => let '(r, w) := DecodeRuneInString s in
           r :: rangeRunes fuel' (drop w s)
    end
  end.

Definition runes (s : string) : list Z := rangeRunes (String.length s) s.

End utf8.

(** *** unicode *)
Module unicode.
Section Tables.
Context {U : Unicode}.

Definition ToUpper (r : Z) : Z :=
  (if r <=? 127 then (if (97 <=? r) && (r <=? 122) then r - 32 else r)
   else upperWide r)%Z.

Definition ToLower (r : Z) : Z :=
  (if r <=? 127 then (if (65 <=? r) && (r <=? 90) then r + 32 else r)
   else lowerWide r)%Z.

End Tables.
End unicode.

(** *** strings *)
Module strings.
Section Tables.
Context {U : Unicode}.

(** [strings.Map]: every rune of [s] is replaced by its image, a negative
    image drops the rune, and a byte that is not valid UTF-8 is visited as
    [utf8.RuneError]. *)
Definition Map (mapping : Z -> Z) (s : string) : string :=
  String.concat ""
    (List.map (fun c => let r := mapping c in
                        if (0 <=? r)%Z then utf8.EncodeRune r else "")
              (utf8.runes s)).

Definition hasLower (s : string) : bool := existsb_s isLower s.
Definition hasUpper (s : string) : bool := existsb_s isUpper s.

Definition ToUpper (s : string) : string :=
  if isASCII s then
    (if negb (hasLower s) then s else map_s upperByte s)
  else Map unicode.ToUpper s.

Definition ToLower (s : string) : string :=
  if isASCII s then
    (if negb (hasUpper s) then s else map_s lowerByte s)
  else Map unicode.ToLower s.

End Tables.

Definition HasSuffix (s suffix : string) : bool :=
  (String.length suffix <=? String.length s)%nat
  && String.eqb (drop (String.length s - String.length suffix) s) suffix.

(** [strings.Contains], as a proposition. *)
Definition Contains (s sub : string) : Prop :=
  exists pre post, s = pre ++ sub ++ post.

End strings.

(** *** strconv *)
Module strconv.

(** The double quote character, as a one-byte string. *)
Definition dquote : string := String "034"%char "".

Definition Itoa (z : Z) : string := NilEmpty.string_of_int (Z.to_int z).

(** [lowerhex[n]] for [0 <= n < 16]. *)
Definition lowerhex (n : Z) : string :=
  take 1 (drop (Z.to_nat n) "0123456789abcdef").

(** [r], written with [n] hexadecimal digits. *)
Fixpoint hexDigits (n : nat) (r : Z) : string :=
  match n with
  | O => ""
  | S n' => hexDigits n' (Z.shiftr r 4) ++ lowerhex (Z.land r 15)
  end.

Definition ValidRune (r : Z) : bool :=
  ((0 <=? r) && (r <? 55296) || (57343 <? r) && (r <=? utf8.MaxRune))%Z.

Section Tables.
Context {U : Unicode}.

Definition IsPrint (r : Z) : bool :=
  (if r <=? 255 then
     if (32 <=? r) && (r <=? 126) then true
     else if (161 <=? r) && (r <=? 255) then negb (r =? 173)
     else false
   else printWide r)%Z.

(** [appendEscapedRune] for the double quote as the quoting character,
    neither ASCII-only nor graphic-only. *)
Definition escapedRune (r : Z) : string :=
  (if (r =? 34) || (r =? 92) then String "\"%char (String (byteOfZ r) "")
   else if IsPrint r then utf8.EncodeRune r
   else if r =? 7 then "\a"
   else if r =? 8 then "\b"
   else if r =? 12 then "\f"
   else if r =? 10 then "\n"
   else if r =? 13 then "\r"
   else if r =? 9 then "\t"
   else if r =? 11 then "\v"
   else if (r <? 32) || (r =? 127) then "\x" ++ hexDigits 2 r
   else if negb (ValidRune r) then "\u" ++ hexDigits 4 utf8.RuneError
   else if r <? 65536 then "\u" ++ hexDigits 4 r
   else "\U" ++ hexDigits 8 r)%Z.

Fixpoint quoteLoop (fuel : nat) (s : string) : string :=
  match fuel with
  | O => ""
  | S fuel' =>
    match s with
    | "" => ""
    | String c0 _ =>
      let '(r, width) :=
        if (byteZ c0 <? utf8.RuneSelf)%Z then (byteZ c0, 1%nat)
        else utf8.DecodeRuneInString s in
      (if (width =? 1)%nat && (r =? utf8.RuneError)%Z
       then "\x" ++ hexDigits 2 (byteZ c0)
       else escapedRune r)
      ++ quoteLoop fuel' (drop width s)
    end
  end.

(** [strconv.Quote], which is also what the verb [%q] prints for a
    string. *)
Definition Quote (s : string) : string :=
  dquote ++ quoteLoop (String.length s) s ++ dquote.

End Tables.
End strconv.

(** *** fmt

    The fragment of [fmt.Sprintf] embedded here: the verbs [%s], [%v], [%q],
    [%d] and [%T] without flags, width, precision or argument index, and [%%].
    A missing argument prints [%!verb(MISSING)], arguments left over are
    reported in a trailing [%!(EXTRA ...)], a lone [%] at the end prints
    [%!(NOVERB)].  Any other directive is [Unmodelled]. *)
Module fmt.

Inductive arg : Type :=
| AString (s : string)              (* a string *)
| ANamespace (s : string)           (* a fiberfx.Namespace *)
| ANamespaces (l : list string)     (* a []fiberfx.Namespace *)
| AInt (z : Z)                      (* an int *)
| AValue (goType : string).         (* a value of another type, of which
                                       only the type is printed *)

Definition typeName (a : arg) : string :=
  match a with
  | AString _ => "string"
  | ANamespace _ => "fiberfx.Namespace"
  | ANamespaces _ => "[]fiberfx.Namespace"
  | AInt _ => "int"
  | AValue t => t
  end.

Section Tables.
Context {U : Unicode}.

Definition bracket (l : list string) : string :=
  "[" ++ String.concat " " l ++ "]".

(** [p.printArg(a, verb)] *)
Definition printArg (verb : ascii) (a : arg) : result string :=
  if Ascii.eqb verb "T" then Ok (typeName a) else
  match a with
  | AString s | ANamespace s =>
    if Ascii.eqb verb "s" || Ascii.eqb verb "v" then Ok s
    else if Ascii.eqb verb "q" then Ok (strconv.Quote s)
    else Unmodelled
  | ANamespaces l =>
    if Ascii.eqb verb "s" || Ascii.eqb verb "v" then Ok (bracket l)
    else if Ascii.eqb verb "q" then Ok (bracket (List.map strconv.Quote l))
    else Unmodelled
  | AInt z =>
    if Ascii.eqb verb "d" || Ascii.eqb verb "v" then Ok (strconv.Itoa z)
    else Unmodelled
  | AValue _ => Unmodelled
  end.

Definition isVerb (c : ascii) : bool :=
  Ascii.eqb c "s" || Ascii.eqb c "v" || Ascii.eqb c "q" || Ascii.eqb c "d"
  || Ascii.eqb c "T".

(** The arguments left over once the format is exhausted. *)
Definition extra (args : list arg) : result string :=
  match args with
  | [] => Ok ""
  | _ =>
    parts <- mapM (fun a => v <- printArg "v" a ;; Ok (typeName a ++ "=" ++ v)) args ;;
    Ok ("%!(EXTRA " ++ String.concat ", " parts ++ ")")
  end.

Fixpoint doPrintf (format : string) (args : list arg) : result string :=
  match format with
  | "" => extra args
  | String c rest =>
    if negb (Ascii.eqb c "%") then
      out <- doPrintf rest args ;; Ok (String c out)
    else
      match rest with
      | "" => e <- extra args ;; Ok ("%!(NOVERB)" ++ e)
      | String verb rest' =>
        if Ascii.eqb verb "%" then
          out <- doPrintf rest' args ;; Ok ("%" ++ out)
        else if isVerb verb then
          match args with
          | a :: args' =>
            v <- printArg verb a ;; out <- doPrintf rest' args' ;; Ok (v ++ out)
          | [] =>
            out <- doPrintf rest' [] ;;
            Ok ("%!" ++ String verb "(MISSING)" ++ out)
          end
        else Unmodelled
      end
  end.

Definition Sprintf (format : string) (args : list arg) : result string :=
  doPrintf format args.

End Tables.
End fmt.

(** *** regexp

    Regular expressions without alternation or iteration: a literal, a
    character class, a fixed number of repetitions of a pattern without
    groups, a sequence, a capture group.  On these a match at a given
    position is unique, and the leftmost match is the match at the leftmost
    position that has one. *)
Module regexp.

Inductive re : Type :=
| Lit (s : string)
| Class (p : ascii -> bool)
| Rep (n : nat) (r : re)
| Cat (r1 r2 : re)
| Group (r : re).

Fixpoint litAt (l s : string) : option string :=
  match l, s with
  | "", _ => Some s
  | String a l', String b s' => if Ascii.eqb a b then litAt l' s' else None
  | String _ _, "" => None
  end.

(** A match of [r] at the start of [s]: the text matched, the captures in
    the order of their groups, and the rest of [s]. *)
Fixpoint matchAt (r : re) (s : string) : option (string * list string * string) :=
  match r with
  | Lit l =>
    match litAt l s with
    | Some rest => Some (l, [], rest)
    | None => None
    end
  | Class p =>
    match s with
    | String c rest => if p c then Some (String c "", [], rest) else None
    | "" => None
    end
  | Rep n r' =>
    (fix rep (k : nat) (s0 : string) : option (string * list string * string) :=
       match k with
       | O => Some ("", [], s0)
       | S k' =>
         match matchAt r' s0 with
         | Some (m1, _, rest1) =>
           match rep k' rest1 with
           | Some (m2, g2, rest2) => Some (m1 ++ m2, g2, rest2)
           | None => None
           end
         | None => None
         end
       end) n s
  | Cat r1 r2 =>
    match matchAt r1 s with
    | Some (m1, g1, rest1) =>
      match matchAt r2 rest1 with
      | Some (m2, g2, rest2) => Some (m1 ++ m2, (g1 ++ g2)%list, rest2)
      | None => None
      end
    | None => None
    end
  | Group r' =>
    match matchAt r' s with
    | Some (m, g, rest) => Some (m, (m :: g)%list, rest)
    | None => None
    end
  end.

(** [re.FindStringSubmatch(s)]: the leftmost match followed by its
    captures, or the nil slice. *)
Fixpoint FindStringSubmatch (r : re) (s : string) : list string :=
  match matchAt r s with
  | Some (m, g, _) => m :: g
  | None =>
    match s with
    | "" => []
    | String _ s' => FindStringSubmatch r s'
    end
  end.

End regexp.

(** ** github.com/jonny-novikov/jonnify/fiberfx

    The identifier package lives in another module and is not part of the
    sources embedded here; what the embedded code calls is modelled from
    the specification. *)
Module fiberfx.

Definition Namespace : Type := string.

(** Modelled from the spec: the constants [fiberfx.BrandedLen] and
    [fiberfx.NamespaceLen] (an identifier is always exactly 14 characters,
    3 of namespace and 11 of payload). *)
Definition BrandedLen : nat := 14.
Definition NamespaceLen : nat := 3.

(** Modelled from the spec: [fiberfx.Valid(raw)] is true iff [Parse] would
    succeed, and [Parse] fails unless [raw] is exactly 14 characters, the
    first 3 are upper-case letters and the remaining 11 are alphanumeric;
    membership of the namespace in the registry is not required. *)
Definition Valid (raw : string) : bool :=
  (String.length raw =? BrandedLen)%nat
  && forallb_s isUpper (take NamespaceLen raw)
  && forallb_s isAlnum (drop NamespaceLen raw).

(** The namespace registry: a fixed, process-wide table of 3-letter codes.
    Its content is a parameter. *)
Class Registry : Type := { registered : list Namespace }.

Section Registry.
Context {R : Registry}.

(** Modelled from the spec: [fiberfx.IsValidNamespace(code)] is true iff
    [code] is exactly 3 characters and present in the registered set. *)
Definition IsValidNamespace (ns : Namespace) : bool :=
  (String.length ns =? NamespaceLen)%nat
  && existsb (String.eqb ns) registered.

(** Modelled from the spec: [fiberfx.AllNamespaces()] is a stable
    enumeration of the registered namespaces. *)
Definition AllNamespaces : list Namespace := registered.

End Registry.
End fiberfx.

(** ** ariga.io/atlas/sql/schema

    The schema description types the embedded code reads and writes.  The
    open interface [schema.Type] is the sum of the implementations met in
    the sources, the branded identifier type of package [branded] among
    them; a nil interface value or a nil pointer is [None]. *)
Module schema.

Inductive Type_ : Type :=
| StringType (T : string) (Size : Z)
| IntegerType (T : string) (Unsigned : bool)
| UUIDType (T : string)
| BrandedIDType (Namespace : fiberfx.Namespace)
| OtherType (goType : string).

Record ColumnType : Type := {
  ColumnType_Type : option Type_;
  ColumnType_Raw : string;
  ColumnType_Null : bool
}.

Inductive Attr : Type :=
| Comment (Text : string)
| Collation (V : string)
| Charset (V : string).

Record Column : Type := {
  Column_Name : string;
  Column_Type : option ColumnType;
  Column_Attrs : list Attr
}.

Record ForeignKey : Type := {
  ForeignKey_Symbol : string;
  ForeignKey_Columns : list Column;
  ForeignKey_RefColumns : list Column
}.

Record Table : Type := {
  Table_Name : string;
  Table_Columns : list Column;
  Table_ForeignKeys : list ForeignKey
}.

Record Schema : Type := {
  Schema_Name : string;
  Schema_Tables : list Table
}.

Record Check : Type := {
  Check_Name : string;
  Check_Expr : string
}.

(** The assignment [ct.Type = t]. *)
Definition ColumnType_setType (ct : ColumnType) (t : option Type_) : ColumnType :=
  {| ColumnType_Type := t;
     ColumnType_Raw := ColumnType_Raw ct;
     ColumnType_Null := ColumnType_Null ct |}.

(** The assignment [c.Type = ct]. *)
Definition Column_setType (c : Column) (ct : option ColumnType) : Column :=
  {| Column_Name := Column_Name c;
     Column_Type := ct;
     Column_Attrs := Column_Attrs c |}.

(** What the verb [%T] prints for a [schema.Type]. *)
Definition goTypeName (t : option Type_) : string :=
  match t with
  | None => "<nil>"
  | Some (StringType _ _) => "*schema.StringType"
  | Some (IntegerType _ _) => "*schema.IntegerType"
  | Some (UUIDType _) => "*schema.UUIDType"
  | Some (BrandedIDType _) => "*branded.BrandedIDType"
  | Some (OtherType n) => n
  end.

End schema.

(** Dereferencing a pointer: nil panics. *)
Definition deref {A : Type} (p : option A) : result A :=
  match p with
  | Some a => Ok a
  | None => Panic
  end.

(** A [for ... range] loop over [l] that threads the state [s]. *)
Fixpoint forEach {A S : Type} (l : list A) (s : S) (body : S -> A -> result S)
  : result S :=
  match l with
  | [] => Ok s
  | a :: l' => s' <- body s a ;; forEach l' s' body
  end.

(** The pairs [(i, x)] of [for i, x := range l]. *)
Definition indexed {A : Type} (l : list A) : list (nat * A) :=
  combine (seq 0 (List.length l)) l.

(** ** ariga.io/atlas/schemahcl *)
Module schemahcl.

(** A [cty.Value], as far as it is a string or not. *)
Inductive Value : Type :=
| StringVal (s : string)
| NumberVal (z : Z)
| BoolVal (b : bool).

Record Attr : Type := {
  Attr_K : string;
  Attr_V : Value
}.

Record Type_ : Type := {
  Type_T : string;
  Type_Attrs : list Attr;
  Type_IsRef : bool
}.

(** Go errors: one made by [fmt.Errorf], or the conversion error of an
    attribute that does not hold a string. *)
Inductive error : Type :=
| Errorf (msg : string)
| NotAString (key : string).

Section Tables.
Context {U : Unicode}.

(** [cty.NormalizeString]: strings held by a [cty.Value] are in NFC. *)
Definition NormalizeString (s : string) : string :=
  if isASCII s then s else nfcWide s.

(** Modelled from the spec: [schemahcl.StringAttr(k, v)] builds the string
    attribute [k = v] of a type constructor of the declarative
    configuration. *)
Definition StringAttr (k v : string) : Attr :=
  {| Attr_K := k; Attr_V := StringVal (NormalizeString v) |}.

End Tables.

(** Modelled from the spec: [a.String()] reads a string attribute, and
    fails on an attribute of another kind. *)
Definition Attr_String (a : Attr) : string * option error :=
  match Attr_V a with
  | StringVal s => (s, None)
  | _ => ("", Some (NotAString (Attr_K a)))
  end.

End schemahcl.

(** ** ariga.io/atlas/sql/branded (branded.go, hcl.go) *)
Module branded.
Import fmt.

(** [BrandedIDType] represents a branded ID column type: stored as
    VARCHAR(14), it carries the 3-character namespace. *)
Record BrandedIDType : Type := { Namespace : fiberfx.Namespace }.

(** A [*BrandedIDType] used as a [schema.Type]. *)
Definition asType (t : BrandedIDType) : schema.Type_ :=
  schema.BrandedIDType (Namespace t).

(** The type assertion of [x] to a pointer to [BrandedIDType]. *)
Definition assertBranded (x : option schema.Type_) : option BrandedIDType :=
  match x with
  | Some (schema.BrandedIDType ns) => Some {| Namespace := ns |}
  | _ => None
  end.

Definition String_ (t : BrandedIDType) : string := "varchar(14)".

Definition Underlying (t : BrandedIDType) : schema.Type_ :=
  schema.StringType "character varying" 14.

(** [Is] reports if [t] is the same type as [x]. *)
Definition Is (t : BrandedIDType) (x : option schema.Type_) : bool :=
  match assertBranded x with
  | Some b => String.eqb (Namespace t) (Namespace b)
  | None => false
  end.

(** [CommentMarker] is the column comment prefix used to identify branded
    ID columns. *)
Definition CommentMarker : string := "branded_id:".

(** [reComment] is the pattern [branded_id:([A-Z]{3})]. *)
Definition reComment : regexp.re :=
  regexp.Cat (regexp.Lit "branded_id:")
             (regexp.Group (regexp.Rep 3 (regexp.Class isUpper))).

(** [ParseComment] extracts the namespace from a column comment. *)
Definition ParseComment (comment : string) : fiberfx.Namespace * bool :=
  let matches := regexp.FindStringSubmatch reComment comment in
  if negb (List.length matches =? 2)%nat then ("", false)
  else (nth 1 matches "", true).

(** [TypeBrandedID] is the HCL type name for branded IDs. *)
Definition TypeBrandedID : string := "branded_id".

Section Env.
Context {U : Unicode} {R : fiberfx.Registry}.

(** [BrandedID] creates a new branded ID type with the given namespace. *)
Definition BrandedID (ns : string) : BrandedIDType :=
  {| Namespace := strings.ToUpper ns |}.

(** [BrandedIDFromNamespace] creates a new branded ID type from a
    [fiberfx.Namespace]. *)
Definition BrandedIDFromNamespace (ns : fiberfx.Namespace) : BrandedIDType :=
  {| Namespace := ns |}.

(** [FormatComment] returns the column comment for a branded ID with the
    given namespace. *)
Definition FormatComment (ns : fiberfx.Namespace) : result string :=
  Sprintf "%s%s" [AString CommentMarker; ANamespace ns].

Definition IsValidNamespace (ns : string) : bool :=
  fiberfx.IsValidNamespace ns.

(** [CheckConstraintExpr] returns a CHECK constraint expression for
    validating the branded ID format in SQL. *)
Definition CheckConstraintExpr (column : string) (ns : fiberfx.Namespace)
  : result string :=
  Sprintf "%s ~ '^%s[0-9A-Za-z]{11}$'" [AString column; ANamespace ns].

(** [CheckConstraintName] returns the conventional name for a branded ID
    check constraint. *)
Definition CheckConstraintName (table column : string) : result string :=
  Sprintf "chk_%s_%s_format" [AString table; AString column].

(** [namespaceFromAttrs] extracts the namespace from HCL type attributes:
    the first attribute whose key is [namespace]. *)
Fixpoint namespaceFromAttrs (attrs : list schemahcl.Attr)
  : result (string * option schemahcl.error) :=
  match attrs with
  | a :: attrs' =>
    if String.eqb (schemahcl.Attr_K a) "namespace"
    then Ok (schemahcl.Attr_String a)
    else namespaceFromAttrs attrs'
  | [] =>
    msg <- Sprintf "branded: missing namespace attribute" [] ;;
    Ok ("", Some (schemahcl.Errorf msg))
  end.

(** [fromSpec] converts a [schemahcl.Type] to a [schema.Type]
    (HCL to database). *)
Definition fromSpec (t : schemahcl.Type_)
  : result (option schema.Type_ * option schemahcl.error) :=
  if negb (String.eqb (schemahcl.Type_T t) TypeBrandedID) then
    msg <- Sprintf "branded: expected type %q, got %q"
             [AString TypeBrandedID; AString (schemahcl.Type_T t)] ;;
    Ok (None, Some (schemahcl.Errorf msg))
  else
    r <- namespaceFromAttrs (schemahcl.Type_Attrs t) ;;
    let '(ns, err) := r in
    match err with
    | Some e => Ok (None, Some e)
    | None =>
      if negb (fiberfx.IsValidNamespace ns) then
        msg <- Sprintf "branded: invalid namespace %q; valid namespaces: %v"
                 [AString ns; ANamespaces fiberfx.AllNamespaces] ;;
        Ok (None, Some (schemahcl.Errorf msg))
      else Ok (Some (asType (BrandedID ns)), None)
    end.

(** [toSpec] converts a [schema.Type] to a [schemahcl.Type]
    (database to HCL). *)
Definition toSpec (t : option schema.Type_)
  : result (option schemahcl.Type_ * option schemahcl.error) :=
  match assertBranded t with
  | None =>
    msg <- Sprintf "branded: expected *BrandedIDType, got %T"
             [AValue (schema.goTypeName t)] ;;
    Ok (None, Some (schemahcl.Errorf msg))
  | Some bid =>
    Ok (Some {| schemahcl.Type_T := TypeBrandedID;
                schemahcl.Type_Attrs :=
                  [schemahcl.StringAttr "namespace" (Namespace bid)];
                schemahcl.Type_IsRef := false |},
        None)
  end.

(** [IsBrandedIDType] checks if a [schemahcl.Type] represents a branded
    ID. *)
Definition IsBrandedIDType (t : option schemahcl.Type_) : bool :=
  match t with
  | Some t' => String.eqb (schemahcl.Type_T t') TypeBrandedID
  | None => false
  end.

(** [NamespaceFromType] extracts the namespace from a [schemahcl.Type]: the
    empty string if the type is not a branded ID or has no namespace. *)
Definition NamespaceFromType (t : option schemahcl.Type_) : result string :=
  if negb (IsBrandedIDType t) then Ok ""
  else
    attrs <- fmap schemahcl.Type_Attrs (deref t) ;;
    r <- namespaceFromAttrs attrs ;;
    Ok (fst r).

End Env.
End branded.

(** ** ariga.io/atlas/sql/postgres (branded_constraints.go,
       inspect_branded.go) *)
Module postgres.
Import fmt.

Record brandedConstraintConfig : Type := {
  enabled : bool;
  constraintFmt : string
}.

(** [BrandedConstraintOption] configures branded ID constraint
    generation. *)
Definition BrandedConstraintOption : Type :=
  brandedConstraintConfig -> brandedConstraintConfig.

(** [WithBrandedConstraints] enables or disables CHECK constraint
    generation. *)
Definition WithBrandedConstraints (on : bool) : BrandedConstraintOption :=
  fun c => {| enabled := on; constraintFmt := constraintFmt c |}.

(** [WithConstraintFormat] sets the constraint name format. *)
Definition WithConstraintFormat (format : string) : BrandedConstraintOption :=
  fun c => {| enabled := enabled c; constraintFmt := format |}.

(** [BrandedConstraintGenerator] generates CHECK constraints for branded ID
    columns. *)
Record BrandedConstraintGenerator : Type := {
  config : brandedConstraintConfig
}.

(** [NewBrandedConstraintGenerator] creates a new generator with
    options. *)
Definition NewBrandedConstraintGenerator (opts : list BrandedConstraintOption)
  : BrandedConstraintGenerator :=
  {| config :=
       fold_left (fun c opt => opt c) opts
         {| enabled := true; constraintFmt := "chk_%s_%s_branded" |} |}.

Section Env.
Context {U : Unicode}.

(** [GenerateForColumn] generates a CHECK constraint for a branded ID
    column; nil if the column is not a branded ID type. *)
Definition GenerateForColumn (g : BrandedConstraintGenerator)
    (tableName : string) (col : schema.Column) : result (option schema.Check) :=
  if negb (enabled (config g)) then Ok None
  else
    ct <- deref (schema.Column_Type col) ;;
    match branded.assertBranded (schema.ColumnType_Type ct) with
    | None => Ok None
    | Some bt =>
      constraintName <-
        Sprintf (constraintFmt (config g))
          [AString tableName; AString (schema.Column_Name col)] ;;
      let ns := branded.Namespace bt in
      expr <-
        (if schema.ColumnType_Null ct then
           Sprintf "%s IS NULL OR %s ~ '^%s[0-9A-Za-z]{11}$'"
             [AString (schema.Column_Name col);
              AString (schema.Column_Name col); AString ns]
         else
           Sprintf "%s ~ '^%s[0-9A-Za-z]{11}$'"
             [AString (schema.Column_Name col); AString ns]) ;;
      Ok (Some {| schema.Check_Name := constraintName;
                  schema.Check_Expr := expr |})
    end.

(** [GenerateForTable] generates CHECK constraints for all branded ID
    columns in a table. *)
Definition GenerateForTable (g : BrandedConstraintGenerator) (t : schema.Table)
  : result (list schema.Check) :=
  if negb (enabled (config g)) then Ok []
  else
    forEach (schema.Table_Columns t) []
      (fun checks col =>
         check <- GenerateForColumn g (schema.Table_Name t) col ;;
         match check with
         | Some ck => Ok (checks ++ [ck])%list
         | None => Ok checks
         end).

(** [GenerateSQL] generates the ALTER TABLE statement for adding a CHECK
    constraint. *)
Definition GenerateSQL (g : BrandedConstraintGenerator)
    (tableName : string) (col : schema.Column) : result string :=
  check <- GenerateForColumn g tableName col ;;
  match check with
  | None => Ok ""
  | Some ck =>
    Sprintf "ALTER TABLE %q ADD CONSTRAINT %q CHECK (%s);"
      [AString tableName; AString (schema.Check_Name ck);
       AString (schema.Check_Expr ck)]
  end.

(** [GenerateAllSQL] generates all CHECK constraint statements for a
    table. *)
Definition GenerateAllSQL (g : BrandedConstraintGenerator) (t : schema.Table)
  : result (list string) :=
  checks <- GenerateForTable g t ;;
  forEach checks []
    (fun sqls ck =>
       sql <- Sprintf "ALTER TABLE %q ADD CONSTRAINT %q CHECK (%s);"
                [AString (schema.Table_Name t); AString (schema.Check_Name ck);
                 AString (schema.Check_Expr ck)] ;;
       Ok (sqls ++ [sql])%list).

End Env.

(** [isBrandedIDCompatible] checks if a [schema.Type] is compatible with
    branded IDs: a string type of size 14. *)
Definition isBrandedIDCompatible (t : option schema.Type_) : bool :=
  match t with
  | Some (schema.StringType _ size) => (size =? 14)%Z
  | _ => false
  end.

(** [getComment] extracts the comment text from the attributes of a
    column. *)
Fixpoint getCommentAttrs (attrs : list schema.Attr) : string :=
  match attrs with
  | schema.Comment text :: _ => text
  | _ :: attrs' => getCommentAttrs attrs'
  | [] => ""
  end.

Definition getComment (c : schema.Column) : string :=
  getCommentAttrs (schema.Column_Attrs c).

(** [convertBrandedIDColumn] checks if a column is a branded ID based on
    its comment and type, and converts it to [BrandedIDType] if so.  The
    column is updated in place: the function returns its new state. *)
Definition convertBrandedIDColumn (c : schema.Column) : schema.Column :=
  match schema.Column_Type c with
  | None => c
  | Some ct =>
    let comment := getComment c in
    if String.eqb comment "" then c
    else
      let '(ns, ok) := branded.ParseComment comment in
      if negb ok then c
      else if negb (isBrandedIDCompatible (schema.ColumnType_Type ct)) then c
      else
        schema.Column_setType c
          (Some (schema.ColumnType_setType ct
                   (Some (branded.asType (branded.BrandedIDFromNamespace ns)))))
  end.

(** [ConvertBrandedIDColumnsInTable] converts branded ID columns in a
    single table. *)
Definition ConvertBrandedIDColumnsInTable (t : schema.Table) : schema.Table :=
  {| schema.Table_Name := schema.Table_Name t;
     schema.Table_Columns := List.map convertBrandedIDColumn (schema.Table_Columns t);
     schema.Table_ForeignKeys := schema.Table_ForeignKeys t |}.

(** [ConvertBrandedIDColumns] converts the columns of every table of a
    schema. *)
Definition ConvertBrandedIDColumns (s : schema.Schema) : schema.Schema :=
  {| schema.Schema_Name := schema.Schema_Name s;
     schema.Schema_Tables := List.map ConvertBrandedIDColumnsInTable (schema.Schema_Tables s) |}.

(** [IsBrandedIDColumn] checks if a column is a branded ID column based on
    its type. *)
Definition IsBrandedIDColumn (c : schema.Column) : bool :=
  match schema.Column_Type c with
  | None => false
  | Some ct =>
    match branded.assertBranded (schema.ColumnType_Type ct) with
    | Some _ => true
    | None => false
    end
  end.

(** [GetBrandedIDNamespace] returns the namespace if the column is a
    branded ID, otherwise the empty string and false. *)
Definition GetBrandedIDNamespace (c : schema.Column) : string * bool :=
  match schema.Column_Type c with
  | None => ("", false)
  | Some ct =>
    match branded.assertBranded (schema.ColumnType_Type ct) with
    | Some bt => (branded.Namespace bt, true)
    | None => ("", false)
    end
  end.

(** [SetBrandedIDComment] sets the [branded_id:NS] comment on a column.
    The method [SetComment] of [schema.Column], which this function calls,
    is declared outside the embedded sources: it is the parameter
    [setComment], the column after the call for the column before it and
    the text. *)
Definition SetBrandedIDComment {U : Unicode}
    (setComment : schema.Column -> string -> schema.Column)
    (c : schema.Column) : result schema.Column :=
  ct <- deref (schema.Column_Type c) ;;
  match branded.assertBranded (schema.ColumnType_Type ct) with
  | None => Ok c
  | Some bt =>
    text <- branded.FormatComment (branded.Namespace bt) ;;
    Ok (setComment c text)
  end.

End postgres.

(** ** ariga.io/atlas/internal/branded (validator.go) *)
Module validator.
Import fmt.

(** [ValidationError] represents a branded ID validation error. *)
Record ValidationError : Type := {
  Table : string;
  Column : string;
  FK : string;
  Message : string
}.

(** [Validator] validates branded ID columns and values. *)
Record Validator : Type := {
  strict : bool;
  checkNaming : bool
}.

Definition ValidatorOption : Type := Validator -> Validator.

(** [WithStrict] enables strict mode that rejects unknown namespaces. *)
Definition WithStrict (b : bool) : ValidatorOption :=
  fun v => {| strict := b; checkNaming := checkNaming v |}.

(** [WithNamingConvention] enables naming convention warnings. *)
Definition WithNamingConvention (b : bool) : ValidatorOption :=
  fun v => {| strict := strict v; checkNaming := b |}.

(** [NewValidator] creates a new branded ID validator. *)
Definition NewValidator (opts : list ValidatorOption) : Validator :=
  fold_left (fun v opt => opt v) opts {| strict := true; checkNaming := false |}.

Section Env.
Context {U : Unicode} {R : fiberfx.Registry}.

Definition Error (e : ValidationError) : result string :=
  if negb (String.eqb (FK e) "") then
    Sprintf "FK %q: %s" [AString (FK e); AString (Message e)]
  else if negb (String.eqb (Column e) "") then
    Sprintf "column %q.%q: %s"
      [AString (Table e); AString (Column e); AString (Message e)]
  else Ok (Message e).

(** [isValidColumnName] checks if column name follows convention. *)
Definition isValidColumnName (v : Validator) (colName : string)
    (ns : fiberfx.Namespace) : bool :=
  if String.eqb colName "id" then true
  else
    let nsLower := strings.ToLower ns in
    if String.eqb colName (nsLower ++ "_id") then true
    else if strings.HasSuffix colName "_id" then true
    else false.

(** [ValidateColumn] validates a branded ID column definition. *)
Definition ValidateColumn (v : Validator) (tableName : string)
    (col : schema.Column) : result (list ValidationError) :=
  ct <- deref (schema.Column_Type col) ;;
  match branded.assertBranded (schema.ColumnType_Type ct) with
  | None => Ok []
  | Some bt =>
    let errs : list ValidationError := [] in
    errs <-
      (if strict v && negb (fiberfx.IsValidNamespace (branded.Namespace bt)) then
         msg <- Sprintf "unknown namespace %q; valid: %v"
                  [ANamespace (branded.Namespace bt);
                   ANamespaces fiberfx.AllNamespaces] ;;
         Ok (errs ++ [{| Table := tableName;
                         Column := schema.Column_Name col;
                         FK := "";
                         Message := msg |}])%list
       else Ok errs) ;;
    errs <-
      (if checkNaming v
          && negb (isValidColumnName v (schema.Column_Name col) (branded.Namespace bt))
       then
         msg <- Sprintf "recommended naming is 'id' or '%s_id'"
                  [AString (strings.ToLower (branded.Namespace bt))] ;;
         Ok (errs ++ [{| Table := tableName;
                         Column := schema.Column_Name col;
                         FK := "";
                         Message := msg |}])%list
       else Ok errs) ;;
    Ok errs
  end.

(** The body of the loop of [ValidateForeignKey], for the referencing
    column [col] and the referenced column [refCol] of the same index. *)
Definition checkPair (symbol : string) (col refCol : schema.Column)
    (errs : list ValidationError) : result (list ValidationError) :=
  ct <- deref (schema.Column_Type col) ;;
  match branded.assertBranded (schema.ColumnType_Type ct) with
  | None => Ok errs
  | Some bt =>
    refCt <- deref (schema.Column_Type refCol) ;;
    match branded.assertBranded (schema.ColumnType_Type refCt) with
    | None =>
      msg <- Sprintf "column %q is branded_id but reference %q is not"
               [AString (schema.Column_Name col);
                AString (schema.Column_Name refCol)] ;;
      Ok (errs ++ [{| Table := ""; Column := ""; FK := symbol;
                      Message := msg |}])%list
    | Some refBt =>
      if negb (String.eqb (branded.Namespace bt) (branded.Namespace refBt)) then
        msg <- Sprintf "namespace mismatch %q (%s) -> %q (%s)"
                 [AString (schema.Column_Name col);
                  ANamespace (branded.Namespace bt);
                  AString (schema.Column_Name refCol);
                  ANamespace (branded.Namespace refBt)] ;;
        Ok (errs ++ [{| Table := ""; Column := ""; FK := symbol;
                        Message := msg |}])%list
      else Ok errs
    end
  end.

(** [ValidateForeignKey] validates namespace consistency in foreign
    keys. *)
Definition ValidateForeignKey (v : Validator) (fk : schema.ForeignKey)
  : result (list ValidationError) :=
  forEach (indexed (schema.ForeignKey_Columns fk)) []
    (fun errs '(i, col) =>
       if (List.length (schema.ForeignKey_RefColumns fk) <=? i)%nat then Ok errs
       else
         match nth_error (schema.ForeignKey_RefColumns fk) i with
         | None => Panic
         | Some refCol => checkPair (schema.ForeignKey_Symbol fk) col refCol errs
         end).

(** [ValidateTable] validates all branded ID columns in a table. *)
Definition ValidateTable (v : Validator) (t : schema.Table)
  : result (list ValidationError) :=
  errs <- forEach (schema.Table_Columns t) []
            (fun errs col =>
               colErrs <- ValidateColumn v (schema.Table_Name t) col ;;
               Ok (errs ++ colErrs)%list) ;;
  forEach (schema.Table_ForeignKeys t) errs
    (fun errs fk =>
       fkErrs <- ValidateForeignKey v fk ;;
       Ok (errs ++ fkErrs)%list).

(** [ValidateSchema] validates all branded ID columns in a schema. *)
Definition ValidateSchema (v : Validator) (s : schema.Schema)
  : result (list ValidationError) :=
  forEach (schema.Schema_Tables s) []
    (fun errs t =>
       tErrs <- ValidateTable v t ;;
       Ok (errs ++ tErrs)%list).

(** [ValidateValue] validates a branded ID value; [None] is the nil
    error. *)
Definition ValidateValue (v : Validator) (value : string)
    (expected : fiberfx.Namespace) : result (option string) :=
  if negb (String.length value =? fiberfx.BrandedLen)%nat then
    msg <- Sprintf "branded ID must be %d characters, got %d"
             [AInt (Z.of_nat fiberfx.BrandedLen);
              AInt (Z.of_nat (String.length value))] ;;
    Ok (Some msg)
  else if negb (fiberfx.Valid value) then
    msg <- Sprintf "branded ID %q has invalid format" [AString value] ;;
    Ok (Some msg)
  else if negb (String.eqb expected "") then
    let ns := take fiberfx.NamespaceLen value in
    if negb (String.eqb ns expected) then
      msg <- Sprintf "expected namespace %q, got %q"
               [ANamespace expected; ANamespace ns] ;;
      Ok (Some msg)
    else Ok None
  else Ok None.

End Env.
End validator.

(** ** Concrete tables and sample data

    [latin1] agrees with Go's tables on the code points U+0080 to U+00FF
    and leaves the code points beyond Latin-1 alone; it serves to run the
    embedded functions on concrete inputs, all of which stay within
    Latin-1. *)
Module samples.

Definition latin1 : Unicode :=
  {| upperWide := fun r =>
       (if r =? 181 then 924
        else if r =? 255 then 376
        else if (224 <=? r) && (r <=? 254) && negb (r =? 247) then r - 32
        else r)%Z;
     lowerWide := fun r =>
       (if (192 <=? r) && (r <=? 222) && negb (r =? 215) then r + 32
        else r)%Z;
     printWide := fun _ => false;
     nfcWide := fun s => s |}.

(** The namespace codes that the tests of the repository spell out. *)
Definition registry : fiberfx.Registry :=
  {| fiberfx.registered :=
       ["TSK"; "EPC"; "FTR"; "USR"; "PLR"; "RSC"; "ROM"; "GAM"; "GUS";
        "TXN"; "DPL"; "SHR"] |}.

(** The two bytes of U+00E9, e with an acute accent, in UTF-8. *)
Definition eacute : string := String "195"%char (String "169"%char "").

(** The two bytes of U+00C9, E with an acute accent, in UTF-8. *)
Definition Eacute : string := String "195"%char (String "137"%char "").

(** The column type holding the schema type [t], nullable or not. *)
Definition columnType (t : schema.Type_) (null : bool) : schema.ColumnType :=
  {| schema.ColumnType_Type := Some t;
     schema.ColumnType_Raw := "";
     schema.ColumnType_Null := null |}.

(** A column [name] of schema type [t], nullable or not, without
    attributes. *)
Definition column (name : string) (t : schema.Type_) (null : bool) : schema.Column :=
  {| schema.Column_Name := name;
     schema.Column_Type := Some (columnType t null);
     schema.Column_Attrs := [] |}.

(** The same column, not nullable, carrying the comment [text]. *)
Definition commented (name : string) (t : schema.Type_) (text : string) : schema.Column :=
  {| schema.Column_Name := name;
     schema.Column_Type := Some (columnType t false);
     schema.Column_Attrs := [schema.Comment text] |}.

(** A table name that holds a double quote, and the same name as [%q]
    writes it between the quotes: the quote escaped with a backslash. *)
Definition quotedName : string := "a" ++ strconv.dquote ++ "b".
Definition escapedName : string := "a\" ++ strconv.dquote ++ "b".

(** The schema of the tests whose only column is typed with the unknown
    namespace XXX. *)
Definition badSchema : schema.Schema :=
  {| schema.Schema_Name := "public";
     schema.Schema_Tables :=
       [{| schema.Table_Name := "bad_table";
           schema.Table_Columns := [column "id" (schema.BrandedIDType "XXX") false];
           schema.Table_ForeignKeys := [] |}] |}.

(** A [SetComment] for running [SetBrandedIDComment]: the first comment
    attribute is replaced, and a column without one gets the comment
    appended to its attributes. *)
Fixpoint replaceOrAppend (attrs : list schema.Attr) (text : string)
  : list schema.Attr :=
  match attrs with
  | [] => [schema.Comment text]
  | schema.Comment _ :: attrs' => schema.Comment text :: attrs'
  | a :: attrs' => a :: replaceOrAppend attrs' text
  end.

Definition setComment (c : schema.Column) (text : string) : schema.Column :=
  {| schema.Column_Name := schema.Column_Name c;
     schema.Column_Type := schema.Column_Type c;
     schema.Column_Attrs := replaceOrAppend (schema.Column_Attrs c) text |}.

End samples.

(** ** Specification vocabulary *)

(** Every character of [s] satisfies [P]. *)
Fixpoint AllOf (P : ascii -> Prop) (s : string) : Prop :=
  match s with
  | "" => True
  | String c s' => P c /\ AllOf P s'
  end.

Definition UpperLetter (c : ascii) : Prop := (65 <= byteZ c <= 90)%Z.
Definition LowerLetter (c : ascii) : Prop := (97 <= byteZ c <= 122)%Z.
Definition Digit (c : ascii) : Prop := (48 <= byteZ c <= 57)%Z.
Definition Alphanumeric (c : ascii) : Prop :=
  Digit c \/ UpperLetter c \/ LowerLetter c.

(** A namespace code: exactly 3 upper-case ASCII letters. *)
Definition Upper3 (ns : string) : Prop :=
  String.length ns = 3%nat /\ AllOf UpperLetter ns.

(** The identifier text format [^[A-Z]{3}[0-9A-Za-z]{11}$]: 3 upper-case
    letters followed by 11 alphanumerics. *)
Definition BrandedSyntax (value : string) : Prop :=
  exists ns payload,
    value = ns ++ payload /\ Upper3 ns /\
    String.length payload = 11%nat /\ AllOf Alphanumeric payload.

(** Every registered namespace is a code of 3 upper-case letters. *)
Definition WellFormedRegistry (R : fiberfx.Registry) : Prop :=
  Forall Upper3 (@fiberfx.registered R).

(** A character that [%q] prints as it is: printable ASCII other than the
    double quote and the backslash. *)
Definition PlainChar (c : ascii) : Prop :=
  (32 <= byteZ c <= 126)%Z /\ byteZ c <> 34%Z /\ byteZ c <> 92%Z.

(** A string free of the character [%]. *)
Definition NoPercent (s : string) : Prop :=
  AllOf (fun c => c <> "%"%char) s.

(** The column has a type, and it is the branded type of namespace [ns]. *)
Definition Branded (c : schema.Column) (ns : string) : Prop :=
  exists ct, schema.Column_Type c = Some ct /\
             schema.ColumnType_Type ct = Some (schema.BrandedIDType ns).

(** The column has a type, and it is not a branded type. *)
Definition NotBranded (c : schema.Column) : Prop :=
  exists ct, schema.Column_Type c = Some ct /\
             forall ns, schema.ColumnType_Type ct <> Some (schema.BrandedIDType ns).

(** Columns, foreign keys, tables and schemas all of whose columns have a
    type (a non-nil [Type] pointer). *)
Definition Typed (c : schema.Column) : Prop := schema.Column_Type c <> None.

Definition TypedForeignKey (fk : schema.ForeignKey) : Prop :=
  Forall Typed (schema.ForeignKey_Columns fk) /\
  Forall Typed (schema.ForeignKey_RefColumns fk).

Definition TypedTable (t : schema.Table) : Prop :=
  Forall Typed (schema.Table_Columns t) /\
  Forall TypedForeignKey (schema.Table_ForeignKeys t).

Definition TypedSchema (s : schema.Schema) : Prop :=
  Forall TypedTable (schema.Schema_Tables s).

(** The comment holds the marker [branded_id:ns], with [ns] a code of 3
    upper-case letters, after the prefix [pre] and before [post]. *)
Definition MarkerAt (comment pre ns post : string) : Prop :=
  comment = pre ++ branded.CommentMarker ++ ns ++ post /\ Upper3 ns.

(** [ns] is the namespace of the first marker of the comment. *)
Definition FirstMarker (comment ns : string) : Prop :=
  exists pre post,
    MarkerAt comment pre ns post /\
    forall pre' ns' post',
      MarkerAt comment pre' ns' post' -> String.length pre <= String.length pre'.

(** The comment holds a marker somewhere. *)
Definition HasMarker (comment : string) : Prop :=
  exists pre ns post, MarkerAt comment pre ns post.

(** The CHECK expressions of the specification: the regular expression
    test of a column against the identifier format of namespace [ns], and
    the same test allowing NULL. *)
Definition checkPattern (col ns : string) : string :=
  col ++ " ~ '^" ++ ns ++ "[0-9A-Za-z]{11}$'".

Definition checkExpr (col ns : string) (null : bool) : string :=
  if null then col ++ " IS NULL OR " ++ checkPattern col ns
  else checkPattern col ns.

(** [s] between two double quotes. *)
Definition inQuotes (s : string) : string :=
  strconv.dquote ++ s ++ strconv.dquote.

(** The ALTER TABLE template of the specification, the table and the
    constraint name being quoted by [quote]. *)
Definition alterTable (quote : string -> string) (table name expr : string)
  : string :=
  "ALTER TABLE " ++ quote table ++ " ADD CONSTRAINT " ++ quote name
  ++ " CHECK (" ++ expr ++ ");".

(** The default constraint names: the one of the constraint generator and
    the one of the helper [CheckConstraintName]. *)
Definition brandedName (table col : string) : string :=
  "chk_" ++ table ++ "_" ++ col ++ "_branded".

Definition formatName (table col : string) : string :=
  "chk_" ++ table ++ "_" ++ col ++ "_format".

(** The schema type of a column, nil when the column has none. *)
Definition schemaTypeOf (c : schema.Column) : option schema.Type_ :=
  match schema.Column_Type c with
  | Some ct => schema.ColumnType_Type ct
  | None => None
  end.

(** The column is eligible for the conversion to the branded type of
    namespace [ns]: its physical type is a string type of size 14, whatever
    its name, and [ns] is the first marker of its comment. *)
Definition Eligible (c : schema.Column) (ns : string) : Prop :=
  (exists T, schemaTypeOf c = Some (schema.StringType T 14)) /\
  FirstMarker (postgres.getComment c) ns.

(** The variable-length character types of PostgreSQL, by name. *)
Definition isVariableLengthChar (T : string) : bool :=
  String.eqb T "character varying" || String.eqb T "varchar".

(** The HCL type that the specification gives a branded type: the type
    named [branded_id] with the single string attribute [namespace]. *)
Definition brandedSpec (ns : string) : schemahcl.Type_ :=
  {| schemahcl.Type_T := "branded_id";
     schemahcl.Type_Attrs :=
       [{| schemahcl.Attr_K := "namespace";
           schemahcl.Attr_V := schemahcl.StringVal ns |}];
     schemahcl.Type_IsRef := false |}.

(** [fromSpec] after [toSpec]. *)
Definition roundTrip {U : Unicode} {R : fiberfx.Registry} (t : option schema.Type_)
  : result (option schema.Type_ * option schemahcl.error) :=
  r <- branded.toSpec t ;;
  match r with
  | (Some spec, None) => branded.fromSpec spec
  | (_, err) => Ok (None, err)
  end.

(** A schema none of whose columns is branded: the columns of its tables
    and the referencing columns of its foreign keys all have a type that is
    not branded (the referenced columns are left free). *)
Definition PlainForeignKey (fk : schema.ForeignKey) : Prop :=
  Forall NotBranded (schema.ForeignKey_Columns fk).

Definition PlainTable (t : schema.Table) : Prop :=
  Forall NotBranded (schema.Table_Columns t) /\
  Forall PlainForeignKey (schema.Table_ForeignKeys t).

Definition PlainSchema (s : schema.Schema) : Prop :=
  Forall PlainTable (schema.Schema_Tables s).

(** A foreign key cut to the pairs of columns of the same index. *)
Definition truncated (fk : schema.ForeignKey) : schema.ForeignKey :=
  let n := Nat.min (List.length (schema.ForeignKey_Columns fk))
                   (List.length (schema.ForeignKey_RefColumns fk)) in
  {| schema.ForeignKey_Symbol := schema.ForeignKey_Symbol fk;
     schema.ForeignKey_Columns := firstn n (schema.ForeignKey_Columns fk);
     schema.ForeignKey_RefColumns := firstn n (schema.ForeignKey_RefColumns fk) |}.

(** The error that [ValidateColumn] tags with the table and the column. *)
Definition columnError (table : string) (col : schema.Column) (msg : string)
  : validator.ValidationError :=
  {| validator.Table := table;
     validator.Column := schema.Column_Name col;
     validator.FK := "";
     validator.Message := msg |}.

(** The [Some] entries of a list, in order. *)
Fixpoint somes {A : Type} (l : list (option A)) : list A :=
  match l with
  | [] => []
  | Some a :: l' => a :: somes l'
  | None :: l' => somes l'
  end.

(** Whether the column may hold NULL; false when the column has no type. *)
Definition columnNull (c : schema.Column) : bool :=
  match schema.Column_Type c with
  | Some ct => schema.ColumnType_Null ct
  | None => false
  end.

(** The CHECK constraint of name [name] expected for a branded column. *)
Definition expectedCheck (name : string) (c : schema.Column) : schema.Check :=
  {| schema.Check_Name := name;
     schema.Check_Expr :=
       checkExpr (schema.Column_Name c) (fst (postgres.GetBrandedIDNamespace c))
         (columnNull c) |}.

(** The ALTER TABLE statement that adds the constraint [ck] to [table], as
    [%q] prints the names. *)
Definition addConstraint {U : Unicode} (table : string) (ck : schema.Check)
  : string :=
  alterTable strconv.Quote table (schema.Check_Name ck) (schema.Check_Expr ck).

Definition nonEmpty (s : string) : bool := negb (String.eqb s "").

(** ** Strings *)

Lemma append_nil_r (s : string) : s ++ "" = s.
Proof. induction s; simpl; congruence. Qed.

Lemma append_assoc (a b c : string) : (a ++ b) ++ c = a ++ b ++ c.
Proof. induction a; simpl; congruence. Qed.

Lemma length_append (a b : string) :
  String.length (a ++ b) = (String.length a + String.length b)%nat.
Proof. induction a; simpl; congruence. Qed.

Lemma take_drop (n : nat) (s : string) : take n s ++ drop n s = s.
Proof.
  revert s; induction n as [|n IH]; intros [|c s]; simpl; try reflexivity.
  now rewrite IH.
Qed.

Lemma length_take (n : nat) (s : string) :
  (n <= String.length s)%nat -> String.length (take n s) = n.
Proof.
  revert s; induction n as [|n IH]; intros [|c s]; simpl; intros; try lia.
  rewrite IH; lia.
Qed.

Lemma length_drop (n : nat) (s : string) :
  String.length (drop n s) = (String.length s - n)%nat.
Proof.
  revert s; induction n as [|n IH]; intros [|c s]; simpl; auto.
Qed.

Lemma take_app (a b : string) : take (String.length a) (a ++ b) = a.
Proof. induction a; simpl; [now destruct b | congruence]. Qed.

Lemma drop_app (a b : string) : drop (String.length a) (a ++ b) = b.
Proof. induction a; simpl; auto. Qed.

Lemma forallb_s_AllOf (p : ascii -> bool) (P : ascii -> Prop) :
  (forall c, p c = true <-> P c) ->
  forall s, forallb_s p s = true <-> AllOf P s.
Proof.
  intros H; induction s as [|c s IH]; simpl.
  - tauto.
  - rewrite andb_true_iff, H, IH. tauto.
Qed.

Lemma between_iff (lo hi : Z) (c : ascii) :
  between lo hi c = true <-> (lo <= byteZ c <= hi)%Z.
Proof. unfold between. rewrite andb_true_iff, !Z.leb_le. tauto. Qed.

Lemma isUpper_iff c : isUpper c = true <-> UpperLetter c.
Proof. apply between_iff. Qed.

Lemma isAlnum_iff c : isAlnum c = true <-> Alphanumeric c.
Proof.
  unfold isAlnum, Alphanumeric, Digit, UpperLetter, LowerLetter, isDigit, isUpper, isLower.
  rewrite !orb_true_iff, !between_iff. tauto.
Qed.

(** [fiberfx.Valid] decides the identifier text format. *)
Lemma Valid_iff (value : string) :
  fiberfx.Valid value = true <-> BrandedSyntax value.
Proof.
  unfold fiberfx.Valid, BrandedSyntax, Upper3.
  rewrite !andb_true_iff, Nat.eqb_eq.
  rewrite (forallb_s_AllOf _ _ isUpper_iff), (forallb_s_AllOf _ _ isAlnum_iff).
  unfold fiberfx.BrandedLen, fiberfx.NamespaceLen. split.
  - intros [[Hlen Hns] Hpay].
    exists (take 3 value), (drop 3 value).
    rewrite take_drop, length_take, length_drop by lia.
    repeat split; auto; lia.
  - intros (ns & payload & -> & [Hl Hns] & Hlp & Hpay).
    rewrite length_append, <- Hl, take_app, drop_app. repeat split; auto; lia.
Qed.

Arguments strconv.Itoa : simpl never.
Arguments strconv.Quote : simpl never.

(** Evaluates [fmt.Sprintf] on a literal format. *)
Ltac sprintf :=
  cbv [fmt.Sprintf]; cbn; rewrite ?append_nil_r; reflexivity.

(** ** The messages of [ValidateValue] *)
Section ValidateValueMessages.
Context {U : Unicode}.

Lemma Sprintf_length_message (a b : Z) :
  fmt.Sprintf "branded ID must be %d characters, got %d" [fmt.AInt a; fmt.AInt b]
  = Ok ("branded ID must be " ++ strconv.Itoa a ++ " characters, got " ++ strconv.Itoa b).
Proof. sprintf. Qed.

Lemma Sprintf_format_message (value : string) :
  fmt.Sprintf "branded ID %q has invalid format" [fmt.AString value]
  = Ok ("branded ID " ++ strconv.Quote value ++ " has invalid format").
Proof. sprintf. Qed.

Lemma Sprintf_namespace_message (expected ns : string) :
  fmt.Sprintf "expected namespace %q, got %q" [fmt.ANamespace expected; fmt.ANamespace ns]
  = Ok ("expected namespace " ++ strconv.Quote expected ++ ", got " ++ strconv.Quote ns).
Proof. sprintf. Qed.

End ValidateValueMessages.

(** C1. [ValidateValue(value, expected)] always returns, and it returns the
    nil error if and only if [value] is exactly 14 characters long,
    satisfies the identifier syntax (3 upper-case letters followed by 11
    alphanumerics), and either [expected] is the empty namespace or the
    first 3 characters of [value] are [expected]; in particular, with an
    empty [expected], a well-formed value is accepted even when its
    namespace is not registered, whatever the registry. *)
Theorem ValidateValue_nil_iff (U : Unicode) (R : fiberfx.Registry)
    (v : validator.Validator) (value expected : string) :
  (exists e, validator.ValidateValue v value expected = Ok e) /\
  (validator.ValidateValue v value expected = Ok None <->
     String.length value = 14%nat /\ BrandedSyntax value /\
     (expected = "" \/ take 3 value = expected)) /\
  (BrandedSyntax value ->
     fiberfx.IsValidNamespace (take 3 value) = false ->
     validator.ValidateValue v value "" = Ok None).
Proof.
  unfold validator.ValidateValue, fiberfx.BrandedLen, fiberfx.NamespaceLen.
  rewrite Sprintf_length_message, Sprintf_format_message, Sprintf_namespace_message.
  cbn [bind].
  destruct (Nat.eqb_spec (String.length value) 14) as [Hlen|Hlen]; cbn [negb].
  2:{ split; [eauto|split].
      - split; [discriminate | tauto].
      - intros (ns & p & -> & [Hn _] & Hp & _) _. rewrite length_append in Hlen. lia. }
  destruct (fiberfx.Valid value) eqn:Hv; cbn [negb].
  2:{ assert (~ BrandedSyntax value) by (rewrite <- Valid_iff; congruence).
      split; [eauto|split]; [|tauto].
      split; [discriminate | tauto]. }
  apply Valid_iff in Hv.
  split; [|split].
  - destruct (String.eqb_spec expected ""); cbn [negb]; [eauto|].
    destruct (String.eqb_spec (take 3 value) expected); cbn [negb]; eauto.
  - destruct (String.eqb_spec expected ""); cbn [negb]; [tauto|].
    destruct (String.eqb_spec (take 3 value) expected); cbn [negb]; [tauto|].
    split; [discriminate | tauto].
  - reflexivity.
Qed.

(** ** Loops that append *)

Lemma bind_Ok {A B : Type} (a : A) (f : A -> result B) : bind (Ok a) f = f a.
Proof. reflexivity. Qed.

Lemma bind_assoc {A B C : Type} (m : result A) (f : A -> result B) (g : B -> result C) :
  bind (bind m f) g = bind m (fun a => bind (f a) g).
Proof. now destruct m. Qed.

(** A loop whose body appends what [f] returns accumulates the
    concatenation of the results, in order. *)
Lemma forEach_append {A E : Type} (f : A -> result (list E)) (l : list A)
    (acc : list E) :
  forEach l acc (fun errs a => x <- f a ;; Ok (errs ++ x)%list)
  = xs <- mapM f l ;; Ok (acc ++ concat xs)%list.
Proof.
  revert acc; induction l as [|a l IH]; intros acc; simpl.
  - now rewrite app_nil_r.
  - destruct (f a) as [x| |]; simpl; auto.
    rewrite IH. destruct (mapM f l); simpl; auto.
    now rewrite app_assoc.
Qed.

Lemma mapM_Ok_In {A B : Type} (f : A -> result B) (l : list A) (bs : list B) :
  mapM f l = Ok bs ->
  forall a, In a l -> exists b, f a = Ok b /\ In b bs.
Proof.
  revert bs; induction l as [|x l IH]; intros bs H a Ha; [easy|].
  simpl in H. destruct (f x) as [b| |] eqn:Hx; try discriminate.
  destruct (mapM f l) as [bs'| |]; try discriminate.
  simpl in H. injection H as <-.
  destruct Ha as [->|Ha].
  - exists b; simpl; auto.
  - destruct (IH _ eq_refl a Ha) as (b' & ? & ?). exists b'; simpl; auto.
Qed.

Lemma mapM_total {A B : Type} (f : A -> result B) (l : list A) :
  Forall (fun a => exists b, f a = Ok b) l -> exists bs, mapM f l = Ok bs.
Proof.
  induction 1 as [|a l [b Hb] _ [bs Hbs]]; simpl; [eauto|].
  rewrite Hb, Hbs. simpl. eauto.
Qed.

Lemma in_concat_of {E : Type} (e : E) (x : list E) (xs : list (list E)) :
  In x xs -> In e x -> In e (concat xs).
Proof. intros; apply in_concat; eauto. Qed.

(** ** The schema validator *)
Section ValidatorFacts.
Context {U : Unicode} {R : fiberfx.Registry}.

Lemma Sprintf_unknown_namespace (ns : string) (all : list string) :
  fmt.Sprintf "unknown namespace %q; valid: %v" [fmt.ANamespace ns; fmt.ANamespaces all]
  = Ok ("unknown namespace " ++ strconv.Quote ns ++ "; valid: " ++ fmt.bracket all).
Proof. sprintf. Qed.

Lemma Sprintf_naming (lower : string) :
  fmt.Sprintf "recommended naming is 'id' or '%s_id'" [fmt.AString lower]
  = Ok ("recommended naming is 'id' or '" ++ lower ++ "_id'").
Proof. sprintf. Qed.

Lemma Sprintf_not_branded (col ref : string) :
  fmt.Sprintf "column %q is branded_id but reference %q is not"
    [fmt.AString col; fmt.AString ref]
  = Ok ("column " ++ strconv.Quote col ++ " is branded_id but reference "
        ++ strconv.Quote ref ++ " is not").
Proof. sprintf. Qed.

Lemma Sprintf_mismatch (col ns ref refNs : string) :
  fmt.Sprintf "namespace mismatch %q (%s) -> %q (%s)"
    [fmt.AString col; fmt.ANamespace ns; fmt.AString ref; fmt.ANamespace refNs]
  = Ok ("namespace mismatch " ++ strconv.Quote col ++ " (" ++ ns ++ ") -> "
        ++ strconv.Quote ref ++ " (" ++ refNs ++ ")").
Proof. sprintf. Qed.

(** A column that has a type is validated without a panic. *)
Lemma ValidateColumn_total (v : validator.Validator) (table : string)
    (col : schema.Column) :
  schema.Column_Type col <> None ->
  exists errs, validator.ValidateColumn v table col = Ok errs.
Proof.
  unfold validator.ValidateColumn. intros H.
  destruct (schema.Column_Type col) as [ct|]; [|congruence]. cbn [deref bind].
  destruct (branded.assertBranded _); [|eauto].
  rewrite Sprintf_unknown_namespace, Sprintf_naming. cbn [bind].
  destruct (_ && _); cbn [bind]; destruct (_ && _); cbn [bind]; eauto.
Qed.

(** The body of the foreign-key loop only appends to the errors. *)
Lemma checkPair_acc (symbol : string) (col ref : schema.Column)
    (errs : list validator.ValidationError) :
  validator.checkPair symbol col ref errs
  = x <- validator.checkPair symbol col ref [] ;; Ok (errs ++ x)%list.
Proof.
  unfold validator.checkPair.
  destruct (schema.Column_Type col) as [ct|]; cbn [deref bind]; [|reflexivity].
  destruct (branded.assertBranded _) as [bt|]; cbn [bind]; [|now rewrite app_nil_r].
  destruct (schema.Column_Type ref) as [rct|]; cbn [deref bind]; [|reflexivity].
  destruct (branded.assertBranded _) as [rbt|].
  - rewrite Sprintf_mismatch. cbn [bind].
    destruct (negb _); cbn [bind]; [reflexivity | now rewrite app_nil_r].
  - rewrite Sprintf_not_branded. reflexivity.
Qed.

(** The loop of [ValidateForeignKey] from index [k] on visits the pairs
    of columns of the same index, in order. *)
Lemma forEach_indexed_pairs (symbol : string) (refs : list schema.Column) :
  forall (cols : list schema.Column) (k : nat)
         (acc : list validator.ValidationError),
    forEach (combine (seq k (List.length cols)) cols) acc
      (fun errs '(i, col) =>
         if (List.length refs <=? i)%nat then Ok errs
         else match nth_error refs i with
              | None => Panic
              | Some refCol => validator.checkPair symbol col refCol errs
              end)
    = xs <- mapM (fun '(col, ref) => validator.checkPair symbol col ref [])
                 (combine cols (skipn k refs)) ;;
      Ok (acc ++ concat xs)%list.
Proof.
  induction cols as [|col cols IH]; intros k acc; simpl.
  - now rewrite app_nil_r.
  - destruct (Nat.leb_spec (List.length refs) k) as [Hle|Hlt].
    + cbn [bind]. rewrite IH.
      rewrite (skipn_all2 refs) by lia. rewrite (skipn_all2 refs) by lia.
      now rewrite combine_nil.
    + destruct (nth_error refs k) as [r|] eqn:Hk.
      2:{ apply nth_error_None in Hk. lia. }
      assert (Hs : skipn k refs = r :: skipn (S k) refs).
      { clear - Hk. revert refs Hk. induction k; intros [|x refs] Hk; simpl in *;
          try discriminate; [congruence | now apply IHk]. }
      rewrite Hs. cbn [combine mapM].
      rewrite checkPair_acc.
      destruct (validator.checkPair symbol col r []) as [x| |]; cbn [bind]; auto.
      rewrite IH. destruct (mapM _ _); cbn [bind]; auto.
      cbn [concat]. now rewrite app_assoc.
Qed.

End ValidatorFacts.

Section ValidatorClaims.
Context {U : Unicode} {R : fiberfx.Registry}.

Lemma assertBranded_Branded (ct : schema.ColumnType) (ns : string) :
  schema.ColumnType_Type ct = Some (schema.BrandedIDType ns) ->
  branded.assertBranded (schema.ColumnType_Type ct) = Some {| branded.Namespace := ns |}.
Proof. now intros ->. Qed.

Lemma assertBranded_NotBranded (ct : schema.ColumnType) :
  (forall ns, schema.ColumnType_Type ct <> Some (schema.BrandedIDType ns)) ->
  branded.assertBranded (schema.ColumnType_Type ct) = None.
Proof.
  intros H. destruct (schema.ColumnType_Type ct) as [[]|]; try reflexivity.
  now destruct (H Namespace).
Qed.

Lemma checkPair_not_branded (symbol : string) (col ref : schema.Column) :
  NotBranded col -> validator.checkPair symbol col ref [] = Ok [].
Proof.
  intros (ct & Hc & Hn). unfold validator.checkPair.
  rewrite Hc. cbn [deref bind]. now rewrite (assertBranded_NotBranded _ Hn).
Qed.

Lemma checkPair_reference_not_branded (symbol : string) (col ref : schema.Column)
    (ns : string) :
  Branded col ns -> NotBranded ref ->
  validator.checkPair symbol col ref []
  = Ok [{| validator.Table := ""; validator.Column := "";
           validator.FK := symbol;
           validator.Message :=
             "column " ++ strconv.Quote (schema.Column_Name col)
             ++ " is branded_id but reference "
             ++ strconv.Quote (schema.Column_Name ref) ++ " is not" |}].
Proof.
  intros (ct & Hc & Hb) (rct & Hr & Hn). unfold validator.checkPair.
  rewrite Hc, Hr. cbn [deref bind].
  rewrite (assertBranded_Branded _ _ Hb), (assertBranded_NotBranded _ Hn).
  now rewrite Sprintf_not_branded.
Qed.

Lemma checkPair_branded (symbol : string) (col ref : schema.Column)
    (ns refNs : string) :
  Branded col ns -> Branded ref refNs ->
  validator.checkPair symbol col ref []
  = if String.eqb ns refNs then Ok []
    else Ok [{| validator.Table := ""; validator.Column := "";
                validator.FK := symbol;
                validator.Message :=
                  "namespace mismatch " ++ strconv.Quote (schema.Column_Name col)
                  ++ " (" ++ ns ++ ") -> "
                  ++ strconv.Quote (schema.Column_Name ref)
                  ++ " (" ++ refNs ++ ")" |}].
Proof.
  intros (ct & Hc & Hb) (rct & Hr & Hrb). unfold validator.checkPair.
  rewrite Hc, Hr. cbn [deref bind].
  rewrite (assertBranded_Branded _ _ Hb), (assertBranded_Branded _ _ Hrb).
  cbn [branded.Namespace]. rewrite Sprintf_mismatch.
  now destruct (String.eqb ns refNs).
Qed.

Lemma checkPair_symbol (symbol : string) (col ref : schema.Column)
    (es : list validator.ValidationError) :
  validator.checkPair symbol col ref [] = Ok es ->
  Forall (fun e => validator.FK e = symbol) es.
Proof.
  unfold validator.checkPair.
  destruct (schema.Column_Type col) as [ct|]; cbn [deref bind]; [|discriminate].
  destruct (branded.assertBranded _) as [bt|]; [|intros [= <-]; constructor].
  destruct (schema.Column_Type ref) as [rct|]; cbn [deref bind]; [|discriminate].
  destruct (branded.assertBranded _) as [rbt|].
  - rewrite Sprintf_mismatch. destruct (negb _); cbn [bind app];
      intros [= <-]; repeat constructor.
  - rewrite Sprintf_not_branded. cbn [bind app]. intros [= <-]; repeat constructor.
Qed.

Lemma checkPair_total (symbol : string) (col ref : schema.Column) :
  Typed col -> Typed ref ->
  exists es, validator.checkPair symbol col ref [] = Ok es.
Proof.
  unfold Typed, validator.checkPair. intros Hc Hr.
  destruct (schema.Column_Type col) as [ct|]; [|congruence].
  destruct (schema.Column_Type ref) as [rct|]; [|congruence]. cbn [deref bind].
  destruct (branded.assertBranded _) as [bt|]; [|eauto].
  destruct (branded.assertBranded _) as [rbt|].
  - rewrite Sprintf_mismatch. destruct (negb _); cbn [bind]; eauto.
  - rewrite Sprintf_not_branded. cbn [bind]. eauto.
Qed.

Lemma ValidateForeignKey_mapM (v : validator.Validator) (fk : schema.ForeignKey) :
  validator.ValidateForeignKey v fk
  = fmap (@concat _)
      (mapM (fun '(col, ref) =>
               validator.checkPair (schema.ForeignKey_Symbol fk) col ref [])
            (combine (schema.ForeignKey_Columns fk) (schema.ForeignKey_RefColumns fk))).
Proof.
  unfold validator.ValidateForeignKey, indexed.
  rewrite (forEach_indexed_pairs _ _ _ 0 []). reflexivity.
Qed.

Lemma ValidateForeignKey_total (v : validator.Validator) (fk : schema.ForeignKey) :
  TypedForeignKey fk -> exists errs, validator.ValidateForeignKey v fk = Ok errs.
Proof.
  intros [Hc Hr]. rewrite ValidateForeignKey_mapM.
  destruct (mapM_total
              (fun '(col, ref) =>
                 validator.checkPair (schema.ForeignKey_Symbol fk) col ref [])
              (combine (schema.ForeignKey_Columns fk) (schema.ForeignKey_RefColumns fk)))
    as [xs Hxs].
  - apply Forall_forall. intros [c r] Hin.
    apply checkPair_total.
    + rewrite Forall_forall in Hc. apply Hc. eapply in_combine_l; eauto.
    + rewrite Forall_forall in Hr. apply Hr. eapply in_combine_r; eauto.
  - rewrite Hxs. cbn. eauto.
Qed.

End ValidatorClaims.

(** C2. [ValidateForeignKey] emits errors only for the pairs of columns
    (referencing, referenced) of the same index whose referencing column is
    branded: its result is the concatenation, pair by pair, of what the loop
    body contributes; a pair whose referencing column is not branded
    contributes no error; a branded column referencing a column that is not
    branded contributes exactly one error; two branded columns of different
    namespaces contribute exactly one error, of the same namespace none;
    every error emitted carries the symbol of the foreign key; and on a
    foreign key whose columns all have a type the validation returns. *)
Theorem ValidateForeignKey_pairs (U : Unicode) (v : validator.Validator)
    (fk : schema.ForeignKey) :
  let symbol := schema.ForeignKey_Symbol fk in
  let contribution := fun col ref => validator.checkPair symbol col ref [] in
  validator.ValidateForeignKey v fk
  = fmap (@concat _)
      (mapM (fun '(col, ref) => contribution col ref)
            (combine (schema.ForeignKey_Columns fk) (schema.ForeignKey_RefColumns fk)))
  /\ (forall col ref, NotBranded col -> contribution col ref = Ok [])
  /\ (forall col ref ns, Branded col ns -> NotBranded ref ->
        contribution col ref
        = Ok [{| validator.Table := ""; validator.Column := "";
                 validator.FK := symbol;
                 validator.Message :=
                   "column " ++ strconv.Quote (schema.Column_Name col)
                   ++ " is branded_id but reference "
                   ++ strconv.Quote (schema.Column_Name ref) ++ " is not" |}])
  /\ (forall col ref ns refNs, Branded col ns -> Branded ref refNs -> ns <> refNs ->
        contribution col ref
        = Ok [{| validator.Table := ""; validator.Column := "";
                 validator.FK := symbol;
                 validator.Message :=
                   "namespace mismatch " ++ strconv.Quote (schema.Column_Name col)
                   ++ " (" ++ ns ++ ") -> "
                   ++ strconv.Quote (schema.Column_Name ref)
                   ++ " (" ++ refNs ++ ")" |}])
  /\ (forall col ref ns, Branded col ns -> Branded ref ns ->
        contribution col ref = Ok [])
  /\ (forall errs, validator.ValidateForeignKey v fk = Ok errs ->
        Forall (fun e => validator.FK e = symbol) errs)
  /\ (TypedForeignKey fk ->
        exists errs, validator.ValidateForeignKey v fk = Ok errs).
Proof.
  intros symbol contribution. subst contribution.
  split; [apply ValidateForeignKey_mapM|].
  split; [intros; now apply checkPair_not_branded|].
  split; [intros; now eapply checkPair_reference_not_branded; eauto|].
  split.
  { intros col ref ns refNs Hc Hr Hne.
    rewrite (checkPair_branded _ _ _ _ _ Hc Hr).
    now destruct (String.eqb_spec ns refNs). }
  split.
  { intros col ref ns Hc Hr.
    rewrite (checkPair_branded _ _ _ _ _ Hc Hr).
    now rewrite String.eqb_refl. }
  split; [|apply ValidateForeignKey_total].
  intros errs. rewrite ValidateForeignKey_mapM. unfold fmap.
  destruct (mapM _ _) as [xs| |] eqn:Hm; cbn [bind]; try discriminate.
  intros [= <-]. apply Forall_forall. intros e He.
  apply in_concat in He. destruct He as (x & Hx & He).
  revert xs Hm x Hx e He.
  generalize (combine (schema.ForeignKey_Columns fk) (schema.ForeignKey_RefColumns fk)).
  induction l as [|[c r] l IH]; intros xs Hm x Hx e He; simpl in Hm.
  - injection Hm as <-. destruct Hx.
  - destruct (validator.checkPair _ c r []) as [y| |] eqn:Hy; try discriminate.
    destruct (mapM _ l) as [ys| |]; try discriminate. cbn [bind] in Hm.
    injection Hm as <-. destruct Hx as [->|Hx].
    + apply checkPair_symbol in Hy. rewrite Forall_forall in Hy. now apply Hy.
    + eapply IH; eauto.
Qed.

(** C3. For the validator that [NewValidator()] builds without options
    (strict mode on, naming check off), [ValidateColumn(table, col)]
    returns exactly one error, tagged with the table name and the column
    name and whose message contains the words unknown namespace, when the
    type of [col] is a branded type whose namespace is not registered; it
    returns no error when the namespace is registered, and no error for a
    column whose type is not branded. *)
Theorem ValidateColumn_default (U : Unicode) (R : fiberfx.Registry)
    (table : string) (col : schema.Column) :
  let v := validator.NewValidator [] in
  let message := fun ns =>
    "unknown namespace " ++ strconv.Quote ns ++ "; valid: "
    ++ fmt.bracket fiberfx.AllNamespaces in
  (validator.strict v = true /\ validator.checkNaming v = false)
  /\ (forall ns, Branded col ns -> fiberfx.IsValidNamespace ns = false ->
        validator.ValidateColumn v table col
        = Ok [{| validator.Table := table;
                 validator.Column := schema.Column_Name col;
                 validator.FK := "";
                 validator.Message := message ns |}]
        /\ strings.Contains (message ns) "unknown namespace")
  /\ (forall ns, Branded col ns -> fiberfx.IsValidNamespace ns = true ->
        validator.ValidateColumn v table col = Ok [])
  /\ (NotBranded col -> validator.ValidateColumn v table col = Ok []).
Proof.
  intros v message. subst v message. split; [split; reflexivity|].
  unfold validator.ValidateColumn. cbn [validator.NewValidator fold_left
    validator.strict validator.checkNaming andb].
  split; [|split].
  - intros ns (ct & Hc & Hb) Hv. rewrite Hc. cbn [deref bind].
    rewrite (assertBranded_Branded _ _ Hb). cbn [branded.Namespace].
    rewrite Hv, Sprintf_unknown_namespace. cbn [negb bind app]. split; [reflexivity|].
    exists "", (" " ++ strconv.Quote ns ++ "; valid: " ++ fmt.bracket fiberfx.AllNamespaces).
    reflexivity.
  - intros ns (ct & Hc & Hb) Hv. rewrite Hc. cbn [deref bind].
    rewrite (assertBranded_Branded _ _ Hb). cbn [branded.Namespace].
    now rewrite Hv.
  - intros (ct & Hc & Hn). rewrite Hc. cbn [deref bind].
    now rewrite (assertBranded_NotBranded _ Hn).
Qed.

(** C6. Schema-level validation never short-circuits: [ValidateSchema(s)]
    is the concatenation, over the tables of [s] in order, of
    [ValidateTable], and [ValidateTable(t)] is the concatenation of the
    errors of every column of [t] in order followed by the errors of every
    foreign key of [t] in order.  On a schema whose columns all have a type
    the validation runs to completion, and every error of every column and
    of every foreign key of every table is in the list returned. *)
Theorem ValidateSchema_accumulates (U : Unicode) (R : fiberfx.Registry)
    (v : validator.Validator) (s : schema.Schema) :
  validator.ValidateSchema v s
  = fmap (@concat _) (mapM (validator.ValidateTable v) (schema.Schema_Tables s))
  /\ (forall t,
        validator.ValidateTable v t
        = (cs <- mapM (validator.ValidateColumn v (schema.Table_Name t))
                      (schema.Table_Columns t) ;;
           fs <- mapM (validator.ValidateForeignKey v) (schema.Table_ForeignKeys t) ;;
           Ok (concat cs ++ concat fs)%list))
  /\ (TypedSchema s -> exists errs, validator.ValidateSchema v s = Ok errs)
  /\ (forall errs, validator.ValidateSchema v s = Ok errs ->
      forall t, In t (schema.Schema_Tables s) ->
        (forall col es e, In col (schema.Table_Columns t) ->
           validator.ValidateColumn v (schema.Table_Name t) col = Ok es ->
           In e es -> In e errs)
        /\ (forall fk es e, In fk (schema.Table_ForeignKeys t) ->
              validator.ValidateForeignKey v fk = Ok es ->
              In e es -> In e errs)).
Proof.
  assert (HT : forall t,
    validator.ValidateTable v t
    = (cs <- mapM (validator.ValidateColumn v (schema.Table_Name t))
                  (schema.Table_Columns t) ;;
       fs <- mapM (validator.ValidateForeignKey v) (schema.Table_ForeignKeys t) ;;
       Ok (concat cs ++ concat fs)%list)).
  { intros t. unfold validator.ValidateTable.
    rewrite forEach_append. rewrite bind_assoc.
    destruct (mapM _ (schema.Table_Columns t)) as [cs| |]; cbn [bind]; auto.
    now rewrite forEach_append. }
  assert (HS : validator.ValidateSchema v s
    = fmap (@concat _) (mapM (validator.ValidateTable v) (schema.Schema_Tables s))).
  { unfold validator.ValidateSchema. now rewrite forEach_append. }
  split; [exact HS|]. split; [exact HT|]. split.
  - intros Hs. rewrite HS.
    destruct (mapM_total (validator.ValidateTable v) (schema.Schema_Tables s))
      as [ts Hts].
    + eapply Forall_impl; [|exact Hs]. intros t [Hc Hf]. rewrite HT.
      destruct (mapM_total (validator.ValidateColumn v (schema.Table_Name t))
                  (schema.Table_Columns t)) as [cs Hcs].
      { eapply Forall_impl; [|exact Hc]. intros c. apply ValidateColumn_total. }
      destruct (mapM_total (validator.ValidateForeignKey v)
                  (schema.Table_ForeignKeys t)) as [fs Hfs].
      { eapply Forall_impl; [|exact Hf]. intros fk. apply ValidateForeignKey_total. }
      rewrite Hcs, Hfs. cbn [bind]. eauto.
    + rewrite Hts. cbn. eauto.
  - intros errs Herrs t Ht. rewrite HS in Herrs. unfold fmap in Herrs.
    destruct (mapM _ (schema.Schema_Tables s)) as [ts| |] eqn:Hts;
      cbn [bind] in Herrs; try discriminate.
    injection Herrs as <-.
    destruct (mapM_Ok_In _ _ _ Hts t Ht) as (te & Hte & Hin).
    rewrite HT in Hte.
    destruct (mapM _ (schema.Table_Columns t)) as [cs| |] eqn:Hcs;
      cbn [bind] in Hte; try discriminate.
    destruct (mapM _ (schema.Table_ForeignKeys t)) as [fs| |] eqn:Hfs;
      cbn [bind] in Hte; try discriminate.
    injection Hte as <-.
    split.
    + intros col es e Hcol Hes He.
      destruct (mapM_Ok_In _ _ _ Hcs col Hcol) as (es' & Hes' & Hin').
      rewrite Hes in Hes'. injection Hes' as <-.
      eapply in_concat_of; [exact Hin|]. apply in_or_app. left.
      eapply in_concat_of; eauto.
    + intros fk es e Hfk Hes He.
      destruct (mapM_Ok_In _ _ _ Hfs fk Hfk) as (es' & Hes' & Hin').
      rewrite Hes in Hes'. injection Hes' as <-.
      eapply in_concat_of; [exact Hin|]. apply in_or_app. right.
      eapply in_concat_of; eauto.
Qed.


(** ** The comment marker *)

Lemma append_inj_length (a b a' b' : string) :
  a ++ b = a' ++ b' -> String.length a = String.length a' -> a = a' /\ b = b'.
Proof.
  revert a'; induction a as [|c a IH]; intros [|c' a'] H Hl; simpl in *;
    try discriminate; auto.
  injection H as -> H. injection Hl as Hl.
  destruct (IH _ H Hl) as [-> ->]. auto.
Qed.

Lemma litAt_iff (l s rest : string) :
  regexp.litAt l s = Some rest <-> s = l ++ rest.
Proof.
  revert s; induction l as [|a l IH]; intros s; simpl.
  - split; [now intros [= ->] | now intros ->].
  - destruct s as [|b s]; [split; discriminate|].
    destruct (Ascii.eqb_spec a b) as [->|Hne].
    + rewrite IH. split; [now intros -> | now intros [= ->]].
    + split; [discriminate | intros [= -> _]; contradiction].
Qed.

(** Three repetitions of a character class match three characters of the
    class. *)
Lemma matchAt_Rep3 (p : ascii -> bool) (s : string) :
  regexp.matchAt (regexp.Rep 3 (regexp.Class p)) s
  = match s with
    | String a (String b (String c rest)) =>
      if p a && p b && p c
      then Some (String a (String b (String c "")), [], rest)
      else None
    | _ => None
    end.
Proof.
  destruct s as [|a [|b [|c rest]]]; simpl; try reflexivity.
  - now destruct (p a).
  - destruct (p a); [|reflexivity]. now destruct (p b).
  - destruct (p a); [|reflexivity]. destruct (p b); [|reflexivity].
    now destruct (p c).
Qed.

Lemma Upper3_chars (ns : string) :
  Upper3 ns <->
  exists a b c, ns = String a (String b (String c ""))
                /\ isUpper a && isUpper b && isUpper c = true.
Proof.
  unfold Upper3. split.
  - intros [Hl Ha]. destruct ns as [|a [|b [|c [|d ns]]]]; try discriminate.
    exists a, b, c. split; [reflexivity|].
    simpl in Ha. rewrite !andb_true_iff, !isUpper_iff. tauto.
  - intros (a & b & c & -> & H). rewrite !andb_true_iff, !isUpper_iff in H.
    simpl. tauto.
Qed.

Lemma matchAt_Cat (r1 r2 : regexp.re) (s : string) :
  regexp.matchAt (regexp.Cat r1 r2) s
  = match regexp.matchAt r1 s with
    | Some (m1, g1, rest1) =>
      match regexp.matchAt r2 rest1 with
      | Some (m2, g2, rest2) => Some (m1 ++ m2, (g1 ++ g2)%list, rest2)
      | None => None
      end
    | None => None
    end.
Proof. reflexivity. Qed.

Lemma matchAt_Lit (l s : string) :
  regexp.matchAt (regexp.Lit l) s
  = match regexp.litAt l s with
    | Some rest => Some (l, [], rest)
    | None => None
    end.
Proof. reflexivity. Qed.

Lemma matchAt_Group (r : regexp.re) (s : string) :
  regexp.matchAt (regexp.Group r) s
  = match regexp.matchAt r s with
    | Some (m, g, rest) => Some (m, (m :: g)%list, rest)
    | None => None
    end.
Proof. reflexivity. Qed.

(** A match of [reComment] at the start of a string is a marker there. *)
Lemma matchAt_reComment (s : string) :
  (exists ns rest,
     Upper3 ns /\ s = branded.CommentMarker ++ ns ++ rest /\
     regexp.matchAt branded.reComment s
     = Some (branded.CommentMarker ++ ns, [ns], rest))
  \/ (regexp.matchAt branded.reComment s = None /\
      forall ns rest, Upper3 ns -> s <> branded.CommentMarker ++ ns ++ rest).
Proof.
  unfold branded.reComment. rewrite matchAt_Cat, matchAt_Lit.
  destruct (regexp.litAt "branded_id:" s) as [s1|] eqn:Hl.
  - apply litAt_iff in Hl. subst s. rewrite matchAt_Group, matchAt_Rep3.
    destruct s1 as [|a [|b [|c rest]]];
      try (right; split; [reflexivity|];
           intros ns rest' Hu H; apply Upper3_chars in Hu;
           destruct Hu as (x & y & z & -> & _); discriminate).
    destruct (isUpper a && isUpper b && isUpper c) eqn:Hu.
    + left. exists (String a (String b (String c ""))), rest.
      split; [apply Upper3_chars; eauto|]. split; reflexivity.
    + right. split; [reflexivity|].
      intros ns rest' Hu' H. apply Upper3_chars in Hu'.
      destruct Hu' as (x & y & z & -> & Hxyz).
      injection H as -> -> -> _. congruence.
  - right. split; [reflexivity|]. intros ns rest _ H.
    assert (regexp.litAt "branded_id:" s = Some (ns ++ rest)) by (now apply litAt_iff).
    congruence.
Qed.

Lemma FindStringSubmatch_eq (r : regexp.re) (s : string) :
  regexp.FindStringSubmatch r s
  = match regexp.matchAt r s with
    | Some (m, g, _) => m :: g
    | None =>
      match s with
      | "" => []
      | String _ s' => regexp.FindStringSubmatch r s'
      end
    end.
Proof. now destruct s. Qed.

Lemma MarkerAt_nil_prefix (s ns post : string) :
  MarkerAt s "" ns post <-> Upper3 ns /\ s = branded.CommentMarker ++ ns ++ post.
Proof. unfold MarkerAt. simpl. tauto. Qed.

Lemma MarkerAt_cons (c : ascii) (s pre ns post : string) :
  MarkerAt (String c s) (String c pre) ns post <-> MarkerAt s pre ns post.
Proof.
  unfold MarkerAt. simpl. split; intros [H Hu]; split; auto; congruence.
Qed.

Lemma MarkerAt_cons_inv (c : ascii) (s pre ns post : string) :
  MarkerAt (String c s) pre ns post ->
  pre = "" \/ exists pre', pre = String c pre' /\ MarkerAt s pre' ns post.
Proof.
  destruct pre as [|c' pre]; [auto|]. intros [H Hu]. right.
  simpl in H. injection H as <- H. exists pre. split; [reflexivity|]. now split.
Qed.

(** The leftmost match of [reComment] is the first marker. *)
Lemma FindStringSubmatch_reComment (s : string) :
  (regexp.FindStringSubmatch branded.reComment s = [] /\ ~ HasMarker s)
  \/ (exists pre ns post,
        MarkerAt s pre ns post /\
        (forall pre' ns' post',
           MarkerAt s pre' ns' post' -> String.length pre <= String.length pre') /\
        regexp.FindStringSubmatch branded.reComment s
        = [branded.CommentMarker ++ ns; ns]).
Proof.
  assert (Hhere : forall s ns rest,
            Upper3 ns -> s = branded.CommentMarker ++ ns ++ rest ->
            regexp.matchAt branded.reComment s
            = Some (branded.CommentMarker ++ ns, [ns], rest) ->
            exists pre ns post,
              MarkerAt s pre ns post /\
              (forall pre' ns' post',
                 MarkerAt s pre' ns' post' ->
                 String.length pre <= String.length pre') /\
              regexp.FindStringSubmatch branded.reComment s
              = [branded.CommentMarker ++ ns; ns]).
  { intros s0 ns rest Hu Hs Hm. exists "", ns, rest.
    split; [now apply MarkerAt_nil_prefix|].
    split; [intros; simpl; lia|].
    now rewrite FindStringSubmatch_eq, Hm. }
  induction s as [|c s IH].
  - destruct (matchAt_reComment "") as [(ns & rest & Hu & Hs & Hm)|[Hm Hnone]].
    + right. eapply Hhere; eauto.
    + left. split; [now rewrite FindStringSubmatch_eq, Hm|].
      intros (pre & ns & post & H & Hu). destruct pre; discriminate.
  - destruct (matchAt_reComment (String c s))
      as [(ns & rest & Hu & Hs & Hm)|[Hm Hnone]].
    + right. eapply Hhere; eauto.
    + rewrite FindStringSubmatch_eq, Hm.
      destruct IH as [[Hnil Hno]|(pre & ns & post & Hat & Hmin & Hfind)].
      * left. split; [exact Hnil|].
        intros (pre & ns & post & H).
        destruct (MarkerAt_cons_inv _ _ _ _ _ H) as [->|(pre' & -> & H')].
        -- apply MarkerAt_nil_prefix in H. destruct H as [Hu Hs].
           exact (Hnone _ _ Hu Hs).
        -- apply Hno. now exists pre', ns, post.
      * right. exists (String c pre), ns, post.
        split; [now apply MarkerAt_cons|]. split; [|exact Hfind].
        intros pre' ns' post' H.
        destruct (MarkerAt_cons_inv _ _ _ _ _ H) as [->|(p & -> & H')].
        -- apply MarkerAt_nil_prefix in H. destruct H as [Hu Hs].
           destruct (Hnone _ _ Hu Hs).
        -- simpl. apply Hmin in H'. lia.
Qed.

(** Two first markers of a comment are the same. *)
Lemma FirstMarker_unique (comment ns ns' : string) :
  FirstMarker comment ns -> FirstMarker comment ns' -> ns = ns'.
Proof.
  intros (pre & post & Hat & Hmin) (pre' & post' & Hat' & Hmin').
  assert (Hl : String.length pre = String.length pre').
  { apply Hmin in Hat' as H1. apply Hmin' in Hat as H2. lia. }
  destruct Hat as [H [Hn _]], Hat' as [H' [Hn' _]]. rewrite H in H'.
  apply append_inj_length in H'; [|exact Hl]. destruct H' as [_ H'].
  apply append_inj_length in H'; [|reflexivity]. destruct H' as [_ H'].
  apply append_inj_length in H'; [|congruence]. tauto.
Qed.

Lemma ParseComment_cases (comment : string) :
  (branded.ParseComment comment = ("", false) /\ ~ HasMarker comment)
  \/ (exists ns, branded.ParseComment comment = (ns, true) /\ FirstMarker comment ns).
Proof.
  unfold branded.ParseComment.
  destruct (FindStringSubmatch_reComment comment)
    as [[-> Hno]|(pre & ns & post & Hat & Hmin & ->)].
  - left. split; [reflexivity | exact Hno].
  - right. exists ns. split; [reflexivity|]. now exists pre, post.
Qed.

(** [ParseComment] finds the first marker. *)
Lemma ParseComment_first (comment ns : string) :
  branded.ParseComment comment = (ns, true) <-> FirstMarker comment ns.
Proof.
  destruct (ParseComment_cases comment) as [[Hp Hno]|(ns0 & Hp & Hf)].
  - split; [rewrite Hp; discriminate|].
    intros (pre & post & Hat & _). destruct Hno. now exists pre, ns, post.
  - rewrite Hp. split.
    + now intros [= <-].
    + intros Hf'. now rewrite (FirstMarker_unique _ _ _ Hf Hf').
Qed.

Lemma Sprintf_comment (U : Unicode) (ns : string) :
  fmt.Sprintf "%s%s" [fmt.AString branded.CommentMarker; fmt.ANamespace ns]
  = Ok (branded.CommentMarker ++ ns).
Proof. sprintf. Qed.

(** C7. [ParseComment(comment)] returns [(NS, true)] if and only if the
    comment contains the text [branded_id:] immediately followed by 3
    upper-case ASCII letters, [NS] being the 3 letters of the first such
    occurrence, wherever the marker stands in the comment, and returns the
    empty namespace and [false] otherwise; [FormatComment(ns)] returns
    [branded_id:] followed by [ns]; hence parsing the comment formatted for
    a namespace of 3 upper-case letters gives the namespace back. *)
Theorem ParseComment_FormatComment (U : Unicode) :
  (forall comment ns,
     branded.ParseComment comment = (ns, true) <-> FirstMarker comment ns)
  /\ (forall comment,
        (exists ns, branded.ParseComment comment = (ns, true)) <-> HasMarker comment)
  /\ (forall comment,
        branded.ParseComment comment = ("", false) <-> ~ HasMarker comment)
  /\ (forall ns, branded.FormatComment ns = Ok ("branded_id:" ++ ns))
  /\ (forall ns, Upper3 ns ->
        fmap branded.ParseComment (branded.FormatComment ns) = Ok (ns, true)).
Proof.
  assert (H1 := ParseComment_first).
  split; [exact H1|]. split; [|split; [|split]].
  - intros comment.
    destruct (ParseComment_cases comment) as [[Hp Hno]|(ns0 & Hp & Hf)].
    + rewrite Hp. split; [intros [ns H]; discriminate | tauto].
    + split; [|eauto]. intros _. destruct Hf as (pre & post & Hat & _).
      now exists pre, ns0, post.
  - intros comment.
    destruct (ParseComment_cases comment) as [[Hp Hno]|(ns0 & Hp & Hf)].
    + tauto.
    + rewrite Hp. split; [discriminate|]. intros Hno. destruct Hno.
      destruct Hf as (pre & post & Hat & _). now exists pre, ns0, post.
  - intros ns. apply Sprintf_comment.
  - intros ns Hu. unfold branded.FormatComment. rewrite Sprintf_comment.
    cbn [fmap bind]. f_equal. apply H1. exists "", "".
    split; [|intros; simpl; lia].
    apply MarkerAt_nil_prefix. now rewrite append_nil_r.
Qed.


(** ** Formatting *)
Section Formatting.
Context {U : Unicode}.

Lemma byteZ_range (c : ascii) : (0 <= byteZ c < 256)%Z.
Proof.
  unfold byteZ. pose proof (N_ascii_bounded c). lia.
Qed.

Lemma byteOfZ_byteZ (c : ascii) : byteOfZ (byteZ c) = c.
Proof.
  unfold byteOfZ. rewrite Z.mod_small by apply byteZ_range.
  unfold byteZ. rewrite N2Z.id. apply ascii_N_embedding.
Qed.

Lemma percent_byte (c : ascii) : c <> "%"%char <-> byteZ c <> 37%Z.
Proof.
  split; intros H E; apply H.
  - rewrite <- (byteOfZ_byteZ c), E. reflexivity.
  - now subst c.
Qed.

(** Text free of [%] is copied to the output. *)
Lemma doPrintf_plain (pre rest : string) (args : list fmt.arg) :
  NoPercent pre ->
  fmt.doPrintf (pre ++ rest) args
  = out <- fmt.doPrintf rest args ;; Ok (pre ++ out).
Proof.
  induction pre as [|c pre IH]; intros Hp; simpl.
  - now destruct (fmt.doPrintf rest args).
  - destruct Hp as [Hc Hp]. destruct (Ascii.eqb_spec c "%"); [contradiction|].
    cbn [negb]. rewrite (IH Hp). now destruct (fmt.doPrintf rest args).
Qed.

Lemma doPrintf_plain_end (s : string) : NoPercent s -> fmt.doPrintf s [] = Ok s.
Proof.
  intros H. rewrite <- (append_nil_r s) at 1.
  rewrite (doPrintf_plain _ _ _ H). cbn. now rewrite append_nil_r.
Qed.

(** The verb [%s] prints a string argument as it is. *)
Lemma doPrintf_s (a : string) (rest : string) (args : list fmt.arg) :
  fmt.doPrintf ("%s" ++ rest) (fmt.AString a :: args)
  = out <- fmt.doPrintf rest args ;; Ok (a ++ out).
Proof. reflexivity. Qed.

(** A template with two [%s] placeholders, applied to two strings. *)
Lemma Sprintf_two_placeholders (pre mid post a b : string) :
  NoPercent pre -> NoPercent mid -> NoPercent post ->
  fmt.Sprintf (pre ++ "%s" ++ mid ++ "%s" ++ post) [fmt.AString a; fmt.AString b]
  = Ok (pre ++ a ++ mid ++ b ++ post).
Proof.
  intros Hpre Hmid Hpost. unfold fmt.Sprintf.
  rewrite (doPrintf_plain _ _ _ Hpre), doPrintf_s.
  rewrite (doPrintf_plain _ _ _ Hmid), doPrintf_s.
  now rewrite (doPrintf_plain_end _ Hpost).
Qed.

(** [%q] leaves plain characters alone. *)
Lemma quoteLoop_plain (s : string) :
  AllOf PlainChar s ->
  forall fuel, String.length s <= fuel -> strconv.quoteLoop fuel s = s.
Proof.
  induction s as [|c s IH]; intros Hs fuel Hf.
  - now destruct fuel.
  - destruct fuel as [|fuel]; [simpl in Hf; lia|].
    destruct Hs as [(Hr & Hq & Hb) Hs]. cbn [strconv.quoteLoop].
    unfold utf8.RuneSelf, utf8.RuneError.
    destruct (Z.ltb_spec (byteZ c) 128); [|lia].
    destruct (Z.eqb_spec (byteZ c) 65533); [lia|].
    rewrite andb_false_r. cbn [drop].
    rewrite IH by (auto; simpl in Hf; lia).
    unfold strconv.escapedRune, strconv.IsPrint, utf8.EncodeRune.
    destruct (Z.eqb_spec (byteZ c) 34); [contradiction|].
    destruct (Z.eqb_spec (byteZ c) 92); [contradiction|]. cbn [orb].
    destruct (Z.leb_spec (byteZ c) 255); [|lia].
    destruct (Z.leb_spec 32 (byteZ c)); [|lia].
    destruct (Z.leb_spec (byteZ c) 126); [|lia]. cbn [andb].
    destruct (Z.leb_spec 0 (byteZ c)); [|lia].
    destruct (Z.leb_spec (byteZ c) 127); [|lia]. cbn [andb].
    now rewrite byteOfZ_byteZ.
Qed.

Lemma Quote_plain (s : string) :
  AllOf PlainChar s -> strconv.Quote s = strconv.dquote ++ s ++ strconv.dquote.
Proof.
  intros H. unfold strconv.Quote. now rewrite (quoteLoop_plain _ H).
Qed.

Lemma Sprintf_expr (c ns : string) :
  fmt.Sprintf "%s ~ '^%s[0-9A-Za-z]{11}$'" [fmt.AString c; fmt.AString ns]
  = Ok (c ++ " ~ '^" ++ ns ++ "[0-9A-Za-z]{11}$'").
Proof. sprintf. Qed.

Lemma Sprintf_expr_null (c ns : string) :
  fmt.Sprintf "%s IS NULL OR %s ~ '^%s[0-9A-Za-z]{11}$'"
    [fmt.AString c; fmt.AString c; fmt.AString ns]
  = Ok (c ++ " IS NULL OR " ++ c ++ " ~ '^" ++ ns ++ "[0-9A-Za-z]{11}$'").
Proof. sprintf. Qed.

Lemma Sprintf_alter_table (t name expr : string) :
  fmt.Sprintf "ALTER TABLE %q ADD CONSTRAINT %q CHECK (%s);"
    [fmt.AString t; fmt.AString name; fmt.AString expr]
  = Ok ("ALTER TABLE " ++ strconv.Quote t ++ " ADD CONSTRAINT "
        ++ strconv.Quote name ++ " CHECK (" ++ expr ++ ");").
Proof. sprintf. Qed.

Lemma Sprintf_default_name (t c : string) :
  fmt.Sprintf "chk_%s_%s_branded" [fmt.AString t; fmt.AString c]
  = Ok ("chk_" ++ t ++ "_" ++ c ++ "_branded").
Proof. sprintf. Qed.

Lemma Sprintf_format_name (t c : string) :
  fmt.Sprintf "chk_%s_%s_format" [fmt.AString t; fmt.AString c]
  = Ok ("chk_" ++ t ++ "_" ++ c ++ "_format").
Proof. sprintf. Qed.

End Formatting.


(** ** The constraint generator *)
Section GeneratorFacts.
Context {U : Unicode}.

(** What an enabled generator makes of a branded column, given the name
    its format yields. *)
Lemma GenerateForColumn_branded (g : postgres.BrandedConstraintGenerator)
    (t : string) (col : schema.Column) (ct : schema.ColumnType) (ns name : string) :
  postgres.enabled (postgres.config g) = true ->
  schema.Column_Type col = Some ct ->
  schema.ColumnType_Type ct = Some (schema.BrandedIDType ns) ->
  fmt.Sprintf (postgres.constraintFmt (postgres.config g))
    [fmt.AString t; fmt.AString (schema.Column_Name col)] = Ok name ->
  postgres.GenerateForColumn g t col
  = Ok (Some {| schema.Check_Name := name;
                schema.Check_Expr :=
                  checkExpr (schema.Column_Name col) ns (schema.ColumnType_Null ct) |}).
Proof.
  intros He Hc Hb Hn. unfold postgres.GenerateForColumn.
  rewrite He, Hc. cbn [negb deref bind].
  rewrite (assertBranded_Branded _ _ Hb), Hn. cbn [bind branded.Namespace].
  rewrite Sprintf_expr, Sprintf_expr_null. unfold checkExpr, checkPattern.
  now destruct (schema.ColumnType_Null ct).
Qed.

Lemma GenerateForColumn_disabled (g : postgres.BrandedConstraintGenerator)
    (t : string) (col : schema.Column) :
  postgres.enabled (postgres.config g) = false ->
  postgres.GenerateForColumn g t col = Ok None.
Proof. intros He. unfold postgres.GenerateForColumn. now rewrite He. Qed.

Lemma GenerateForColumn_not_branded (g : postgres.BrandedConstraintGenerator)
    (t : string) (col : schema.Column) :
  NotBranded col -> postgres.GenerateForColumn g t col = Ok None.
Proof.
  intros (ct & Hc & Hn). unfold postgres.GenerateForColumn.
  destruct (negb _); [reflexivity|]. rewrite Hc. cbn [deref bind].
  now rewrite (assertBranded_NotBranded _ Hn).
Qed.

End GeneratorFacts.

(** C4, as amended.  The constraint name that a generator built without
    options gives to the CHECK constraint of a branded column [c] of table
    [t] is [chk_t_c_branded]; the helper [CheckConstraintName(t, c)]
    returns another name, [chk_t_c_format]; a format supplied with
    [WithConstraintFormat] replaces the name by the format applied to
    [(t, c)], which for a template with two [%s] placeholders is the
    template with [t] and [c] in their place. *)
Theorem constraint_names (U : Unicode) (t c : string) :
  (forall col ns, Branded col ns -> schema.Column_Name col = c ->
     fmap (option_map schema.Check_Name)
       (postgres.GenerateForColumn (postgres.NewBrandedConstraintGenerator []) t col)
     = Ok (Some (brandedName t c)))
  /\ branded.CheckConstraintName t c = Ok (formatName t c)
  /\ (forall format name col ns, Branded col ns -> schema.Column_Name col = c ->
        fmt.Sprintf format [fmt.AString t; fmt.AString c] = Ok name ->
        fmap (option_map schema.Check_Name)
          (postgres.GenerateForColumn
             (postgres.NewBrandedConstraintGenerator
                [postgres.WithConstraintFormat format]) t col)
        = Ok (Some name))
  /\ (forall pre mid post col ns,
        NoPercent pre -> NoPercent mid -> NoPercent post ->
        Branded col ns -> schema.Column_Name col = c ->
        fmap (option_map schema.Check_Name)
          (postgres.GenerateForColumn
             (postgres.NewBrandedConstraintGenerator
                [postgres.WithConstraintFormat (pre ++ "%s" ++ mid ++ "%s" ++ post)])
             t col)
        = Ok (Some (pre ++ t ++ mid ++ c ++ post))).
Proof.
  assert (Hfmt : forall format name col ns,
            Branded col ns -> schema.Column_Name col = c ->
            fmt.Sprintf format [fmt.AString t; fmt.AString c] = Ok name ->
            fmap (option_map schema.Check_Name)
              (postgres.GenerateForColumn
                 (postgres.NewBrandedConstraintGenerator
                    [postgres.WithConstraintFormat format]) t col)
            = Ok (Some name)).
  { intros format name col ns (ct & Hc & Hb) <- Hn.
    erewrite GenerateForColumn_branded; eauto. reflexivity. }
  split; [|split; [|split]].
  - intros col ns (ct & Hc & Hb) <-.
    erewrite GenerateForColumn_branded; eauto; [reflexivity|].
    apply Sprintf_default_name.
  - apply Sprintf_format_name.
  - exact Hfmt.
  - intros pre mid post col ns Hpre Hmid Hpost Hb Hc.
    apply (Hfmt _ _ col ns Hb Hc). now apply Sprintf_two_placeholders.
Qed.

(** C4 as stated fails: for the table [tasks] and the column [id] the
    helper returns [chk_tasks_id_format], which is not the name
    [chk_tasks_id_branded] that the generator gives by default. *)
Lemma CheckConstraintName_is_not_the_default :
  (forall U : Unicode,
     @branded.CheckConstraintName U "tasks" "id" = Ok "chk_tasks_id_format"
     /\ fmap (option_map schema.Check_Name)
          (@postgres.GenerateForColumn U
             (postgres.NewBrandedConstraintGenerator []) "tasks"
             (samples.column "id" (schema.BrandedIDType "TSK") false))
        = Ok (Some "chk_tasks_id_branded"))
  /\ "chk_tasks_id_format" <> "chk_tasks_id_branded".
Proof. split; [intros U; split; reflexivity | discriminate]. Qed.

(** C5, as amended.  For a column [col] whose type is the branded type of
    namespace [ns], an enabled generator produces the CHECK expression
    [col ~ '^ns[0-9A-Za-z]{11}$'] when the column is not nullable and
    [col IS NULL OR col ~ '^ns[0-9A-Za-z]{11}$'] when it is, and
    [GenerateSQL] wraps it in the ALTER TABLE template, where the table
    and the constraint name are quoted as the verb [%q] quotes: between
    double quotes as they are when they are made of printable ASCII
    characters other than the double quote and the backslash.  For a
    column whose type is not branded, and for every column when
    generation is disabled, [GenerateForColumn] returns nil. *)
Theorem GenerateForColumn_check (U : Unicode) (t : string) (col : schema.Column) :
  let c := schema.Column_Name col in
  (forall g ct ns name,
     postgres.enabled (postgres.config g) = true ->
     schema.Column_Type col = Some ct ->
     schema.ColumnType_Type ct = Some (schema.BrandedIDType ns) ->
     fmt.Sprintf (postgres.constraintFmt (postgres.config g))
       [fmt.AString t; fmt.AString c] = Ok name ->
     let expr := checkExpr c ns (schema.ColumnType_Null ct) in
     postgres.GenerateForColumn g t col
     = Ok (Some {| schema.Check_Name := name; schema.Check_Expr := expr |})
     /\ postgres.GenerateSQL g t col = Ok (alterTable strconv.Quote t name expr)
     /\ (AllOf PlainChar t -> AllOf PlainChar name ->
         postgres.GenerateSQL g t col = Ok (alterTable inQuotes t name expr)))
  /\ (forall ct ns,
        schema.Column_Type col = Some ct ->
        schema.ColumnType_Type ct = Some (schema.BrandedIDType ns) ->
        postgres.GenerateForColumn (postgres.NewBrandedConstraintGenerator []) t col
        = Ok (Some {| schema.Check_Name := brandedName t c;
                      schema.Check_Expr := checkExpr c ns (schema.ColumnType_Null ct) |}))
  /\ (forall g, NotBranded col -> postgres.GenerateForColumn g t col = Ok None)
  /\ (forall opts,
        postgres.GenerateForColumn
          (postgres.NewBrandedConstraintGenerator
             (opts ++ [postgres.WithBrandedConstraints false])) t col
        = Ok None).
Proof.
  intros c. subst c. split; [|split; [|split]].
  - intros g ct ns name He Hc Hb Hn expr. subst expr.
    pose proof (GenerateForColumn_branded g t col ct ns name He Hc Hb Hn) as Hg.
    split; [exact Hg|].
    assert (Hsql : postgres.GenerateSQL g t col
                   = Ok (alterTable strconv.Quote t name
                           (checkExpr (schema.Column_Name col) ns
                              (schema.ColumnType_Null ct)))).
    { unfold postgres.GenerateSQL. rewrite Hg. cbn [bind schema.Check_Name schema.Check_Expr].
      apply Sprintf_alter_table. }
    split; [exact Hsql|]. intros Ht Hname. rewrite Hsql.
    unfold alterTable, inQuotes. now rewrite !Quote_plain.
  - intros ct ns Hc Hb.
    apply GenerateForColumn_branded; [reflexivity | exact Hc | exact Hb |].
    apply Sprintf_default_name.
  - intros g. apply GenerateForColumn_not_branded.
  - intros opts. apply GenerateForColumn_disabled.
    unfold postgres.NewBrandedConstraintGenerator. cbn [postgres.config].
    now rewrite fold_left_app.
Qed.


(** ** Upper-casing *)
Section Casing.
Context {U : Unicode}.

Lemma map_upperByte_id (s : string) :
  existsb_s isLower s = false -> map_s upperByte s = s.
Proof.
  induction s as [|c s IH]; simpl; [reflexivity|].
  intros H. apply orb_false_iff in H. destruct H as [Hc Hs].
  rewrite IH by exact Hs. unfold upperByte. now rewrite Hc.
Qed.

(** On ASCII strings [strings.ToUpper] is the ASCII upper-casing. *)
Lemma ToUpper_ascii (s : string) :
  isASCII s = true -> strings.ToUpper s = asciiUpper s.
Proof.
  intros H. unfold strings.ToUpper, strings.hasLower, asciiUpper. rewrite H.
  destruct (existsb_s isLower s) eqn:Hl; [reflexivity|].
  cbn [negb]. now rewrite map_upperByte_id.
Qed.

Lemma UpperLetter_ascii (c : ascii) :
  UpperLetter c -> (byteZ c <? 128)%Z = true /\ isLower c = false.
Proof.
  unfold UpperLetter, isLower, between. intros H. split.
  - apply Z.ltb_lt. lia.
  - apply andb_false_iff. left. apply Z.leb_gt. lia.
Qed.

Lemma AllOf_UpperLetter (s : string) :
  AllOf UpperLetter s -> isASCII s = true /\ existsb_s isLower s = false.
Proof.
  unfold isASCII. induction s as [|c s IH]; simpl; [auto|].
  intros [Hc Hs]. destruct (UpperLetter_ascii _ Hc) as [-> ->].
  destruct (IH Hs) as [-> ->]. auto.
Qed.

(** A code of upper-case letters is its own upper-casing. *)
Lemma ToUpper_Upper3 (ns : string) : Upper3 ns -> strings.ToUpper ns = ns.
Proof.
  intros [_ H]. destruct (AllOf_UpperLetter _ H) as [Ha Hl].
  unfold strings.ToUpper, strings.hasLower. now rewrite Ha, Hl.
Qed.

Lemma NormalizeString_Upper3 (ns : string) :
  Upper3 ns -> schemahcl.NormalizeString ns = ns.
Proof.
  intros [_ H]. destruct (AllOf_UpperLetter _ H) as [Ha _].
  unfold schemahcl.NormalizeString. now rewrite Ha.
Qed.

End Casing.

(** C10, as amended.  [BrandedID(ns)] stores [strings.ToUpper(ns)], which
    for every ASCII string [ns] is the ASCII upper-casing of [ns], so that
    [BrandedID] of [tsk] and of [TSK] are [Is]-equal types, whereas
    [BrandedIDFromNamespace(ns)] stores the namespace as given; neither
    constructor checks the length of [ns]: both are defined on every
    string, the empty one and longer ones included. *)
Theorem BrandedID_normalizes (U : Unicode) :
  (forall ns, branded.Namespace (branded.BrandedID ns) = strings.ToUpper ns)
  /\ (forall ns, isASCII ns = true ->
        branded.Namespace (branded.BrandedID ns) = asciiUpper ns)
  /\ branded.Is (branded.BrandedID "tsk")
       (Some (branded.asType (branded.BrandedID "TSK"))) = true
  /\ (forall ns, branded.Namespace (branded.BrandedIDFromNamespace ns) = ns)
  /\ branded.Namespace (branded.BrandedID "") = ""
  /\ branded.Namespace (branded.BrandedID "feature") = "FEATURE"
  /\ branded.Namespace (branded.BrandedIDFromNamespace "feature") = "feature".
Proof.
  split; [reflexivity|]. split; [intros ns H; now apply ToUpper_ascii|].
  repeat split; reflexivity.
Qed.

(** C10 as stated fails on a string that is not ASCII: under every table
    that, as Go's does, maps U+00E9 (e with an acute accent) to U+00C9,
    [BrandedID] of that letter stores the capital letter, which is not the
    ASCII upper-casing of the argument. *)
Lemma BrandedID_upper_cases_beyond_ascii :
  (forall U : Unicode,
     @upperWide U 233 = 201%Z ->
     branded.Namespace (@branded.BrandedID U samples.eacute) = samples.Eacute)
  /\ branded.Namespace (@branded.BrandedID samples.latin1 samples.eacute)
     = samples.Eacute
  /\ asciiUpper samples.eacute = samples.eacute
  /\ samples.Eacute <> samples.eacute.
Proof.
  split; [|split; [reflexivity|split; [reflexivity | discriminate]]].
  intros [up lo pr nfc] H. cbn in H.
  cbv [branded.BrandedID branded.Namespace]. unfold strings.ToUpper.
  change (isASCII samples.eacute) with false. cbv iota.
  unfold strings.Map.
  change (utf8.runes samples.eacute) with [233%Z].
  cbn [List.map]. unfold unicode.ToUpper.
  change (233 <=? 127)%Z with false. cbv iota. cbn [upperWide].
  rewrite H. reflexivity.
Qed.


(** ** The HCL type spec *)
Section TypeSpec.
Context {U : Unicode} {R : fiberfx.Registry}.

Lemma IsValidNamespace_registered (ns : string) :
  fiberfx.IsValidNamespace ns = true -> In ns fiberfx.registered.
Proof.
  unfold fiberfx.IsValidNamespace. rewrite andb_true_iff, existsb_exists.
  intros [_ (x & Hx & He)]. apply String.eqb_eq in He. now subst x.
Qed.

Lemma registered_Upper3 (ns : string) :
  WellFormedRegistry R -> fiberfx.IsValidNamespace ns = true -> Upper3 ns.
Proof.
  unfold WellFormedRegistry. rewrite Forall_forall. intros Hwf Hv.
  apply Hwf. now apply IsValidNamespace_registered.
Qed.

Lemma Sprintf_expected_type (T : string) :
  fmt.Sprintf "branded: expected type %q, got %q"
    [fmt.AString branded.TypeBrandedID; fmt.AString T]
  = Ok ("branded: expected type " ++ strconv.Quote "branded_id" ++ ", got "
        ++ strconv.Quote T).
Proof. sprintf. Qed.

Lemma Sprintf_invalid_namespace (ns : string) (all : list string) :
  fmt.Sprintf "branded: invalid namespace %q; valid namespaces: %v"
    [fmt.AString ns; fmt.ANamespaces all]
  = Ok ("branded: invalid namespace " ++ strconv.Quote ns
        ++ "; valid namespaces: " ++ fmt.bracket all).
Proof. sprintf. Qed.

Lemma namespaceFromAttrs_missing (attrs : list schemahcl.Attr) :
  (forall a, In a attrs -> schemahcl.Attr_K a <> "namespace") ->
  branded.namespaceFromAttrs attrs
  = Ok ("", Some (schemahcl.Errorf "branded: missing namespace attribute")).
Proof.
  induction attrs as [|a attrs IH]; intros H; simpl; [reflexivity|].
  destruct (String.eqb_spec (schemahcl.Attr_K a) "namespace") as [E|_].
  - destruct (H a (or_introl eq_refl) E).
  - apply IH. intros b Hb. apply H. now right.
Qed.

End TypeSpec.

(** C8. The declarative-config mapping round-trips: for every branded type
    whose namespace is registered, [toSpec] succeeds and yields the HCL
    type named [branded_id] with the single string attribute [namespace]
    equal to the namespace, and [fromSpec] of it succeeds and returns the
    branded type of the same namespace; [fromSpec] fails with an error
    when the type name is not [branded_id], when the namespace attribute
    is missing, and when the namespace is not in the registry. *)
Theorem spec_round_trip (U : Unicode) (R : fiberfx.Registry)
    (Hwf : WellFormedRegistry R) :
  (forall ns, fiberfx.IsValidNamespace ns = true ->
     branded.toSpec (Some (schema.BrandedIDType ns)) = Ok (Some (brandedSpec ns), None)
     /\ branded.fromSpec (brandedSpec ns) = Ok (Some (schema.BrandedIDType ns), None)
     /\ roundTrip (Some (schema.BrandedIDType ns))
        = Ok (Some (schema.BrandedIDType ns), None))
  /\ (forall t, schemahcl.Type_T t <> "branded_id" ->
        branded.fromSpec t
        = Ok (None,
              Some (schemahcl.Errorf
                      ("branded: expected type " ++ strconv.Quote "branded_id"
                       ++ ", got " ++ strconv.Quote (schemahcl.Type_T t)))))
  /\ (forall t, schemahcl.Type_T t = "branded_id" ->
        (forall a, In a (schemahcl.Type_Attrs t) -> schemahcl.Attr_K a <> "namespace") ->
        branded.fromSpec t
        = Ok (None, Some (schemahcl.Errorf "branded: missing namespace attribute")))
  /\ (forall t ns, schemahcl.Type_T t = "branded_id" ->
        branded.namespaceFromAttrs (schemahcl.Type_Attrs t) = Ok (ns, None) ->
        fiberfx.IsValidNamespace ns = false ->
        branded.fromSpec t
        = Ok (None,
              Some (schemahcl.Errorf
                      ("branded: invalid namespace " ++ strconv.Quote ns
                       ++ "; valid namespaces: "
                       ++ fmt.bracket fiberfx.AllNamespaces)))).
Proof.
  split; [|split; [|split]].
  - intros ns Hv. pose proof (registered_Upper3 ns Hwf Hv) as Hu.
    assert (Hto : branded.toSpec (Some (schema.BrandedIDType ns))
                  = Ok (Some (brandedSpec ns), None)).
    { unfold branded.toSpec, brandedSpec, schemahcl.StringAttr.
      cbn [branded.assertBranded branded.Namespace].
      now rewrite (NormalizeString_Upper3 _ Hu). }
    assert (Hfrom : branded.fromSpec (brandedSpec ns)
                    = Ok (Some (schema.BrandedIDType ns), None)).
    { unfold branded.fromSpec, brandedSpec.
      cbn [schemahcl.Type_T schemahcl.Type_Attrs branded.TypeBrandedID String.eqb
           Ascii.eqb Bool.eqb negb branded.namespaceFromAttrs schemahcl.Attr_K
           schemahcl.Attr_String schemahcl.Attr_V bind].
      rewrite Hv. cbn [negb]. unfold branded.asType, branded.BrandedID.
      cbn [branded.Namespace]. now rewrite (ToUpper_Upper3 _ Hu). }
    split; [exact Hto|]. split; [exact Hfrom|].
    unfold roundTrip. rewrite Hto. exact Hfrom.
  - intros t Ht. unfold branded.fromSpec.
    destruct (String.eqb_spec (schemahcl.Type_T t) branded.TypeBrandedID) as [E|_];
      [contradiction|].
    cbn [negb]. now rewrite Sprintf_expected_type.
  - intros t Ht Hmiss. unfold branded.fromSpec. rewrite Ht.
    cbn [branded.TypeBrandedID]. rewrite String.eqb_refl. cbn [negb].
    now rewrite (namespaceFromAttrs_missing _ Hmiss).
  - intros t ns Ht Hattrs Hv. unfold branded.fromSpec. rewrite Ht.
    cbn [branded.TypeBrandedID]. rewrite String.eqb_refl. cbn [negb].
    rewrite Hattrs. cbn [bind]. rewrite Hv. cbn [negb].
    now rewrite Sprintf_invalid_namespace.
Qed.


(** ** Conversion of inspected columns *)

Lemma FirstMarker_nonempty (ns : string) : ~ FirstMarker "" ns.
Proof. intros (pre & post & [H _] & _). destruct pre; discriminate. Qed.

Lemma isBrandedIDCompatible_iff (t : option schema.Type_) :
  postgres.isBrandedIDCompatible t = true
  <-> exists T, t = Some (schema.StringType T 14).
Proof.
  destruct t as [[T size| | | |]|]; simpl;
    try (split; [discriminate | intros [T' H]; discriminate]).
  rewrite Z.eqb_eq. split.
  - intros ->. now exists T.
  - now intros [T' [= _ ->]].
Qed.

(** What [convertBrandedIDColumn] does, case by case. *)
Lemma convertBrandedIDColumn_cases (c : schema.Column) :
  (exists ct ns,
     schema.Column_Type c = Some ct /\ Eligible c ns /\
     postgres.convertBrandedIDColumn c
     = schema.Column_setType c
         (Some (schema.ColumnType_setType ct (Some (schema.BrandedIDType ns)))))
  \/ ((forall ns, ~ Eligible c ns) /\ postgres.convertBrandedIDColumn c = c).
Proof.
  unfold postgres.convertBrandedIDColumn, Eligible, schemaTypeOf.
  destruct (schema.Column_Type c) as [ct|] eqn:Hc.
  2:{ right. split; [|reflexivity]. intros ns [[T H] _]. discriminate. }
  destruct (String.eqb_spec (postgres.getComment c) "") as [He|Hne].
  { right. split; [|reflexivity]. intros ns [_ H]. rewrite He in H.
    exact (FirstMarker_nonempty _ H). }
  destruct (ParseComment_cases (postgres.getComment c))
    as [[Hp Hno]|(ns & Hp & Hf)]; rewrite Hp; cbn [negb].
  { right. split; [|reflexivity]. intros ns [_ (pre & post & Hat & _)].
    apply Hno. now exists pre, ns, post. }
  destruct (postgres.isBrandedIDCompatible (schema.ColumnType_Type ct)) eqn:Hk;
    cbn [negb].
  - left. exists ct, ns. split; [reflexivity|]. split; [|reflexivity].
    split; [now apply isBrandedIDCompatible_iff | exact Hf].
  - right. split; [|reflexivity]. intros ns' [HT _].
    apply isBrandedIDCompatible_iff in HT. congruence.
Qed.

(** C9, as amended.  [convertBrandedIDColumn(c)] replaces the type of [c]
    by the branded type of namespace [NS] if and only if, before the call,
    [NS] is the first [branded_id:NS] marker of the comment of [c] and the
    physical type of [c] is a string type of size exactly 14, whatever the
    name of the string type; in every other case (no type, no comment, no
    marker, a type that is not a string type of size 14) the column is left
    unchanged; and a conversion changes the type only: the name, the
    attributes with the comment, the raw type and the nullability stay as
    they were. *)
Theorem convertBrandedIDColumn_spec (c : schema.Column) :
  let c' := postgres.convertBrandedIDColumn c in
  (forall ns,
     (c' <> c /\ schemaTypeOf c' = Some (schema.BrandedIDType ns)) <-> Eligible c ns)
  /\ ((forall ns, ~ Eligible c ns) -> c' = c)
  /\ (schema.Column_Type c = None -> c' = c)
  /\ (postgres.getComment c = "" -> c' = c)
  /\ (~ HasMarker (postgres.getComment c) -> c' = c)
  /\ (postgres.isBrandedIDCompatible (schemaTypeOf c) = false -> c' = c)
  /\ schema.Column_Name c' = schema.Column_Name c
  /\ schema.Column_Attrs c' = schema.Column_Attrs c
  /\ option_map schema.ColumnType_Raw (schema.Column_Type c')
     = option_map schema.ColumnType_Raw (schema.Column_Type c)
  /\ option_map schema.ColumnType_Null (schema.Column_Type c')
     = option_map schema.ColumnType_Null (schema.Column_Type c).
Proof.
  intros c'. subst c'.
  assert (Hun : (forall ns, ~ Eligible c ns) -> postgres.convertBrandedIDColumn c = c).
  { intros Hno.
    destruct (convertBrandedIDColumn_cases c) as [(ct & ns & _ & He & _)|[_ H]];
      [destruct (Hno _ He) | exact H]. }
  split.
  { intros ns.
    destruct (convertBrandedIDColumn_cases c) as [(ct & ns0 & Hc & He & ->)|[Hno ->]].
    - split.
      + intros [_ H]. unfold schemaTypeOf in H. cbn in H. now injection H as <-.
      + intros He'. destruct He as [[T HT] Hf], He' as [_ Hf'].
        rewrite (FirstMarker_unique _ _ _ Hf' Hf). split; [|reflexivity].
        intros E. apply (f_equal schemaTypeOf) in E.
        unfold schemaTypeOf at 1 in E. cbn in E. congruence.
    - split; [intros [H _]; now destruct H | intros He; destruct (Hno _ He)]. }
  split; [exact Hun|].
  split. { intros H. apply Hun. intros ns [[T HT] _]. unfold schemaTypeOf in HT.
           rewrite H in HT. discriminate. }
  split. { intros H. apply Hun. intros ns [_ Hf]. rewrite H in Hf.
           exact (FirstMarker_nonempty _ Hf). }
  split. { intros H. apply Hun. intros ns [_ (pre & post & Hat & _)].
           apply H. now exists pre, ns, post. }
  split. { intros H. apply Hun. intros ns [HT _].
           apply isBrandedIDCompatible_iff in HT. congruence. }
  destruct (convertBrandedIDColumn_cases c) as [(ct & ns0 & Hc & He & ->)|[Hno ->]].
  - rewrite Hc. repeat split; reflexivity.
  - repeat split; reflexivity.
Qed.

(** C9 as stated fails: a column of the fixed-length type [char(14)] whose
    comment carries a marker is converted, although its physical type is
    not a variable-length character type. *)
Lemma convertBrandedIDColumn_accepts_char14 :
  postgres.convertBrandedIDColumn
    (samples.commented "id" (schema.StringType "char" 14) "branded_id:TSK")
  = samples.commented "id" (schema.BrandedIDType "TSK") "branded_id:TSK"
  /\ isVariableLengthChar "char" = false.
Proof. split; reflexivity. Qed.


(** ** The claims at concrete inputs *)

Lemma Upper3_literal (a b c : ascii) :
  isUpper a && isUpper b && isUpper c = true ->
  Upper3 (String a (String b (String c ""))).
Proof. intros H. apply Upper3_chars. now exists a, b, c. Qed.

Lemma samples_registry_well_formed : WellFormedRegistry samples.registry.
Proof.
  unfold WellFormedRegistry. cbn [fiberfx.registered samples.registry].
  repeat (constructor; [apply Upper3_literal; reflexivity|]). constructor.
Qed.

Lemma Branded_column (name ns : string) (null : bool) :
  Branded (samples.column name (schema.BrandedIDType ns) null) ns.
Proof. eexists. split; reflexivity. Qed.

Lemma NotBranded_integer (name T : string) (null : bool) :
  NotBranded (samples.column name (schema.IntegerType T false) null).
Proof. eexists. split; [reflexivity | discriminate]. Qed.

Lemma NotBranded_string (name T : string) (size : Z) (null : bool) :
  NotBranded (samples.column name (schema.StringType T size) null).
Proof. eexists. split; [reflexivity | discriminate]. Qed.

(** C1 at a well-formed identifier whose namespace is not registered. *)
Lemma ValidateValue_accepts_unregistered :
  @fiberfx.IsValidNamespace samples.registry "XXX" = false
  /\ @validator.ValidateValue samples.latin1 (validator.NewValidator [])
       "XXX0Ij1P13FRDM" "" = Ok None.
Proof.
  split; [reflexivity|].
  destruct (ValidateValue_nil_iff samples.latin1 samples.registry
              (validator.NewValidator []) "XXX0Ij1P13FRDM" "") as (_ & _ & H).
  apply H; [apply Valid_iff|]; reflexivity.
Defined.

(** C2 at the foreign key of the tests from a TSK column to an EPC
    column. *)
Lemma ValidateForeignKey_mismatch :
  @validator.checkPair samples.latin1 "fk_bad"
    (samples.column "task_id" (schema.BrandedIDType "TSK") false)
    (samples.column "id" (schema.BrandedIDType "EPC") false) []
  = Ok [{| validator.Table := ""; validator.Column := ""; validator.FK := "fk_bad";
           validator.Message :=
             "namespace mismatch " ++ @strconv.Quote samples.latin1 "task_id"
             ++ " (TSK) -> " ++ @strconv.Quote samples.latin1 "id" ++ " (EPC)" |}].
Proof.
  destruct (ValidateForeignKey_pairs samples.latin1 (validator.NewValidator [])
              {| schema.ForeignKey_Symbol := "fk_bad";
                 schema.ForeignKey_Columns :=
                   [samples.column "task_id" (schema.BrandedIDType "TSK") false];
                 schema.ForeignKey_RefColumns :=
                   [samples.column "id" (schema.BrandedIDType "EPC") false] |})
    as (_ & _ & _ & H & _).
  refine (H (samples.column "task_id" (schema.BrandedIDType "TSK") false)
            (samples.column "id" (schema.BrandedIDType "EPC") false)
            "TSK" "EPC" (Branded_column _ _ _) (Branded_column _ _ _) _).
  discriminate.
Defined.

(** C3 at the column of the tests typed with the unknown namespace XXX. *)
Lemma ValidateColumn_unknown_namespace :
  @validator.ValidateColumn samples.latin1 samples.registry
    (validator.NewValidator []) "test"
    (samples.column "id" (schema.BrandedIDType "XXX") false)
  = Ok [{| validator.Table := "test"; validator.Column := "id"; validator.FK := "";
           validator.Message :=
             "unknown namespace " ++ @strconv.Quote samples.latin1 "XXX"
             ++ "; valid: [TSK EPC FTR USR PLR RSC ROM GAM GUS TXN DPL SHR]" |}].
Proof.
  destruct (ValidateColumn_default samples.latin1 samples.registry "test"
              (samples.column "id" (schema.BrandedIDType "XXX") false))
    as (_ & H & _).
  exact (proj1 (H "XXX" (Branded_column _ _ _) eq_refl)).
Defined.

(** C4 at the custom format of the tests. *)
Lemma constraint_names_custom_format :
  fmap (option_map schema.Check_Name)
    (@postgres.GenerateForColumn samples.latin1
       (postgres.NewBrandedConstraintGenerator
          [postgres.WithConstraintFormat "branded_%s_%s_check"])
       "tasks" (samples.column "id" (schema.BrandedIDType "TSK") false))
  = Ok (Some "branded_tasks_id_check").
Proof.
  destruct (constraint_names samples.latin1 "tasks" "id") as (_ & _ & _ & H).
  refine (H "branded_" "_" "_check"
            (samples.column "id" (schema.BrandedIDType "TSK") false) "TSK"
            _ _ _ (Branded_column _ _ _) eq_refl);
    cbn; repeat split; discriminate.
Defined.

(** C5 at the column [id] of the table [tasks] of the tests. *)
Lemma GenerateSQL_tasks_id :
  @postgres.GenerateSQL samples.latin1 (postgres.NewBrandedConstraintGenerator [])
    "tasks" (samples.column "id" (schema.BrandedIDType "TSK") false)
  = Ok (alterTable inQuotes "tasks" "chk_tasks_id_branded"
          "id ~ '^TSK[0-9A-Za-z]{11}$'").
Proof.
  destruct (GenerateForColumn_check samples.latin1 "tasks"
              (samples.column "id" (schema.BrandedIDType "TSK") false)) as (H & _).
  destruct (H (postgres.NewBrandedConstraintGenerator [])
              (samples.columnType (schema.BrandedIDType "TSK") false) "TSK"
              "chk_tasks_id_branded" eq_refl eq_refl eq_refl eq_refl)
    as (_ & _ & Hsql).
  apply Hsql; cbn; unfold PlainChar; cbn; repeat split; (lia || discriminate).
Defined.

(** C8 at the registered namespace TSK. *)
Lemma spec_round_trip_TSK :
  WellFormedRegistry samples.registry
  /\ @fiberfx.IsValidNamespace samples.registry "TSK" = true
  /\ @roundTrip samples.latin1 samples.registry (Some (schema.BrandedIDType "TSK"))
     = Ok (Some (schema.BrandedIDType "TSK"), None).
Proof.
  split; [exact samples_registry_well_formed|]. split; [reflexivity|].
  destruct (spec_round_trip samples.latin1 samples.registry
              samples_registry_well_formed) as (H & _).
  destruct (H "TSK" eq_refl) as (_ & _ & Hr). exact Hr.
Defined.

(** C9 at the column [varchar(14)] of the tests, commented
    [branded_id:TSK]. *)
Lemma convertBrandedIDColumn_varchar14 :
  Eligible
    (samples.commented "id" (schema.StringType "character varying" 14) "branded_id:TSK")
    "TSK"
  /\ schemaTypeOf
       (postgres.convertBrandedIDColumn
          (samples.commented "id" (schema.StringType "character varying" 14)
             "branded_id:TSK"))
     = Some (schema.BrandedIDType "TSK").
Proof.
  assert (He : Eligible
                 (samples.commented "id" (schema.StringType "character varying" 14)
                    "branded_id:TSK") "TSK").
  { split; [now exists "character varying"|]. now apply ParseComment_first. }
  split; [exact He|].
  destruct (convertBrandedIDColumn_spec
              (samples.commented "id" (schema.StringType "character varying" 14)
                 "branded_id:TSK")) as (H & _).
  exact (proj2 (proj2 (H "TSK") He)).
Defined.

(** C6 at the schema of the tests whose only column has the unknown
    namespace XXX. *)
Lemma ValidateSchema_bad_table :
  TypedSchema samples.badSchema
  /\ exists errs,
       @validator.ValidateSchema samples.latin1 samples.registry
         (validator.NewValidator []) samples.badSchema = Ok errs.
Proof.
  assert (Ht : TypedSchema samples.badSchema).
  { repeat constructor. discriminate. }
  split; [exact Ht|].
  destruct (ValidateSchema_accumulates samples.latin1 samples.registry
              (validator.NewValidator []) samples.badSchema) as (_ & _ & H & _).
  exact (H Ht).
Defined.

(** C7 at the namespace TSK. *)
Lemma ParseComment_FormatComment_TSK :
  Upper3 "TSK"
  /\ fmap branded.ParseComment (@branded.FormatComment samples.latin1 "TSK")
     = Ok ("TSK", true).
Proof.
  assert (Hu : Upper3 "TSK") by (apply Upper3_literal; reflexivity).
  split; [exact Hu|].
  destruct (ParseComment_FormatComment samples.latin1) as (_ & _ & _ & _ & H).
  exact (H "TSK" Hu).
Defined.

(** C10 at the lower-case code of the tests. *)
Lemma BrandedID_tsk :
  isASCII "tsk" = true
  /\ branded.Namespace (@branded.BrandedID samples.latin1 "tsk") = "TSK".
Proof.
  split; [reflexivity|].
  destruct (BrandedID_normalizes samples.latin1) as (_ & H & _).
  exact (H "tsk" eq_refl).
Defined.

(** C5 as stated fails on a table whose name holds a double quote: [%q]
    escapes the quote with a backslash, in the table name and in the
    constraint name made from it, so the statement generated is not the
    template with the names between double quotes as they are. *)
Lemma GenerateSQL_escapes_quotes :
  (forall U : Unicode,
     @postgres.GenerateSQL U (postgres.NewBrandedConstraintGenerator [])
       samples.quotedName (samples.column "id" (schema.BrandedIDType "TSK") false)
     = Ok (alterTable inQuotes samples.escapedName
             (brandedName samples.escapedName "id") (checkExpr "id" "TSK" false)))
  /\ alterTable inQuotes samples.escapedName
       (brandedName samples.escapedName "id") (checkExpr "id" "TSK" false)
     <> alterTable inQuotes samples.quotedName
          (brandedName samples.quotedName "id") (checkExpr "id" "TSK" false).
Proof. split; [intros U; reflexivity | discriminate]. Qed.


(** ** The tests of the repository, run on the embedding *)
Section Tests.
#[local] Existing Instance samples.latin1.
#[local] Existing Instance samples.registry.

Example TestParseComment_valid :
  branded.ParseComment "branded_id:TSK" = ("TSK", true).
Proof. reflexivity. Qed.

Example TestParseComment_other_text :
  branded.ParseComment "User task identifier branded_id:TSK for tracking"
  = ("TSK", true).
Proof. reflexivity. Qed.

Example TestParseComment_no_marker :
  branded.ParseComment "Regular column comment" = ("", false).
Proof. reflexivity. Qed.

Example TestParseComment_empty : branded.ParseComment "" = ("", false).
Proof. reflexivity. Qed.

Example TestParseComment_invalid_namespace :
  branded.ParseComment "branded_id:T" = ("", false).
Proof. reflexivity. Qed.

Example ParseComment_longer_code :
  branded.ParseComment "branded_id:TSKX, then branded_id:EPC" = ("TSK", true).
Proof. reflexivity. Qed.

Example TestFormatComment : branded.FormatComment "FTR" = Ok "branded_id:FTR".
Proof. reflexivity. Qed.

Example TestCheckConstraintExpr :
  branded.CheckConstraintExpr "id" "TSK" = Ok "id ~ '^TSK[0-9A-Za-z]{11}$'".
Proof. reflexivity. Qed.

Example TestCheckConstraintName :
  branded.CheckConstraintName "tasks" "id" = Ok "chk_tasks_id_format".
Proof. reflexivity. Qed.

Example TestBrandedIDType_Is :
  branded.Is (branded.BrandedID "TSK") (Some (branded.asType (branded.BrandedID "TSK")))
  = true
  /\ branded.Is (branded.BrandedID "TSK")
       (Some (branded.asType (branded.BrandedID "EPC"))) = false
  /\ branded.Is (branded.BrandedID "TSK") (Some (schema.StringType "" 0)) = false.
Proof. repeat split; reflexivity. Qed.

Example TestValidatorValidateValue :
  let v := validator.NewValidator [] in
  validator.ValidateValue v "TSK0Ij1P13FRDM" "TSK" = Ok None
  /\ validator.ValidateValue v "EPC0K5M2vuIULY" "EPC" = Ok None
  /\ validator.ValidateValue v "TSK0Ij1P13FRDM" "EPC"
     = Ok (Some ("expected namespace " ++ inQuotes "EPC" ++ ", got " ++ inQuotes "TSK"))
  /\ validator.ValidateValue v "TSK123" ""
     = Ok (Some "branded ID must be 14 characters, got 6")
  /\ validator.ValidateValue v "TSK0Ij1P13FRDMX" ""
     = Ok (Some "branded ID must be 14 characters, got 15")
  /\ validator.ValidateValue v "TSK0Ij1P13FRD!" ""
     = Ok (Some ("branded ID " ++ inQuotes "TSK0Ij1P13FRD!" ++ " has invalid format"))
  /\ validator.ValidateValue v "TSK0Ij1P13FRDM" "" = Ok None.
Proof. repeat split; reflexivity. Qed.

Example TestValidatorValidateColumn :
  let v := validator.NewValidator [] in
  validator.ValidateColumn v "tasks"
    (samples.column "id" (schema.BrandedIDType "TSK") false) = Ok []
  /\ validator.ValidateColumn v "epics"
       (samples.column "id" (schema.BrandedIDType "EPC") false) = Ok []
  /\ fmap (@List.length _)
       (validator.ValidateColumn v "test"
          (samples.column "id" (branded.asType (branded.BrandedID "XXX")) false))
     = Ok 1
  /\ validator.ValidateColumn v "users"
       (samples.column "name" (schema.StringType "varchar" 255) false) = Ok [].
Proof. repeat split; reflexivity. Qed.

Example TestValidatorWithNamingConvention :
  let v := validator.NewValidator [validator.WithNamingConvention true] in
  let errors := fun name ns =>
    fmap (@List.length _)
      (validator.ValidateColumn v "tasks"
         (samples.column name (schema.BrandedIDType ns) false)) in
  errors "id" "TSK" = Ok 0 /\ errors "tsk_id" "TSK" = Ok 0
  /\ errors "epic_id" "EPC" = Ok 0 /\ errors "identifier" "TSK" = Ok 1.
Proof. repeat split; reflexivity. Qed.

Example TestValidatorValidateForeignKey :
  let v := validator.NewValidator [] in
  let errors := fun symbol col ref =>
    fmap (@List.length _)
      (validator.ValidateForeignKey v
         {| schema.ForeignKey_Symbol := symbol;
            schema.ForeignKey_Columns := [col];
            schema.ForeignKey_RefColumns := [ref] |}) in
  errors "fk_task_epic"
    (samples.column "epic_id" (schema.BrandedIDType "EPC") false)
    (samples.column "id" (schema.BrandedIDType "EPC") false) = Ok 0
  /\ errors "fk_bad"
       (samples.column "task_id" (schema.BrandedIDType "TSK") false)
       (samples.column "id" (schema.BrandedIDType "EPC") false) = Ok 1
  /\ errors "fk_mixed"
       (samples.column "epic_id" (schema.BrandedIDType "EPC") false)
       (samples.column "id" (schema.IntegerType "bigint" false) false) = Ok 1
  /\ errors "fk_normal"
       (samples.column "user_id" (schema.IntegerType "bigint" false) false)
       (samples.column "id" (schema.IntegerType "bigint" false) false) = Ok 0.
Proof. repeat split; reflexivity. Qed.

Example TestValidatorValidateSchemaWithErrors :
  fmap (List.map validator.Message)
    (validator.ValidateSchema (validator.NewValidator []) samples.badSchema)
  = Ok ["unknown namespace " ++ inQuotes "XXX"
        ++ "; valid: [TSK EPC FTR USR PLR RSC ROM GAM GUS TXN DPL SHR]"].
Proof. reflexivity. Qed.

Example TestValidationErrorFormat :
  validator.Error {| validator.Table := "tasks"; validator.Column := "id";
                     validator.FK := ""; validator.Message := "invalid namespace" |}
  = Ok ("column " ++ inQuotes "tasks" ++ "." ++ inQuotes "id" ++ ": invalid namespace")
  /\ validator.Error {| validator.Table := ""; validator.Column := "";
                        validator.FK := "fk_epic";
                        validator.Message := "namespace mismatch" |}
     = Ok ("FK " ++ inQuotes "fk_epic" ++ ": namespace mismatch")
  /\ validator.Error {| validator.Table := ""; validator.Column := "";
                        validator.FK := ""; validator.Message := "general error" |}
     = Ok "general error".
Proof. repeat split; reflexivity. Qed.

Example TestBrandedConstraintGeneratorForColumn :
  let g := postgres.NewBrandedConstraintGenerator [] in
  postgres.GenerateForColumn g "tasks"
    (samples.column "id" (schema.BrandedIDType "TSK") false)
  = Ok (Some {| schema.Check_Name := "chk_tasks_id_branded";
                schema.Check_Expr := "id ~ '^TSK[0-9A-Za-z]{11}$'" |})
  /\ postgres.GenerateForColumn g "tasks"
       (samples.column "epic_id" (schema.BrandedIDType "EPC") true)
     = Ok (Some {| schema.Check_Name := "chk_tasks_epic_id_branded";
                   schema.Check_Expr :=
                     "epic_id IS NULL OR epic_id ~ '^EPC[0-9A-Za-z]{11}$'" |})
  /\ postgres.GenerateForColumn g "users"
       (samples.column "name" (schema.StringType "varchar" 255) false) = Ok None.
Proof. repeat split; reflexivity. Qed.

Example TestBrandedConstraintGeneratorDisabled :
  postgres.GenerateForColumn
    (postgres.NewBrandedConstraintGenerator [postgres.WithBrandedConstraints false])
    "tasks" (samples.column "id" (schema.BrandedIDType "TSK") false)
  = Ok None.
Proof. reflexivity. Qed.

Example TestBrandedConstraintGeneratorCustomFormat :
  fmap (option_map schema.Check_Name)
    (postgres.GenerateForColumn
       (postgres.NewBrandedConstraintGenerator
          [postgres.WithConstraintFormat "branded_%s_%s_check"])
       "tasks" (samples.column "id" (schema.BrandedIDType "TSK") false))
  = Ok (Some "branded_tasks_id_check").
Proof. reflexivity. Qed.

Example TestBrandedConstraintGeneratorGenerateSQL :
  postgres.GenerateSQL (postgres.NewBrandedConstraintGenerator []) "tasks"
    (samples.column "id" (schema.BrandedIDType "TSK") false)
  = Ok ("ALTER TABLE " ++ inQuotes "tasks" ++ " ADD CONSTRAINT "
        ++ inQuotes "chk_tasks_id_branded"
        ++ " CHECK (id ~ '^TSK[0-9A-Za-z]{11}$');").
Proof. reflexivity. Qed.

Example TestIsBrandedIDCompatible :
  postgres.isBrandedIDCompatible (Some (schema.StringType "character varying" 14)) = true
  /\ postgres.isBrandedIDCompatible (Some (schema.StringType "character varying" 255))
     = false
  /\ postgres.isBrandedIDCompatible (Some (schema.StringType "text" 0)) = false
  /\ postgres.isBrandedIDCompatible (Some (schema.IntegerType "integer" false)) = false
  /\ postgres.isBrandedIDCompatible (Some (schema.UUIDType "uuid")) = false.
Proof. repeat split; reflexivity. Qed.

Example TestConvertBrandedIDColumn :
  let branded_after := fun c =>
    postgres.GetBrandedIDNamespace (postgres.convertBrandedIDColumn c) in
  branded_after
    (samples.commented "id" (schema.StringType "character varying" 14) "branded_id:TSK")
  = ("TSK", true)
  /\ branded_after (samples.column "id" (schema.StringType "character varying" 14) false)
     = ("", false)
  /\ branded_after
       (samples.commented "id" (schema.StringType "character varying" 14)
          "Just a regular ID column") = ("", false)
  /\ branded_after
       (samples.commented "name" (schema.StringType "character varying" 255)
          "branded_id:TSK") = ("", false)
  /\ branded_after
       (samples.commented "count" (schema.IntegerType "integer" false) "branded_id:TSK")
     = ("", false).
Proof. repeat split; reflexivity. Qed.

Example TestFromSpec :
  let spec := fun T attrs =>
    {| schemahcl.Type_T := T; schemahcl.Type_Attrs := attrs;
       schemahcl.Type_IsRef := false |} in
  let failed := fun r : result (option schema.Type_ * option schemahcl.error) =>
    match r with
    | Ok (None, Some _) => true
    | _ => false
    end in
  branded.fromSpec (spec "branded_id" [schemahcl.StringAttr "namespace" "TSK"])
  = Ok (Some (schema.BrandedIDType "TSK"), None)
  /\ branded.fromSpec (spec "branded_id" [schemahcl.StringAttr "namespace" "EPC"])
     = Ok (Some (schema.BrandedIDType "EPC"), None)
  /\ failed (branded.fromSpec (spec "varchar" [schemahcl.StringAttr "namespace" "TSK"]))
     = true
  /\ failed (branded.fromSpec (spec "branded_id" [])) = true
  /\ failed (branded.fromSpec (spec "branded_id" [schemahcl.StringAttr "namespace" "XXX"]))
     = true.
Proof. repeat split; reflexivity. Qed.

Example TestToSpec :
  branded.toSpec (Some (branded.asType (branded.BrandedID "TSK")))
  = Ok (Some (brandedSpec "TSK"), None)
  /\ branded.toSpec (Some (schema.StringType "varchar" 14))
     = Ok (None,
           Some (schemahcl.Errorf
                   "branded: expected *BrandedIDType, got *schema.StringType")).
Proof. repeat split; reflexivity. Qed.

End Tests.


(** * Further properties of the embedded code *)

(** ** Column names *)

Lemma HasSuffix_iff (s suffix : string) :
  strings.HasSuffix s suffix = true <-> exists p, s = p ++ suffix.
Proof.
  unfold strings.HasSuffix. rewrite andb_true_iff, Nat.leb_le, String.eqb_eq. split.
  - intros [Hl Hd]. exists (take (String.length s - String.length suffix) s).
    rewrite <- Hd at 2. now rewrite take_drop.
  - intros [p ->]. rewrite length_append. split; [lia|].
    replace (String.length p + String.length suffix - String.length suffix)
      with (String.length p) by lia.
    apply drop_app.
Qed.

Lemma isValidColumnName_eq (U : Unicode) (v : validator.Validator)
    (colName : string) (ns : fiberfx.Namespace) :
  validator.isValidColumnName v colName ns
  = String.eqb colName "id" || strings.HasSuffix colName "_id".
Proof.
  unfold validator.isValidColumnName.
  destruct (String.eqb colName "id"); [reflexivity|]. cbn [orb].
  destruct (String.eqb_spec colName (strings.ToLower ns ++ "_id")) as [->|_].
  - symmetry. apply HasSuffix_iff. now exists (strings.ToLower ns).
  - now destruct (strings.HasSuffix colName "_id").
Qed.

(** X1. The naming convention does not depend on the namespace: a column
    name is accepted exactly when it is [id] or ends in [_id]; the test
    against the lower-cased namespace followed by [_id] never decides. *)
Theorem isValidColumnName_suffix (U : Unicode) (v : validator.Validator)
    (colName : string) (ns : fiberfx.Namespace) :
  (validator.isValidColumnName v colName ns = true
   <-> colName = "id" \/ exists p, colName = p ++ "_id")
  /\ (forall ns', validator.isValidColumnName v colName ns'
                  = validator.isValidColumnName v colName ns).
Proof.
  split.
  - rewrite isValidColumnName_eq, orb_true_iff, String.eqb_eq, HasSuffix_iff. tauto.
  - intros ns'. now rewrite !isValidColumnName_eq.
Qed.

(** ** Column validation under every option *)
Section ColumnValidation.
Context {U : Unicode} {R : fiberfx.Registry}.

Lemma ValidateColumn_not_branded (v : validator.Validator) (table : string)
    (col : schema.Column) :
  NotBranded col -> validator.ValidateColumn v table col = Ok [].
Proof.
  intros (ct & Hc & Hn). unfold validator.ValidateColumn. rewrite Hc.
  cbn [deref bind]. now rewrite (assertBranded_NotBranded _ Hn).
Qed.

End ColumnValidation.

Lemma ValidateColumn_of_branded (U : Unicode) (R : fiberfx.Registry)
    (v : validator.Validator) (table : string) (col : schema.Column) (ns : string)
    (Hb : Branded col ns) :
  validator.ValidateColumn v table col
  = Ok ((if validator.strict v && negb (fiberfx.IsValidNamespace ns)
         then [columnError table col
                 ("unknown namespace " ++ strconv.Quote ns ++ "; valid: "
                  ++ fmt.bracket fiberfx.AllNamespaces)]
         else [])
        ++ (if validator.checkNaming v
               && negb (String.eqb (schema.Column_Name col) "id"
                        || strings.HasSuffix (schema.Column_Name col) "_id")
            then [columnError table col
                    ("recommended naming is 'id' or '" ++ strings.ToLower ns
                     ++ "_id'")]
            else []))%list.
Proof.
  destruct Hb as (ct & Hc & Ht). unfold validator.ValidateColumn. rewrite Hc.
  cbn [deref bind]. rewrite (assertBranded_Branded _ _ Ht). cbn [branded.Namespace].
  rewrite Sprintf_unknown_namespace, Sprintf_naming.
  rewrite isValidColumnName_eq.
  unfold columnError.
  destruct (validator.strict v && negb (fiberfx.IsValidNamespace ns));
    cbn [bind app];
    destruct (validator.checkNaming v && _); reflexivity.
Qed.

(** X2. For a column of branded type, under every combination of options,
    [ValidateColumn] returns the unknown-namespace error when the validator
    is strict and the namespace is not valid, followed by the naming
    warning when the naming check is on and the column name is neither [id]
    nor ends in [_id]; both are tagged with the table and the column and
    carry no foreign key; nothing else is returned. *)
Theorem ValidateColumn_branded (U : Unicode) (R : fiberfx.Registry)
    (v : validator.Validator) (table : string) (col : schema.Column) (ns : string)
    (Hb : Branded col ns) :
  validator.ValidateColumn v table col
  = Ok ((if validator.strict v && negb (fiberfx.IsValidNamespace ns)
         then [columnError table col
                 ("unknown namespace " ++ strconv.Quote ns ++ "; valid: "
                  ++ fmt.bracket fiberfx.AllNamespaces)]
         else [])
        ++ (if validator.checkNaming v
               && negb (String.eqb (schema.Column_Name col) "id"
                        || strings.HasSuffix (schema.Column_Name col) "_id")
            then [columnError table col
                    ("recommended naming is 'id' or '" ++ strings.ToLower ns
                     ++ "_id'")]
            else []))%list.
Proof. exact (ValidateColumn_of_branded U R v table col ns Hb). Qed.

(** ** Foreign keys *)
Section ForeignKeyFacts.
Context {U : Unicode}.

Lemma checkPair_at_most_one (symbol : string) (col ref : schema.Column)
    (es : list validator.ValidationError) :
  validator.checkPair symbol col ref [] = Ok es ->
  List.length es <= 1
  /\ Forall (fun e => validator.Table e = "" /\ validator.Column e = ""
                      /\ validator.FK e = symbol) es.
Proof.
  unfold validator.checkPair.
  destruct (schema.Column_Type col) as [ct|]; cbn [deref bind]; [|discriminate].
  destruct (branded.assertBranded _) as [bt|];
    [|intros [= <-]; split; [simpl; lia | constructor]].
  destruct (schema.Column_Type ref) as [rct|]; cbn [deref bind]; [|discriminate].
  destruct (branded.assertBranded _) as [rbt|].
  - rewrite Sprintf_mismatch. destruct (negb _); cbn [bind app];
      intros [= <-]; split; simpl; try lia; repeat constructor.
  - rewrite Sprintf_not_branded. cbn [bind app].
    intros [= <-]; split; simpl; try lia; repeat constructor.
Qed.

Lemma mapM_pairs_bound (symbol : string)
    (l : list (schema.Column * schema.Column))
    (xs : list (list validator.ValidationError)) :
  mapM (fun '(col, ref) => validator.checkPair symbol col ref []) l = Ok xs ->
  List.length (concat xs) <= List.length l
  /\ Forall (fun e => validator.Table e = "" /\ validator.Column e = ""
                      /\ validator.FK e = symbol) (concat xs).
Proof.
  revert xs; induction l as [|[c r] l IH]; intros xs H; simpl in H.
  - injection H as <-. split; [simpl; lia | constructor].
  - destruct (validator.checkPair symbol c r []) as [y| |] eqn:Hy; try discriminate.
    destruct (mapM _ l) as [ys| |]; try discriminate. cbn [bind] in H.
    injection H as <-. destruct (IH _ eq_refl) as [Hl Hf].
    destruct (checkPair_at_most_one _ _ _ _ Hy) as [Hy1 Hy2].
    cbn [concat]. rewrite length_app. split; [simpl; lia|].
    apply Forall_app. auto.
Qed.

Lemma combine_truncated {A B : Type} (l : list A) (l' : list B) :
  let n := Nat.min (List.length l) (List.length l') in
  combine (firstn n l) (firstn n l') = combine l l'.
Proof.
  revert l'; induction l as [|a l IH]; intros [|b l']; simpl; try reflexivity.
  f_equal. apply IH.
Qed.

Lemma checkPair_self (symbol : string) (col : schema.Column) :
  Typed col -> validator.checkPair symbol col col [] = Ok [].
Proof.
  unfold Typed, validator.checkPair. intros H.
  destruct (schema.Column_Type col) as [ct|]; [|congruence]. cbn [deref bind].
  destruct (branded.assertBranded _) as [bt|]; [|reflexivity].
  now rewrite String.eqb_refl.
Qed.

End ForeignKeyFacts.

(** X3. [ValidateForeignKey] only looks at the pairs of columns of the same
    index: columns beyond the shorter of the two lists are ignored, so a
    foreign key without referencing or without referenced columns yields no
    error (and no panic, whatever the columns); and it returns at most one
    error per pair, each with the symbol of the key and no table or column
    tag. *)
Theorem ValidateForeignKey_bounds (U : Unicode) (v : validator.Validator)
    (fk : schema.ForeignKey) :
  validator.ValidateForeignKey v fk = validator.ValidateForeignKey v (truncated fk)
  /\ (schema.ForeignKey_Columns fk = [] \/ schema.ForeignKey_RefColumns fk = [] ->
      validator.ValidateForeignKey v fk = Ok [])
  /\ (forall errs, validator.ValidateForeignKey v fk = Ok errs ->
        List.length errs <= Nat.min (List.length (schema.ForeignKey_Columns fk))
                                    (List.length (schema.ForeignKey_RefColumns fk))
        /\ Forall (fun e => validator.Table e = "" /\ validator.Column e = ""
                            /\ validator.FK e = schema.ForeignKey_Symbol fk) errs).
Proof.
  split; [|split].
  - rewrite !ValidateForeignKey_mapM. unfold truncated.
    cbn [schema.ForeignKey_Symbol schema.ForeignKey_Columns schema.ForeignKey_RefColumns].
    now rewrite combine_truncated.
  - rewrite ValidateForeignKey_mapM. intros [-> | ->]; [reflexivity|].
    now rewrite combine_nil.
  - intros errs. rewrite ValidateForeignKey_mapM. unfold fmap.
    destruct (mapM _ _) as [xs| |] eqn:Hm; cbn [bind]; try discriminate.
    intros [= <-]. destruct (mapM_pairs_bound _ _ _ Hm) as [Hl Hf].
    rewrite length_combine in Hl. auto.
Qed.

(** X4. A foreign key whose referenced columns are its referencing columns
    themselves (every column paired with itself) yields no error, provided
    the columns have a type. *)
Theorem ValidateForeignKey_self (U : Unicode) (v : validator.Validator)
    (symbol : string) (cols : list schema.Column) (Ht : Forall Typed cols) :
  validator.ValidateForeignKey v
    {| schema.ForeignKey_Symbol := symbol;
       schema.ForeignKey_Columns := cols;
       schema.ForeignKey_RefColumns := cols |}
  = Ok [].
Proof.
  rewrite ValidateForeignKey_mapM.
  cbn [schema.ForeignKey_Symbol schema.ForeignKey_Columns schema.ForeignKey_RefColumns].
  induction Ht as [|c cols Hc _ IH]; [reflexivity|].
  cbn [combine mapM]. rewrite (checkPair_self _ _ Hc). cbn [bind].
  unfold fmap in *. destruct (mapM _ _) as [xs| |]; cbn [bind] in *; try discriminate.
  injection IH as IH. cbn [concat]. now rewrite IH.
Qed.

(** ** Schemas without branded columns *)
Section PlainSchemas.
Context {U : Unicode} {R : fiberfx.Registry}.

Lemma mapM_all_nil {A E : Type} (f : A -> result (list E)) (l : list A) :
  Forall (fun a => f a = Ok []) l ->
  fmap (@concat _) (mapM f l) = Ok [].
Proof.
  induction 1 as [|a l Ha _ IH]; [reflexivity|].
  cbn [mapM]. rewrite Ha. cbn [bind]. unfold fmap in *.
  destruct (mapM f l) as [xs| |]; cbn [bind] in *; try discriminate.
  injection IH as IH. cbn [concat]. now rewrite IH.
Qed.

Lemma ValidateForeignKey_plain (v : validator.Validator) (fk : schema.ForeignKey) :
  PlainForeignKey fk -> validator.ValidateForeignKey v fk = Ok [].
Proof.
  intros H. rewrite ValidateForeignKey_mapM. apply mapM_all_nil.
  apply Forall_forall. intros [c r] Hin. apply checkPair_not_branded.
  unfold PlainForeignKey in H. rewrite Forall_forall in H. apply H.
  eapply in_combine_l; eauto.
Qed.

Lemma ValidateTable_mapM (v : validator.Validator) (t : schema.Table) :
  validator.ValidateTable v t
  = (cs <- mapM (validator.ValidateColumn v (schema.Table_Name t))
                (schema.Table_Columns t) ;;
     fs <- mapM (validator.ValidateForeignKey v) (schema.Table_ForeignKeys t) ;;
     Ok (concat cs ++ concat fs)%list).
Proof.
  unfold validator.ValidateTable. rewrite forEach_append, bind_assoc.
  destruct (mapM _ (schema.Table_Columns t)) as [cs| |]; cbn [bind]; auto.
  now rewrite forEach_append.
Qed.

Lemma ValidateTable_plain (v : validator.Validator) (t : schema.Table) :
  PlainTable t -> validator.ValidateTable v t = Ok [].
Proof.
  intros [Hc Hf]. rewrite ValidateTable_mapM.
  pose proof (mapM_all_nil (validator.ValidateColumn v (schema.Table_Name t))
                (schema.Table_Columns t)) as H1.
  pose proof (mapM_all_nil (validator.ValidateForeignKey v)
                (schema.Table_ForeignKeys t)) as H2.
  unfold fmap in H1, H2.
  destruct (mapM _ (schema.Table_Columns t)) as [cs| |]; cbn [bind] in *.
  - destruct (mapM _ (schema.Table_ForeignKeys t)) as [fs| |]; cbn [bind] in *.
    + assert (E1 : Ok (concat cs) = Ok (@nil validator.ValidationError)).
      { apply H1. eapply Forall_impl; [|exact Hc]. intros c. apply ValidateColumn_not_branded. }
      assert (E2 : Ok (concat fs) = Ok (@nil validator.ValidationError)).
      { apply H2. eapply Forall_impl; [|exact Hf]. intros fk. apply ValidateForeignKey_plain. }
      injection E1 as ->. injection E2 as ->. reflexivity.
    + exfalso. assert (E : @Panic (list validator.ValidationError) = Ok []);
        [|discriminate].
      apply H2. eapply Forall_impl; [|exact Hf]. intros fk. apply ValidateForeignKey_plain.
    + exfalso. assert (E : @Unmodelled (list validator.ValidationError) = Ok []);
        [|discriminate].
      apply H2. eapply Forall_impl; [|exact Hf]. intros fk. apply ValidateForeignKey_plain.
  - exfalso. assert (E : @Panic (list validator.ValidationError) = Ok []);
      [|discriminate].
    apply H1. eapply Forall_impl; [|exact Hc]. intros c. apply ValidateColumn_not_branded.
  - exfalso. assert (E : @Unmodelled (list validator.ValidationError) = Ok []);
      [|discriminate].
    apply H1. eapply Forall_impl; [|exact Hc]. intros c. apply ValidateColumn_not_branded.
Qed.

End PlainSchemas.

(** X5. A schema none of whose columns is branded validates clean under
    every combination of options: [ValidateSchema] returns the empty list,
    whatever the referenced columns of its foreign keys are. *)
Theorem ValidateSchema_plain (U : Unicode) (R : fiberfx.Registry)
    (v : validator.Validator) (s : schema.Schema) (Hs : PlainSchema s) :
  validator.ValidateSchema v s = Ok [].
Proof.
  unfold validator.ValidateSchema. rewrite forEach_append. cbn [app].
  apply (mapM_all_nil (validator.ValidateTable v)).
  eapply Forall_impl; [|exact Hs]. intros t. apply ValidateTable_plain.
Qed.

(** ** The errors of [ValidateValue] *)
Section ValueErrors.
Context {U : Unicode}.

(** The result of [ValidateValue], test by test. *)
Lemma ValidateValue_eq (v : validator.Validator) (value expected : string) :
  validator.ValidateValue v value expected
  = Ok (if negb (String.length value =? 14)%nat then
          Some ("branded ID must be 14 characters, got "
                ++ strconv.Itoa (Z.of_nat (String.length value)))
        else if negb (fiberfx.Valid value) then
          Some ("branded ID " ++ strconv.Quote value ++ " has invalid format")
        else if negb (String.eqb expected "")
                && negb (String.eqb (take 3 value) expected) then
          Some ("expected namespace " ++ strconv.Quote expected ++ ", got "
                ++ strconv.Quote (take 3 value))
        else None).
Proof.
  unfold validator.ValidateValue, fiberfx.BrandedLen, fiberfx.NamespaceLen.
  rewrite Sprintf_length_message, Sprintf_format_message, Sprintf_namespace_message.
  cbn [bind].
  destruct (negb (String.length value =? 14)%nat); [reflexivity|].
  destruct (negb (fiberfx.Valid value)); [reflexivity|].
  destruct (negb (String.eqb expected "")); [|reflexivity]. cbn [andb].
  now destruct (negb (String.eqb (take 3 value) expected)).
Qed.

Lemma BrandedSyntax_prefix (value : string) :
  BrandedSyntax value -> Upper3 (take 3 value).
Proof.
  intros (ns & payload & -> & Hu & _). destruct Hu as [Hl Ha].
  rewrite <- Hl, take_app. now split.
Qed.

End ValueErrors.


(** X7. An expected namespace that is neither empty nor made of 3
    upper-case letters rejects every value; and a value accepted for an
    expected namespace is accepted as well without one and for the
    namespace of its own first 3 characters. *)
Theorem ValidateValue_expected (U : Unicode) (v : validator.Validator)
    (value expected : string) :
  (expected <> "" -> ~ Upper3 expected ->
   exists msg, validator.ValidateValue v value expected = Ok (Some msg))
  /\ (validator.ValidateValue v value expected = Ok None ->
      validator.ValidateValue v value "" = Ok None
      /\ validator.ValidateValue v value (take 3 value) = Ok None).
Proof.
  rewrite !ValidateValue_eq.
  destruct (negb (String.length value =? 14)%nat);
    [split; [eauto | discriminate]|].
  destruct (fiberfx.Valid value) eqn:Hv; cbn [negb];
    [|split; [eauto | discriminate]].
  apply Valid_iff in Hv. apply BrandedSyntax_prefix in Hv.
  split.
  - intros He Hn. destruct (String.eqb_spec expected ""); [contradiction|].
    destruct (String.eqb_spec (take 3 value) expected) as [E|_]; [|cbn; eauto].
    rewrite E in Hv. contradiction.
  - intros _. rewrite !String.eqb_refl. cbn [negb andb].
    now rewrite andb_false_r.
Qed.

(** ** Printing the errors *)
Section ErrorText.
Context {U : Unicode} {R : fiberfx.Registry}.

Lemma Sprintf_fk_error (fk msg : string) :
  fmt.Sprintf "FK %q: %s" [fmt.AString fk; fmt.AString msg]
  = Ok ("FK " ++ strconv.Quote fk ++ ": " ++ msg).
Proof. sprintf. Qed.

Lemma Sprintf_column_error (table col msg : string) :
  fmt.Sprintf "column %q.%q: %s" [fmt.AString table; fmt.AString col; fmt.AString msg]
  = Ok ("column " ++ strconv.Quote table ++ "." ++ strconv.Quote col ++ ": " ++ msg).
Proof. sprintf. Qed.

(** Every error of [ValidateColumn] is tagged with the table and the
    column, and with no foreign key. *)
Lemma ValidateColumn_tags (v : validator.Validator) (table : string)
    (col : schema.Column) (errs : list validator.ValidationError) :
  validator.ValidateColumn v table col = Ok errs ->
  Forall (fun e => validator.Table e = table
                   /\ validator.Column e = schema.Column_Name col
                   /\ validator.FK e = "") errs.
Proof.
  unfold validator.ValidateColumn.
  destruct (schema.Column_Type col) as [ct|]; cbn [deref bind]; [|discriminate].
  destruct (branded.assertBranded _) as [bt|]; [|intros [= <-]; constructor].
  rewrite Sprintf_unknown_namespace, Sprintf_naming.
  destruct (validator.strict v && _); cbn [bind app];
    destruct (validator.checkNaming v && _); cbn [bind app];
    intros [= <-]; repeat constructor.
Qed.

End ErrorText.

(** X8. How the errors of the validator print.  An error of
    [ValidateForeignKey] prints as [FK], the quoted symbol, a colon and the
    message; when the symbol of the foreign key is empty only the message
    is printed.  An error of [ValidateColumn] prints as [column], the
    quoted table and column names separated by a dot, a colon and the
    message; when the name of the column is empty only the message is
    printed. *)
Theorem Error_of_validation (U : Unicode) (R : fiberfx.Registry)
    (v : validator.Validator) :
  (forall fk errs e,
     validator.ValidateForeignKey v fk = Ok errs -> In e errs ->
     validator.Error e
     = if String.eqb (schema.ForeignKey_Symbol fk) "" then Ok (validator.Message e)
       else Ok ("FK " ++ strconv.Quote (schema.ForeignKey_Symbol fk) ++ ": "
                ++ validator.Message e))
  /\ (forall table col errs e,
        validator.ValidateColumn v table col = Ok errs -> In e errs ->
        validator.Error e
        = if String.eqb (schema.Column_Name col) "" then Ok (validator.Message e)
          else Ok ("column " ++ strconv.Quote table ++ "."
                   ++ strconv.Quote (schema.Column_Name col) ++ ": "
                   ++ validator.Message e)).
Proof.
  split.
  - intros fk errs e Hv He. rewrite ValidateForeignKey_mapM in Hv. unfold fmap in Hv.
    destruct (mapM _ _) as [xs| |] eqn:Hm; cbn [bind] in Hv; try discriminate.
    injection Hv as <-. destruct (mapM_pairs_bound _ _ _ Hm) as [_ Hf].
    rewrite Forall_forall in Hf. destruct (Hf e He) as (Ht & Hc & Hk).
    unfold validator.Error. rewrite Hk, Hc, Sprintf_fk_error.
    destruct (String.eqb (schema.ForeignKey_Symbol fk) ""); reflexivity.
  - intros table col errs e Hv He. apply ValidateColumn_tags in Hv.
    rewrite Forall_forall in Hv. destruct (Hv e He) as (Ht & Hc & Hk).
    unfold validator.Error. rewrite Hk, Hc, Ht, Sprintf_column_error.
    cbn [String.eqb negb].
    destruct (String.eqb (schema.Column_Name col) ""); reflexivity.
Qed.

(** ** Comments, again *)

Lemma prefix_of_app (a b c x : string) :
  a ++ b = c ++ x -> String.length a <= String.length c -> exists d, c = a ++ d.
Proof.
  revert c; induction a as [|ch a IH]; intros c H Hl.
  - now exists c.
  - destruct c as [|ch' c]; [simpl in Hl; lia|].
    simpl in H. injection H as -> H. simpl in Hl.
    destruct (IH c H ltac:(lia)) as [d ->]. now exists d.
Qed.

Lemma MarkerAt_length (comment pre ns post : string) :
  MarkerAt comment pre ns post ->
  String.length comment = String.length pre + 14 + String.length post.
Proof.
  intros [-> [Hl _]]. rewrite !length_append, Hl. simpl. lia.
Qed.

(** The first marker of a comment stays the first one when text is
    appended. *)
Lemma FirstMarker_app (comment ns x : string) :
  FirstMarker comment ns -> FirstMarker (comment ++ x) ns.
Proof.
  intros (pre & post & Hat & Hmin). exists pre, (post ++ x). split.
  - destruct Hat as [-> Hu]. split; [|exact Hu]. now rewrite !append_assoc.
  - intros pre' ns' post' Hat'.
    destruct (Nat.le_gt_cases (String.length pre) (String.length pre')) as [|Hlt];
      [assumption|exfalso].
    pose proof (MarkerAt_length _ _ _ _ Hat) as Hlen.
    destruct Hat' as [E Hu'].
    assert (E' : (pre' ++ branded.CommentMarker ++ ns') ++ post' = comment ++ x)
      by (now rewrite !append_assoc).
    apply prefix_of_app in E'.
    + destruct E' as [d Hd]. rewrite !append_assoc in Hd.
      assert (Hm : MarkerAt comment pre' ns' d) by (now split).
      apply Hmin in Hm. lia.
    + destruct Hu' as [Hl' _]. rewrite !length_append, Hl'. simpl. lia.
Qed.

(** X9. [ParseComment] returns either a namespace of 3 upper-case letters
    with [true], or the empty namespace with [false]; a comment shorter
    than the 14 bytes of a marker never has a namespace; and the namespace
    found in a comment is still the one found after any text is appended to
    the comment. *)
Theorem ParseComment_stable :
  (forall comment ns ok,
     branded.ParseComment comment = (ns, ok) ->
     (ok = true /\ Upper3 ns) \/ (ok = false /\ ns = ""))
  /\ (forall comment ns,
        branded.ParseComment comment = (ns, true) -> 14 <= String.length comment)
  /\ (forall comment ns x,
        branded.ParseComment comment = (ns, true) ->
        branded.ParseComment (comment ++ x) = (ns, true)).
Proof.
  split; [|split].
  - intros comment ns ok H.
    destruct (ParseComment_cases comment) as [[Hp _]|(ns0 & Hp & Hf)];
      rewrite Hp in H; injection H as <- <-; [now right|left].
    destruct Hf as (pre & post & [_ Hu] & _). now split.
  - intros comment ns H. apply ParseComment_first in H.
    destruct H as (pre & post & Hat & _). apply MarkerAt_length in Hat. lia.
  - intros comment ns x H. apply ParseComment_first.
    apply FirstMarker_app. now apply ParseComment_first.
Qed.

(** ** The branded type *)

(** X10. [Is] holds exactly between a branded type and the same branded
    type: never against nil or a type of another kind, and on branded types
    it is reflexive, symmetric and transitive. *)
Theorem Is_same_type :
  (forall t x, branded.Is t x = true <-> x = Some (branded.asType t))
  /\ (forall t, branded.Is t (Some (branded.asType t)) = true)
  /\ (forall t t', branded.Is t (Some (branded.asType t'))
                   = branded.Is t' (Some (branded.asType t)))
  /\ (forall t t' t'',
        branded.Is t (Some (branded.asType t')) = true ->
        branded.Is t' (Some (branded.asType t'')) = true ->
        branded.Is t (Some (branded.asType t'')) = true).
Proof.
  assert (H : forall t x, branded.Is t x = true <-> x = Some (branded.asType t)).
  { intros [ns] x. unfold branded.Is, branded.asType.
    destruct x as [[| | |ns'|]|]; cbn;
      try (split; [discriminate | intros [= ]]).
    rewrite String.eqb_eq. split; [now intros -> | now intros [= ->]]. }
  split; [exact H|]. split; [|split].
  - intros t. now apply H.
  - intros [a] [b]. cbn. apply String.eqb_sym.
  - intros t t' t'' H1 H2. apply H in H1, H2. apply H. congruence.
Qed.

Section Normalization.
Context {U : Unicode}.

Lemma byteZ_byteOfZ (z : Z) : (0 <= z < 256)%Z -> byteZ (byteOfZ z) = z.
Proof.
  intros H. unfold byteZ, byteOfZ. rewrite Z.mod_small by exact H.
  rewrite N_ascii_embedding.
  - apply Z2N.id. lia.
  - change 256%N with (Z.to_N 256). apply Z2N.inj_lt; lia.
Qed.

Lemma upperByte_spec (c : ascii) :
  (byteZ c < 128)%Z ->
  (byteZ (upperByte c) < 128)%Z /\ isLower (upperByte c) = false
  /\ (isLower c = true -> upperByte c <> c).
Proof.
  intros Ha. unfold upperByte. destruct (isLower c) eqn:Hl.
  - apply between_iff in Hl.
    assert (Hz : byteZ (byteOfZ (byteZ c - 32)) = (byteZ c - 32)%Z)
      by (apply byteZ_byteOfZ; lia).
    split; [lia|]. split.
    + unfold isLower, between. rewrite Hz. apply andb_false_iff. left.
      apply Z.leb_gt. lia.
    + intros _ E. rewrite E in Hz. lia.
  - split; [exact Ha|]. split; [exact Hl | discriminate].
Qed.

Lemma asciiUpper_spec (s : string) :
  isASCII s = true ->
  isASCII (asciiUpper s) = true /\ existsb_s isLower (asciiUpper s) = false
  /\ (asciiUpper s = s -> existsb_s isLower s = false).
Proof.
  unfold isASCII, asciiUpper. induction s as [|c s IH]; simpl; [auto|].
  rewrite andb_true_iff, Z.ltb_lt. intros [Hc Hs].
  destruct (upperByte_spec c Hc) as (H1 & H2 & H3).
  destruct (IH Hs) as (I1 & I2 & I3).
  rewrite I1, I2, H2. split; [|split; [reflexivity|]].
  - rewrite andb_true_r. now apply Z.ltb_lt.
  - intros [= Ec Es]. rewrite (I3 Es), orb_false_r.
    destruct (isLower c); [destruct (H3 eq_refl Ec) | reflexivity].
Qed.

End Normalization.

(** X11. On an ASCII argument [BrandedID] is idempotent: building a
    branded type from the namespace of a branded type changes nothing; and
    [BrandedID(ns)] and [BrandedIDFromNamespace(ns)] are the same type
    exactly when [ns] has no lower-case letter. *)
Theorem BrandedID_idempotent (U : Unicode) (ns : string)
    (Hascii : isASCII ns = true) :
  branded.BrandedID (branded.Namespace (branded.BrandedID ns)) = branded.BrandedID ns
  /\ (branded.BrandedID ns = branded.BrandedIDFromNamespace ns
      <-> existsb_s isLower ns = false).
Proof.
  destruct (asciiUpper_spec ns Hascii) as (H1 & H2 & H3).
  unfold branded.BrandedID, branded.BrandedIDFromNamespace. cbn [branded.Namespace].
  rewrite (ToUpper_ascii ns Hascii). split.
  - f_equal. rewrite (ToUpper_ascii _ H1). now apply map_upperByte_id.
  - split.
    + intros [= E]. now apply H3.
    + intros Hl. f_equal. now apply map_upperByte_id.
Qed.

Section Expressions.
Context {U : Unicode}.

Lemma Sprintf_check_expr (column ns : string) :
  fmt.Sprintf "%s ~ '^%s[0-9A-Za-z]{11}$'" [fmt.AString column; fmt.ANamespace ns]
  = Ok (checkPattern column ns).
Proof. sprintf. Qed.

End Expressions.

(** X12. The helper [CheckConstraintExpr] and the constraint generator
    agree on the expression, although they disagree on the name: for a
    branded column that is not nullable an enabled generator gives the
    expression of the helper for the name of the column and its namespace,
    and for a nullable one the same expression after [IS NULL OR]. *)
Theorem CheckConstraintExpr_generated (U : Unicode)
    (g : postgres.BrandedConstraintGenerator) (t : string) (col : schema.Column)
    (ct : schema.ColumnType) (ns name : string)
    (He : postgres.enabled (postgres.config g) = true)
    (Hc : schema.Column_Type col = Some ct)
    (Hb : schema.ColumnType_Type ct = Some (schema.BrandedIDType ns))
    (Hn : fmt.Sprintf (postgres.constraintFmt (postgres.config g))
            [fmt.AString t; fmt.AString (schema.Column_Name col)] = Ok name) :
  exists e,
    branded.CheckConstraintExpr (schema.Column_Name col) ns = Ok e
    /\ fmap (option_map schema.Check_Expr) (postgres.GenerateForColumn g t col)
       = Ok (Some (if schema.ColumnType_Null ct
                   then schema.Column_Name col ++ " IS NULL OR " ++ e
                   else e)).
Proof.
  exists (checkPattern (schema.Column_Name col) ns). split.
  - apply Sprintf_check_expr.
  - rewrite (GenerateForColumn_branded g t col ct ns name He Hc Hb Hn).
    reflexivity.
Qed.

(** ** Inspected columns, again *)

Lemma ParseComment_formatted (ns : string) :
  Upper3 ns -> branded.ParseComment ("branded_id:" ++ ns) = (ns, true).
Proof.
  intros Hu. apply ParseComment_first. exists "", "".
  split; [|intros; simpl; lia].
  apply MarkerAt_nil_prefix. now rewrite append_nil_r.
Qed.

Lemma GetBrandedIDNamespace_iff (c : schema.Column) (ns : string) :
  postgres.GetBrandedIDNamespace c = (ns, true) <-> Branded c ns.
Proof.
  unfold postgres.GetBrandedIDNamespace, Branded.
  destruct (schema.Column_Type c) as [ct|].
  - destruct (schema.ColumnType_Type ct) as [[| | |ns'|]|] eqn:Ht; cbn;
      try (split; [discriminate | intros (ct' & [= <-] & H); congruence]).
    split.
    + intros [= ->]. now exists ct.
    + intros (ct' & [= <-] & H). rewrite Ht in H. now injection H as ->.
  - split; [discriminate | intros (ct' & H & _); discriminate].
Qed.

Lemma IsBrandedIDColumn_iff (c : schema.Column) :
  postgres.IsBrandedIDColumn c = true <-> exists ns, Branded c ns.
Proof.
  unfold postgres.IsBrandedIDColumn, Branded.
  destruct (schema.Column_Type c) as [ct|].
  - destruct (schema.ColumnType_Type ct) as [[| | |ns'|]|] eqn:Ht; cbn;
      try (split; [discriminate | intros (ns & ct' & [= <-] & H); congruence]).
    split; [intros _; now exists ns', ct | reflexivity].
  - split; [discriminate | intros (ns & ct' & H & _); discriminate].
Qed.

(** A column of branded type is not touched by the conversion. *)
Lemma convertBrandedIDColumn_branded (c : schema.Column) (ns : string) :
  Branded c ns -> postgres.convertBrandedIDColumn c = c.
Proof.
  intros (ct & Hc & Ht). unfold postgres.convertBrandedIDColumn. rewrite Hc, Ht.
  destruct (String.eqb _ ""); [reflexivity|].
  destruct (branded.ParseComment _) as [ns' ok]. now destruct ok.
Qed.

Lemma convertBrandedIDColumn_converted (c : schema.Column) (ct : schema.ColumnType)
    (ns : string) :
  Branded
    (schema.Column_setType c
       (Some (schema.ColumnType_setType ct (Some (schema.BrandedIDType ns))))) ns.
Proof. eexists. split; reflexivity. Qed.

Lemma convertBrandedIDColumn_twice (c : schema.Column) :
  postgres.convertBrandedIDColumn (postgres.convertBrandedIDColumn c)
  = postgres.convertBrandedIDColumn c.
Proof.
  destruct (convertBrandedIDColumn_cases c) as [(ct & ns & _ & _ & ->)|[_ H]].
  - eapply convertBrandedIDColumn_branded, convertBrandedIDColumn_converted.
  - now rewrite !H.
Qed.

Lemma convertBrandedIDColumn_name (c : schema.Column) :
  schema.Column_Name (postgres.convertBrandedIDColumn c) = schema.Column_Name c.
Proof.
  destruct (convertBrandedIDColumn_cases c) as [(ct & ns & _ & _ & ->)|[_ ->]];
    reflexivity.
Qed.

(** X13. The comment written by [SetBrandedIDComment] lets the inspection
    recover the type.  For every [SetComment] after which the comment of
    the column is the text set and its name and type are unchanged, and
    for a column of branded type whose namespace is 3 upper-case letters:
    [SetBrandedIDComment] sets the comment [branded_id:NS], and once the
    column is stored with the underlying type [character varying(14)],
    [convertBrandedIDColumn] gives the commented column back, branded
    type included.  A column whose type is not branded is left as it
    is. *)
Theorem SetBrandedIDComment_round_trip (U : Unicode)
    (setComment : schema.Column -> string -> schema.Column)
    (Hget : forall c text, postgres.getComment (setComment c text) = text)
    (Hframe : forall c text,
        schema.Column_Name (setComment c text) = schema.Column_Name c
        /\ schema.Column_Type (setComment c text) = schema.Column_Type c)
    (c : schema.Column) :
  (forall ct ns,
     schema.Column_Type c = Some ct ->
     schema.ColumnType_Type ct = Some (schema.BrandedIDType ns) ->
     Upper3 ns ->
     exists c',
       postgres.SetBrandedIDComment setComment c = Ok c'
       /\ postgres.getComment c' = "branded_id:" ++ ns
       /\ postgres.convertBrandedIDColumn
            (schema.Column_setType c'
               (Some (schema.ColumnType_setType ct
                        (Some (branded.Underlying {| branded.Namespace := ns |})))))
          = c')
  /\ (NotBranded c -> postgres.SetBrandedIDComment setComment c = Ok c).
Proof.
  split.
  - intros ct ns Hc Ht Hu. exists (setComment c ("branded_id:" ++ ns)).
    assert (Hset : postgres.SetBrandedIDComment setComment c
                   = Ok (setComment c ("branded_id:" ++ ns))).
    { unfold postgres.SetBrandedIDComment. rewrite Hc. cbn [deref bind].
      rewrite (assertBranded_Branded _ _ Ht). cbn [branded.Namespace].
      unfold branded.FormatComment. now rewrite Sprintf_comment. }
    split; [exact Hset|]. split; [apply Hget|].
    destruct (Hframe c ("branded_id:" ++ ns)) as [_ Hty].
    pose proof (Hget c ("branded_id:" ++ ns)) as Hcom.
    destruct (setComment c ("branded_id:" ++ ns)) as [name ty attrs].
    cbn [schema.Column_Type] in Hty. rewrite Hc in Hty. subst ty.
    unfold postgres.convertBrandedIDColumn, postgres.getComment.
    cbn [schema.Column_setType schema.Column_Type schema.Column_Attrs
         schema.Column_Name].
    unfold postgres.getComment in Hcom. cbn [schema.Column_Attrs] in Hcom.
    rewrite Hcom.
    rewrite (ParseComment_formatted _ Hu).
    cbn [String.eqb Ascii.eqb Bool.eqb append branded.CommentMarker negb
         schema.ColumnType_setType schema.ColumnType_Type branded.Underlying
         postgres.isBrandedIDCompatible Z.eqb Pos.eqb
         schema.ColumnType_Raw schema.ColumnType_Null
         branded.asType branded.BrandedIDFromNamespace branded.Namespace].
    destruct ct as [ty raw null]. cbn in Ht. subst ty. reflexivity.
  - intros (ct & Hc & Hn). unfold postgres.SetBrandedIDComment. rewrite Hc.
    cbn [deref bind]. now rewrite (assertBranded_NotBranded _ Hn).
Qed.

(** X14. The conversion is idempotent and keeps the names: converting a
    column, the columns of a table or of a schema a second time changes
    nothing, and the names of the tables and of the columns, and the number
    of columns, are those before the conversion. *)
Theorem ConvertBrandedIDColumns_idempotent :
  (forall c,
     postgres.convertBrandedIDColumn (postgres.convertBrandedIDColumn c)
     = postgres.convertBrandedIDColumn c)
  /\ (forall t,
        let t' := postgres.ConvertBrandedIDColumnsInTable t in
        schema.Table_Columns (postgres.ConvertBrandedIDColumnsInTable t')
        = schema.Table_Columns t'
        /\ schema.Table_Name t' = schema.Table_Name t
        /\ List.map schema.Column_Name (schema.Table_Columns t')
           = List.map schema.Column_Name (schema.Table_Columns t))
  /\ (forall s,
        let s' := postgres.ConvertBrandedIDColumns s in
        List.map schema.Table_Columns
          (schema.Schema_Tables (postgres.ConvertBrandedIDColumns s'))
        = List.map schema.Table_Columns (schema.Schema_Tables s')
        /\ List.map schema.Table_Name (schema.Schema_Tables s')
           = List.map schema.Table_Name (schema.Schema_Tables s)).
Proof.
  assert (Ht : forall t,
    schema.Table_Columns
      (postgres.ConvertBrandedIDColumnsInTable (postgres.ConvertBrandedIDColumnsInTable t))
    = schema.Table_Columns (postgres.ConvertBrandedIDColumnsInTable t)).
  { intros t. cbn. rewrite map_map. apply map_ext.
    intros c. apply convertBrandedIDColumn_twice. }
  split; [exact convertBrandedIDColumn_twice|]. split.
  - intros t t'. subst t'. split; [apply Ht|]. split; [reflexivity|].
    cbn. rewrite map_map. apply map_ext. intros c. apply convertBrandedIDColumn_name.
  - intros s s'. subst s'. cbn. rewrite !map_map. split.
    + apply map_ext. intros t. apply Ht.
    + reflexivity.
Qed.

(** X15. The conversion only ever brands: a column of branded type is left
    as it is, with its namespace; and after the conversion a column is
    branded with namespace [NS] exactly when it was so before or was
    eligible for [NS] (a string type of size 14 and [NS] the first marker of
    its comment). *)
Theorem convertBrandedIDColumn_brands (c : schema.Column) :
  (forall ns, Branded c ns -> postgres.convertBrandedIDColumn c = c)
  /\ (forall ns,
        postgres.GetBrandedIDNamespace (postgres.convertBrandedIDColumn c) = (ns, true)
        <-> postgres.GetBrandedIDNamespace c = (ns, true) \/ Eligible c ns)
  /\ (postgres.IsBrandedIDColumn (postgres.convertBrandedIDColumn c) = true
      <-> postgres.IsBrandedIDColumn c = true \/ exists ns, Eligible c ns).
Proof.
  assert (Hns : forall ns,
    postgres.GetBrandedIDNamespace (postgres.convertBrandedIDColumn c) = (ns, true)
    <-> postgres.GetBrandedIDNamespace c = (ns, true) \/ Eligible c ns).
  { intros ns. rewrite !GetBrandedIDNamespace_iff.
    destruct (convertBrandedIDColumn_cases c) as [(ct & ns0 & Hc & He & ->)|[Hno ->]].
    - split.
      + intros (ct' & [= <-] & [= <-]). now right.
      + intros [(ct' & Hc' & Ht')|He'].
        * exfalso. destruct He as [[T HT] _]. unfold schemaTypeOf in HT.
          rewrite Hc' in HT. congruence.
        * destruct He as [_ Hf], He' as [_ Hf'].
          rewrite (FirstMarker_unique _ _ _ Hf' Hf).
          apply convertBrandedIDColumn_converted.
    - split; [now left | intros [H|H]; [exact H | destruct (Hno _ H)]]. }
  split; [exact (convertBrandedIDColumn_branded c)|]. split; [exact Hns|].
  rewrite !IsBrandedIDColumn_iff. split.
  - intros [ns H]. apply GetBrandedIDNamespace_iff, Hns in H.
    destruct H as [H|H]; [left; exists ns; now apply GetBrandedIDNamespace_iff
                         | right; now exists ns].
  - intros [[ns H]|[ns H]]; exists ns; apply GetBrandedIDNamespace_iff, Hns;
      [left; now apply GetBrandedIDNamespace_iff | now right].
Qed.

(** X16. The accessors agree and are safe on a column without type:
    [GetBrandedIDNamespace] returns [(NS, true)] exactly for a column of
    branded type of namespace [NS], its flag is [IsBrandedIDColumn], and
    when the flag is false the namespace is empty; on a column whose [Type]
    is nil both answer no and [convertBrandedIDColumn] does nothing,
    whereas [SetBrandedIDComment], which has no such guard, panics. *)
Theorem GetBrandedIDNamespace_accessors (U : Unicode)
    (setComment : schema.Column -> string -> schema.Column) (c : schema.Column) :
  (forall ns, postgres.GetBrandedIDNamespace c = (ns, true) <-> Branded c ns)
  /\ snd (postgres.GetBrandedIDNamespace c) = postgres.IsBrandedIDColumn c
  /\ (postgres.IsBrandedIDColumn c = false ->
      postgres.GetBrandedIDNamespace c = ("", false))
  /\ (schema.Column_Type c = None ->
      postgres.IsBrandedIDColumn c = false
      /\ postgres.GetBrandedIDNamespace c = ("", false)
      /\ postgres.convertBrandedIDColumn c = c
      /\ postgres.SetBrandedIDComment setComment c = Panic).
Proof.
  split; [intros ns; apply GetBrandedIDNamespace_iff|].
  unfold postgres.GetBrandedIDNamespace, postgres.IsBrandedIDColumn,
    postgres.convertBrandedIDColumn, postgres.SetBrandedIDComment.
  destruct (schema.Column_Type c) as [ct|].
  - split; [|split; [|discriminate]];
      destruct (branded.assertBranded _); (reflexivity || discriminate).
  - repeat split; reflexivity.
Qed.

(** ** The constraint generator, on tables *)
Section TableConstraints.
Context {U : Unicode}.

Lemma forEach_somes {A B : Type} (f : A -> result (option B)) (l : list A)
    (acc : list B) :
  forEach l acc
    (fun checks a =>
       check <- f a ;;
       match check with
       | Some ck => Ok (checks ++ [ck])%list
       | None => Ok checks
       end)
  = cs <- mapM f l ;; Ok (acc ++ somes cs)%list.
Proof.
  revert acc. induction l as [|a l IH]; intros acc; cbn [forEach mapM].
  - cbn. now rewrite app_nil_r.
  - rewrite !bind_assoc. destruct (f a) as [[ck|]| |]; cbn [bind]; try reflexivity.
    + rewrite IH. destruct (mapM f l); cbn [bind somes]; try reflexivity.
      now rewrite <- app_assoc.
    + rewrite IH. now destruct (mapM f l).
Qed.

Lemma forEach_map {A B : Type} (f : A -> B) (body : A -> result B) (l : list A)
    (acc : list B) :
  (forall a, body a = Ok (f a)) ->
  forEach l acc (fun bs a => b <- body a ;; Ok (bs ++ [b])%list)
  = Ok (acc ++ List.map f l)%list.
Proof.
  intros H. revert acc. induction l as [|a l IH]; intros acc; cbn [forEach List.map].
  - now rewrite app_nil_r.
  - rewrite H. cbn [bind]. rewrite IH. now rewrite <- app_assoc.
Qed.

Lemma mapM_fmap {A B C : Type} (f : A -> result B) (h : B -> C) (l : list A) :
  mapM (fun a => b <- f a ;; Ok (h b)) l = bs <- mapM f l ;; Ok (List.map h bs).
Proof.
  induction l as [|a l IH]; cbn [mapM]; [reflexivity|].
  rewrite !bind_assoc. destruct (f a); cbn [bind]; try reflexivity.
  rewrite IH. now destruct (mapM f l).
Qed.

Lemma mapM_ext {A B : Type} (f g : A -> result B) (l : list A) :
  (forall a, In a l -> f a = g a) -> mapM f l = mapM g l.
Proof.
  induction l as [|a l IH]; intros H; cbn [mapM]; [reflexivity|].
  rewrite (H a (or_introl eq_refl)), IH; [reflexivity|].
  intros b Hb. apply H. now right.
Qed.

Lemma mapM_pure {A B : Type} (f : A -> B) (l : list A) :
  mapM (fun a => Ok (f a)) l = Ok (List.map f l).
Proof.
  induction l as [|a l IH]; cbn [mapM List.map]; [reflexivity|].
  cbn [bind]. now rewrite IH.
Qed.

Lemma GenerateForTable_mapM (g : postgres.BrandedConstraintGenerator)
    (t : schema.Table) :
  postgres.GenerateForTable g t
  = cs <- mapM (postgres.GenerateForColumn g (schema.Table_Name t))
            (schema.Table_Columns t) ;;
    Ok (somes cs).
Proof.
  unfold postgres.GenerateForTable.
  destruct (postgres.enabled (postgres.config g)) eqn:He; cbn [negb].
  - now rewrite forEach_somes.
  - rewrite (mapM_ext _ (fun _ => Ok None)).
    + rewrite mapM_pure. cbn [bind]. now induction (schema.Table_Columns t).
    + intros c _. now apply GenerateForColumn_disabled.
Qed.

Lemma GenerateSQL_eq (g : postgres.BrandedConstraintGenerator) (table : string)
    (col : schema.Column) :
  postgres.GenerateSQL g table col
  = check <- postgres.GenerateForColumn g table col ;;
    Ok (match check with
        | Some ck => addConstraint table ck
        | None => ""
        end).
Proof.
  unfold postgres.GenerateSQL.
  destruct (postgres.GenerateForColumn g table col) as [[ck|]| |]; cbn [bind];
    [apply Sprintf_alter_table | reflexivity..].
Qed.

Lemma filter_statements (table : string) (cs : list (option schema.Check)) :
  filter nonEmpty
    (List.map (fun check : option schema.Check =>
                 match check with
                 | Some ck => addConstraint table ck
                 | None => ""
                 end) cs)
  = List.map (addConstraint table) (somes cs).
Proof.
  induction cs as [|[ck|] cs IH]; cbn [List.map filter somes]; [reflexivity| |].
  - change (nonEmpty (addConstraint table ck)) with true. cbn iota. now rewrite IH.
  - change (nonEmpty "") with false. cbn iota. exact IH.
Qed.

End TableConstraints.

(** X17. The statements of a table are those of its columns:
    [GenerateAllSQL] returns, in the order of the columns, the statements
    that [GenerateSQL] gives for the columns of the table under the name of
    the table, those that are empty left out; it fails where the first of
    them fails.  Every statement is [ALTER TABLE] of a check that
    [GenerateForTable] returns. *)
Theorem GenerateAllSQL_per_column (U : Unicode)
    (g : postgres.BrandedConstraintGenerator) (t : schema.Table) :
  postgres.GenerateAllSQL g t
  = (sqls <- mapM (postgres.GenerateSQL g (schema.Table_Name t))
               (schema.Table_Columns t) ;;
     Ok (filter nonEmpty sqls))
  /\ postgres.GenerateAllSQL g t
     = fmap (List.map (addConstraint (schema.Table_Name t)))
         (postgres.GenerateForTable g t).
Proof.
  assert (H2 : postgres.GenerateAllSQL g t
     = fmap (List.map (addConstraint (schema.Table_Name t)))
         (postgres.GenerateForTable g t)).
  { unfold postgres.GenerateAllSQL, fmap.
    destruct (postgres.GenerateForTable g t) as [checks| |]; cbn [bind];
      try reflexivity.
    rewrite (forEach_map (addConstraint (schema.Table_Name t))); [reflexivity|].
    intros ck. apply Sprintf_alter_table. }
  split; [|exact H2].
  rewrite H2, GenerateForTable_mapM.
  rewrite (mapM_ext (postgres.GenerateSQL g (schema.Table_Name t)) _ _
             (fun c _ => GenerateSQL_eq g (schema.Table_Name t) c)).
  rewrite mapM_fmap. unfold fmap. rewrite !bind_assoc.
  destruct (mapM _ _) as [cs| |]; cbn [bind]; try reflexivity.
  now rewrite filter_statements.
Qed.

Section TableChecks.
Context {U : Unicode}.

Lemma somes_map_if {A B : Type} (p : A -> bool) (h : A -> B) (l : list A) :
  somes (List.map (fun a => if p a then Some (h a) else None) l)
  = List.map h (filter p l).
Proof.
  induction l as [|a l IH]; cbn [List.map filter somes]; [reflexivity|].
  destruct (p a); cbn [somes List.map]; now rewrite IH.
Qed.

Lemma append_cancel_r (a b post : string) : a ++ post = b ++ post -> a = b.
Proof.
  intros H. apply (append_inj_length a post b post H).
  apply (f_equal String.length) in H. rewrite !length_append in H. lia.
Qed.

Lemma placeholders_inj (pre table mid post a b : string) :
  pre ++ table ++ mid ++ a ++ post = pre ++ table ++ mid ++ b ++ post -> a = b.
Proof.
  intros H.
  apply append_inj_length in H; [|reflexivity]. destruct H as [_ H].
  apply append_inj_length in H; [|reflexivity]. destruct H as [_ H].
  apply append_inj_length in H; [|reflexivity]. destruct H as [_ H].
  exact (append_cancel_r _ _ _ H).
Qed.

Lemma NoDup_map_filter {A B : Type} (name : A -> string) (h : string -> B)
    (p : A -> bool) (l : list A) :
  (forall a b, h a = h b -> a = b) ->
  NoDup (List.map name l) ->
  NoDup (List.map (fun a => h (name a)) (filter p l)).
Proof.
  intros Hinj. induction l as [|a l IH]; cbn [List.map filter]; intros Hnd.
  - constructor.
  - apply NoDup_cons_iff in Hnd. destruct Hnd as [Hnot Hnd].
    destruct (p a); cbn [List.map]; [|now apply IH].
    constructor; [|now apply IH].
    intros Hin. apply in_map_iff in Hin. destruct Hin as (c & Hc & Hin).
    apply Hinj in Hc. apply filter_In in Hin. destruct Hin as [Hin _].
    apply Hnot. rewrite <- Hc. now apply in_map.
Qed.

Lemma GenerateForColumn_typed (g : postgres.BrandedConstraintGenerator)
    (table pre mid post : string) (col : schema.Column) :
  postgres.enabled (postgres.config g) = true ->
  postgres.constraintFmt (postgres.config g) = pre ++ "%s" ++ mid ++ "%s" ++ post ->
  NoPercent pre -> NoPercent mid -> NoPercent post ->
  Typed col ->
  postgres.GenerateForColumn g table col
  = Ok (if postgres.IsBrandedIDColumn col
        then Some (expectedCheck
                     (pre ++ table ++ mid ++ schema.Column_Name col ++ post) col)
        else None).
Proof.
  intros He Hf Hp Hm Hs Ht. unfold Typed in Ht.
  destruct (schema.Column_Type col) as [ct|] eqn:Hc; [|congruence].
  destruct (branded.assertBranded (schema.ColumnType_Type ct)) as [bt|] eqn:Hb.
  - assert (Hty : schema.ColumnType_Type ct
                  = Some (schema.BrandedIDType (branded.Namespace bt))).
    { unfold branded.assertBranded in Hb.
      destruct (schema.ColumnType_Type ct) as [[| | |ns|]|]; try discriminate.
      now injection Hb as <-. }
    rewrite (GenerateForColumn_branded g table col ct (branded.Namespace bt)
               (pre ++ table ++ mid ++ schema.Column_Name col ++ post) He Hc Hty).
    + unfold postgres.IsBrandedIDColumn, expectedCheck,
        postgres.GetBrandedIDNamespace, columnNull.
      now rewrite Hc, Hb.
    + rewrite Hf. now apply Sprintf_two_placeholders.
  - rewrite GenerateForColumn_not_branded.
    + unfold postgres.IsBrandedIDColumn. now rewrite Hc, Hb.
    + exists ct. split; [exact Hc|]. intros ns Hn. rewrite Hn in Hb. discriminate.
Qed.

End TableChecks.

(** X18. The checks of a table: for an enabled generator whose format is
    two [%s] placeholders in text free of [%], and a table all of whose
    columns have a type, [GenerateForTable] returns exactly one check per
    column of branded type, in the order of the columns and none for the
    others; each is named by the format filled with the name of the table
    and of the column, and its expression is the pattern of the namespace
    of the column, with [IS NULL OR] before it when the column is
    nullable.  When the names of the columns are distinct, so are the names
    of the checks. *)
Theorem GenerateForTable_checks (U : Unicode)
    (g : postgres.BrandedConstraintGenerator) (t : schema.Table)
    (pre mid post : string)
    (He : postgres.enabled (postgres.config g) = true)
    (Hf : postgres.constraintFmt (postgres.config g)
          = pre ++ "%s" ++ mid ++ "%s" ++ post)
    (Hp : NoPercent pre) (Hm : NoPercent mid) (Hs : NoPercent post)
    (Ht : Forall Typed (schema.Table_Columns t)) :
  exists checks,
    postgres.GenerateForTable g t = Ok checks
    /\ checks
       = List.map
           (fun c => expectedCheck
                       (pre ++ schema.Table_Name t ++ mid
                        ++ schema.Column_Name c ++ post) c)
           (filter postgres.IsBrandedIDColumn (schema.Table_Columns t))
    /\ (NoDup (List.map schema.Column_Name (schema.Table_Columns t)) ->
        NoDup (List.map schema.Check_Name checks)).
Proof.
  eexists. split; [|split; [reflexivity|]].
  - rewrite GenerateForTable_mapM.
    rewrite (mapM_ext _
               (fun c => Ok (if postgres.IsBrandedIDColumn c
                             then Some (expectedCheck
                                          (pre ++ schema.Table_Name t ++ mid
                                           ++ schema.Column_Name c ++ post) c)
                             else None))).
    + rewrite mapM_pure. cbn [bind]. now rewrite somes_map_if.
    + intros c Hin. apply GenerateForColumn_typed; try assumption.
      rewrite Forall_forall in Ht. now apply Ht.
  - intros Hnd. rewrite map_map. cbn [expectedCheck schema.Check_Name].
    apply (NoDup_map_filter schema.Column_Name
             (fun n => pre ++ schema.Table_Name t ++ mid ++ n ++ post)).
    + intros a b. apply placeholders_inj.
    + exact Hnd.
Qed.

(** X19. Options are applied in order and a disabled generator looks at
    nothing: when [WithBrandedConstraints(false)] is the last option, the
    four generating functions return no check and no statement for every
    table and column, also for a column without type; a later
    [WithConstraintFormat] sets the format and does not enable the
    generator again.  An enabled generator panics on a column whose [Type]
    is nil. *)
Theorem disabled_generator (U : Unicode)
    (opts : list postgres.BrandedConstraintOption)
    (t : schema.Table) (table : string) (col : schema.Column) :
  (forall format,
     let g := postgres.NewBrandedConstraintGenerator
                (opts ++ [postgres.WithBrandedConstraints false;
                          postgres.WithConstraintFormat format]) in
     postgres.constraintFmt (postgres.config g) = format
     /\ postgres.GenerateForColumn g table col = Ok None
     /\ postgres.GenerateSQL g table col = Ok ""
     /\ postgres.GenerateForTable g t = Ok []
     /\ postgres.GenerateAllSQL g t = Ok [])
  /\ (forall g,
        postgres.enabled (postgres.config g) = true ->
        schema.Column_Type col = None ->
        postgres.GenerateForColumn g table col = Panic
        /\ postgres.GenerateSQL g table col = Panic).
Proof.
  split.
  - intros format g.
    assert (He : postgres.enabled (postgres.config g) = false).
    { subst g. unfold postgres.NewBrandedConstraintGenerator.
      now rewrite fold_left_app. }
    split; [subst g; unfold postgres.NewBrandedConstraintGenerator;
            now rewrite fold_left_app|].
    unfold postgres.GenerateAllSQL, postgres.GenerateSQL, postgres.GenerateForTable,
      postgres.GenerateForColumn.
    rewrite He. repeat split; reflexivity.
  - intros g He Hc. unfold postgres.GenerateSQL, postgres.GenerateForColumn.
    rewrite He, Hc. split; reflexivity.
Qed.

(** ** The HCL type, again *)
Section TypeSpecFacts.
Context {U : Unicode} {R : fiberfx.Registry}.

Lemma namespaceFromAttrs_skip (pre post : list schemahcl.Attr) (a : schemahcl.Attr) :
  (forall b, In b pre -> schemahcl.Attr_K b <> "namespace") ->
  schemahcl.Attr_K a = "namespace" ->
  branded.namespaceFromAttrs (pre ++ a :: post)%list = Ok (schemahcl.Attr_String a).
Proof.
  intros Hpre Ha. induction pre as [|b pre IH]; cbn [app branded.namespaceFromAttrs].
  - now rewrite Ha.
  - destruct (String.eqb_spec (schemahcl.Attr_K b) "namespace") as [E|_].
    + destruct (Hpre b (or_introl eq_refl) E).
    + apply IH. intros c Hc. apply Hpre. now right.
Qed.

Lemma namespaceFromAttrs_total (attrs : list schemahcl.Attr) :
  exists r, branded.namespaceFromAttrs attrs = Ok r.
Proof.
  induction attrs as [|a attrs IH]; cbn [branded.namespaceFromAttrs].
  - eexists. reflexivity.
  - destruct (String.eqb _ _); [eexists; reflexivity | exact IH].
Qed.

Lemma fromSpec_cases (t : schemahcl.Type_) :
  (exists e, branded.fromSpec t = Ok (None, Some e))
  \/ (exists ns,
        schemahcl.Type_T t = "branded_id"
        /\ branded.namespaceFromAttrs (schemahcl.Type_Attrs t) = Ok (ns, None)
        /\ fiberfx.IsValidNamespace ns = true
        /\ branded.fromSpec t
           = Ok (Some (schema.BrandedIDType (strings.ToUpper ns)), None)).
Proof.
  unfold branded.fromSpec.
  destruct (String.eqb_spec (schemahcl.Type_T t) branded.TypeBrandedID) as [HT|HT];
    cbn [negb].
  - destruct (namespaceFromAttrs_total (schemahcl.Type_Attrs t)) as [[ns [e|]] Hr];
      rewrite Hr; cbn [bind].
    + left. now exists e.
    + destruct (fiberfx.IsValidNamespace ns) eqn:Hv; cbn [negb].
      * right. exists ns. repeat split; assumption.
      * left. rewrite Sprintf_invalid_namespace. eexists. reflexivity.
  - left. rewrite Sprintf_expected_type. eexists. reflexivity.
Qed.

Lemma Sprintf_expected_pointer (name : string) :
  fmt.Sprintf "branded: expected *BrandedIDType, got %T" [fmt.AValue name]
  = Ok ("branded: expected *BrandedIDType, got " ++ name).
Proof. sprintf. Qed.

End TypeSpecFacts.

(** X20. Over attributes none of which is a nil pointer,
    [NamespaceFromType] never fails, answers the empty string for a
    nil type and for a type that is not named [branded_id], and reads the
    first attribute named [namespace], whatever comes before or after it.
    It agrees with [fromSpec]: when [fromSpec] succeeds,
    [NamespaceFromType] returns a valid namespace and the type built is the
    branded type of that namespace in upper case. *)
Theorem NamespaceFromType_agrees (U : Unicode) (R : fiberfx.Registry) :
  (forall t, exists ns, branded.NamespaceFromType t = Ok ns)
  /\ branded.NamespaceFromType None = Ok ""
  /\ (forall t, schemahcl.Type_T t <> "branded_id" ->
        branded.NamespaceFromType (Some t) = Ok "")
  /\ (forall t pre a post,
        schemahcl.Type_T t = "branded_id" ->
        schemahcl.Type_Attrs t = (pre ++ a :: post)%list ->
        (forall b, In b pre -> schemahcl.Attr_K b <> "namespace") ->
        schemahcl.Attr_K a = "namespace" ->
        branded.NamespaceFromType (Some t) = Ok (fst (schemahcl.Attr_String a)))
  /\ (forall t ty,
        branded.fromSpec t = Ok (Some ty, None) ->
        exists ns,
          branded.NamespaceFromType (Some t) = Ok ns
          /\ fiberfx.IsValidNamespace ns = true
          /\ ty = schema.BrandedIDType (strings.ToUpper ns)).
Proof.
  split; [|split; [reflexivity|split; [|split]]].
  - intros [t|]; [|now exists ""]. unfold branded.NamespaceFromType.
    destruct (branded.IsBrandedIDType (Some t)); cbn [negb]; [|now exists ""].
    cbn [deref fmap bind].
    destruct (namespaceFromAttrs_total (schemahcl.Type_Attrs t)) as [r Hr].
    rewrite Hr. now exists (fst r).
  - intros t HT. unfold branded.NamespaceFromType, branded.IsBrandedIDType.
    now destruct (String.eqb_spec (schemahcl.Type_T t) branded.TypeBrandedID).
  - intros t pre a post HT Hattrs Hpre Ha.
    unfold branded.NamespaceFromType, branded.IsBrandedIDType.
    rewrite HT. cbn [deref fmap bind negb]. change (String.eqb _ _) with true.
    cbn [negb deref fmap bind].
    now rewrite Hattrs, (namespaceFromAttrs_skip pre post a Hpre Ha).
  - intros t ty Hfs.
    destruct (fromSpec_cases t) as [[e He]|(ns & HT & Hns & Hv & Hok)].
    + rewrite He in Hfs. discriminate.
    + exists ns. rewrite Hok in Hfs. injection Hfs as <-.
      split; [|split; [exact Hv|reflexivity]].
      unfold branded.NamespaceFromType, branded.IsBrandedIDType.
      rewrite HT. change (String.eqb _ _) with true.
      cbn [negb deref fmap bind]. now rewrite Hns.
Qed.

(** X21. [fromSpec] returns either a type or an error, never both and never
    neither, and a type only of a valid namespace.  When the registered
    namespaces are 3 upper-case letters, a column of a type that [fromSpec]
    built passes the validation of every validator, strict or not, but for
    the naming warning. *)
Theorem fromSpec_validated (U : Unicode) (R : fiberfx.Registry)
    (Hwf : WellFormedRegistry R) (t : schemahcl.Type_) :
  ((exists e, branded.fromSpec t = Ok (None, Some e))
   \/ (exists ns,
         fiberfx.IsValidNamespace ns = true
         /\ branded.fromSpec t = Ok (Some (schema.BrandedIDType ns), None)))
  /\ (forall ty v table col ct,
        branded.fromSpec t = Ok (Some ty, None) ->
        schema.Column_Type col = Some ct ->
        schema.ColumnType_Type ct = Some ty ->
        (validator.checkNaming v = false ->
         validator.ValidateColumn v table col = Ok [])
        /\ validator.ValidateColumn v table col
           = validator.ValidateColumn (validator.WithStrict false v) table col).
Proof.
  assert (Hcases :
    (exists e, branded.fromSpec t = Ok (None, Some e))
    \/ (exists ns,
          fiberfx.IsValidNamespace ns = true
          /\ branded.fromSpec t = Ok (Some (schema.BrandedIDType ns), None))).
  { destruct (fromSpec_cases t) as [H|(ns & _ & _ & Hv & Hok)]; [now left|].
    right. exists ns. split; [exact Hv|].
    now rewrite Hok, (ToUpper_Upper3 _ (registered_Upper3 _ Hwf Hv)). }
  split; [exact Hcases|].
  intros ty v table col ct Hfs Hc Hty.
  destruct Hcases as [[e He]|(ns & Hv & Hok)]; [rewrite He in Hfs; discriminate|].
  rewrite Hok in Hfs. injection Hfs as <-.
  assert (Hb : Branded col ns) by (now exists ct).
  rewrite !(ValidateColumn_of_branded U R _ table col ns Hb), Hv.
  cbn [negb validator.WithStrict validator.strict validator.checkNaming].
  rewrite Bool.andb_false_r. cbn [andb app].
  split; [|reflexivity]. now intros ->.
Qed.

(** X22. [toSpec] does not validate: for every namespace, registered or
    not, it succeeds on the branded type, and what it returns is recognised
    by [IsBrandedIDType] and gives the namespace, as the attribute holds
    it, back through [NamespaceFromType]; on any other type, nil included,
    it returns no type and an error.  So [fromSpec] after [toSpec] fails
    for a namespace that is not valid, with the list of the valid
    ones. *)
Theorem toSpec_unvalidated (U : Unicode) (R : fiberfx.Registry) :
  (forall ns,
     exists h,
       branded.toSpec (Some (schema.BrandedIDType ns)) = Ok (Some h, None)
       /\ branded.IsBrandedIDType (Some h) = true
       /\ branded.NamespaceFromType (Some h) = Ok (schemahcl.NormalizeString ns)
       /\ (fiberfx.IsValidNamespace (schemahcl.NormalizeString ns) = false ->
           roundTrip (Some (schema.BrandedIDType ns))
           = Ok (None,
                 Some (schemahcl.Errorf
                         ("branded: invalid namespace "
                          ++ strconv.Quote (schemahcl.NormalizeString ns)
                          ++ "; valid namespaces: "
                          ++ fmt.bracket fiberfx.AllNamespaces)))))
  /\ (forall t,
        branded.assertBranded t = None ->
        let e := schemahcl.Errorf
                   ("branded: expected *BrandedIDType, got " ++ schema.goTypeName t) in
        branded.toSpec t = Ok (None, Some e)
        /\ roundTrip t = Ok (None, Some e)).
Proof.
  split.
  - intros ns. eexists. split; [reflexivity|]. split; [reflexivity|].
    split; [reflexivity|].
    intros Hv. unfold roundTrip, branded.toSpec, branded.fromSpec.
    cbn [branded.assertBranded bind branded.Namespace schemahcl.Type_T
         schemahcl.Type_Attrs schemahcl.StringAttr].
    change (String.eqb branded.TypeBrandedID branded.TypeBrandedID) with true.
    cbn [negb branded.namespaceFromAttrs].
    unfold schemahcl.StringAttr, schemahcl.Attr_String.
    cbn [schemahcl.Attr_K schemahcl.Attr_V].
    change (String.eqb "namespace" "namespace") with true.
    cbn [bind]. rewrite Hv. cbn [negb]. now rewrite Sprintf_invalid_namespace.
  - intros t Hn e. subst e. unfold roundTrip, branded.toSpec. rewrite Hn.
    rewrite Sprintf_expected_pointer. split; reflexivity.
Qed.

(** ** From the inspection to the constraints *)

(** X23. Inspection feeds the constraint generator: for a column that is
    eligible for the namespace [NS] (a string type of size 14 whose comment
    has [NS] as first marker), the default generator gives no check before
    the conversion, and after [convertBrandedIDColumn] gives the check
    named [chk_TABLE_COLUMN_branded] whose expression is the pattern of
    [NS], with [IS NULL OR] before it when the column is nullable. *)
Theorem convert_then_generate (U : Unicode) (table : string) (c : schema.Column)
    (ns : string) (He : Eligible c ns) :
  let g := postgres.NewBrandedConstraintGenerator [] in
  postgres.GenerateForColumn g table c = Ok None
  /\ postgres.GenerateForColumn g table (postgres.convertBrandedIDColumn c)
     = Ok (Some {| schema.Check_Name := brandedName table (schema.Column_Name c);
                   schema.Check_Expr :=
                     checkExpr (schema.Column_Name c) ns (columnNull c) |}).
Proof.
  intros g. split.
  - apply GenerateForColumn_not_branded.
    destruct He as [[T HT] _]. unfold schemaTypeOf in HT.
    destruct (schema.Column_Type c) as [ct|] eqn:Hc; [|discriminate].
    exists ct. split; [exact Hc|]. intros ns' Hn. congruence.
  - destruct (convertBrandedIDColumn_cases c) as [(ct & ns0 & Hc & He0 & ->)|[Hno _]];
      [|destruct (Hno _ He)].
    destruct He as [_ Hf], He0 as [_ Hf0].
    rewrite (FirstMarker_unique _ _ _ Hf0 Hf).
    rewrite (GenerateForColumn_branded g table _
               (schema.ColumnType_setType ct (Some (schema.BrandedIDType ns))) ns
               (brandedName table (schema.Column_Name c)));
      [|reflexivity|reflexivity|reflexivity|apply Sprintf_default_name].
    unfold columnNull. now rewrite Hc.
Qed.

(** ** The further properties at concrete inputs *)

Lemma samples_setComment_get (c : schema.Column) (text : string) :
  postgres.getComment (samples.setComment c text) = text.
Proof.
  unfold postgres.getComment, samples.setComment. cbn [schema.Column_Attrs].
  induction (schema.Column_Attrs c) as [|[t|n|n] attrs IH];
    cbn [samples.replaceOrAppend postgres.getCommentAttrs]; auto.
Qed.

Lemma samples_setComment_frame (c : schema.Column) (text : string) :
  schema.Column_Name (samples.setComment c text) = schema.Column_Name c
  /\ schema.Column_Type (samples.setComment c text) = schema.Column_Type c.
Proof. split; reflexivity. Qed.

Lemma Eligible_commented (name T ns : string) :
  Upper3 ns ->
  Eligible (samples.commented name (schema.StringType T 14) ("branded_id:" ++ ns)) ns.
Proof.
  intros Hu. split; [now exists T|]. exists "", "".
  split; [|intros; simpl; lia].
  apply MarkerAt_nil_prefix. now rewrite append_nil_r.
Qed.

(** X2 at a column of unknown namespace whose name breaks the convention,
    under a strict validator that checks the names. *)
Lemma ValidateColumn_branded_owner :
  @validator.ValidateColumn samples.latin1 samples.registry
    (validator.NewValidator [validator.WithNamingConvention true]) "tasks"
    (samples.column "owner" (schema.BrandedIDType "XXX") false)
  = Ok [columnError "tasks" (samples.column "owner" (schema.BrandedIDType "XXX") false)
          ("unknown namespace " ++ @strconv.Quote samples.latin1 "XXX"
           ++ "; valid: [TSK EPC FTR USR PLR RSC ROM GAM GUS TXN DPL SHR]");
        columnError "tasks" (samples.column "owner" (schema.BrandedIDType "XXX") false)
          "recommended naming is 'id' or 'xxx_id'"].
Proof.
  exact (ValidateColumn_branded samples.latin1 samples.registry
           (validator.NewValidator [validator.WithNamingConvention true]) "tasks"
           (samples.column "owner" (schema.BrandedIDType "XXX") false) "XXX"
           (Branded_column _ _ _)).
Defined.

(** X4 at a table of tasks whose parent is a task. *)
Lemma ValidateForeignKey_self_tasks :
  Forall Typed [samples.column "id" (schema.BrandedIDType "TSK") false]
  /\ @validator.ValidateForeignKey samples.latin1 (validator.NewValidator [])
       {| schema.ForeignKey_Symbol := "fk_parent";
          schema.ForeignKey_Columns :=
            [samples.column "id" (schema.BrandedIDType "TSK") false];
          schema.ForeignKey_RefColumns :=
            [samples.column "id" (schema.BrandedIDType "TSK") false] |}
     = Ok [].
Proof.
  assert (Ht : Forall Typed [samples.column "id" (schema.BrandedIDType "TSK") false]).
  { constructor; [discriminate | constructor]. }
  split; [exact Ht|].
  exact (ValidateForeignKey_self samples.latin1 (validator.NewValidator [])
           "fk_parent" _ Ht).
Defined.

(** X5 at a schema of one table with an integer and a text column. *)
Lemma ValidateSchema_plain_users :
  @validator.ValidateSchema samples.latin1 samples.registry
    (validator.NewValidator [validator.WithNamingConvention true])
    {| schema.Schema_Name := "public";
       schema.Schema_Tables :=
         [{| schema.Table_Name := "users";
             schema.Table_Columns :=
               [samples.column "id" (schema.IntegerType "bigint" false) false;
                samples.column "name" (schema.StringType "text" 0) true];
             schema.Table_ForeignKeys := [] |}] |}
  = Ok [].
Proof.
  apply (ValidateSchema_plain samples.latin1 samples.registry).
  repeat constructor; [apply NotBranded_integer | apply NotBranded_string].
Defined.

(** X11 at the lower-case namespace of the tests. *)
Lemma BrandedID_idempotent_tsk :
  @branded.BrandedID samples.latin1
    (branded.Namespace (@branded.BrandedID samples.latin1 "tsk"))
  = @branded.BrandedID samples.latin1 "tsk"
  /\ @branded.BrandedID samples.latin1 "TSK" = branded.BrandedIDFromNamespace "TSK".
Proof.
  split.
  - exact (proj1 (BrandedID_idempotent samples.latin1 "tsk" eq_refl)).
  - exact (proj2 (proj2 (BrandedID_idempotent samples.latin1 "TSK" eq_refl)) eq_refl).
Defined.

(** X12 at a nullable column of the tests. *)
Lemma CheckConstraintExpr_generated_epic_id :
  @branded.CheckConstraintExpr samples.latin1 "epic_id" "EPC"
  = Ok "epic_id ~ '^EPC[0-9A-Za-z]{11}$'"
  /\ fmap (option_map schema.Check_Expr)
       (@postgres.GenerateForColumn samples.latin1
          (postgres.NewBrandedConstraintGenerator []) "tasks"
          (samples.column "epic_id" (schema.BrandedIDType "EPC") true))
     = Ok (Some "epic_id IS NULL OR epic_id ~ '^EPC[0-9A-Za-z]{11}$'").
Proof.
  destruct (CheckConstraintExpr_generated samples.latin1
              (postgres.NewBrandedConstraintGenerator []) "tasks"
              (samples.column "epic_id" (schema.BrandedIDType "EPC") true)
              (samples.columnType (schema.BrandedIDType "EPC") true) "EPC"
              "chk_tasks_epic_id_branded" eq_refl eq_refl eq_refl eq_refl)
    as (e & He & Hg).
  assert (E : e = "epic_id ~ '^EPC[0-9A-Za-z]{11}$'").
  { cbv in He. now injection He as <-. }
  rewrite E in Hg. split; [reflexivity | exact Hg].
Defined.

(** X13 at the column [id] of namespace TSK, with the [SetComment] that
    replaces the first comment. *)
Lemma SetBrandedIDComment_round_trip_TSK :
  @postgres.SetBrandedIDComment samples.latin1 samples.setComment
    (samples.column "id" (schema.BrandedIDType "TSK") false)
  = Ok (samples.commented "id" (schema.BrandedIDType "TSK") "branded_id:TSK")
  /\ postgres.convertBrandedIDColumn
       (samples.commented "id" (schema.StringType "character varying" 14)
          "branded_id:TSK")
     = samples.commented "id" (schema.BrandedIDType "TSK") "branded_id:TSK".
Proof.
  destruct (SetBrandedIDComment_round_trip samples.latin1 samples.setComment
              samples_setComment_get samples_setComment_frame
              (samples.column "id" (schema.BrandedIDType "TSK") false)) as [H _].
  destruct (H (samples.columnType (schema.BrandedIDType "TSK") false) "TSK"
              eq_refl eq_refl (Upper3_literal "T" "S" "K" eq_refl))
    as (c' & Hset & _ & Hconv).
  assert (E : c' = samples.commented "id" (schema.BrandedIDType "TSK") "branded_id:TSK").
  { cbv in Hset. now injection Hset as <-. }
  rewrite E in Hset, Hconv. split; [exact Hset | exact Hconv].
Defined.

(** X18 at the table of tasks of the tests, under the default
    generator. *)
Lemma GenerateForTable_checks_tasks :
  @postgres.GenerateForTable samples.latin1 (postgres.NewBrandedConstraintGenerator [])
    {| schema.Table_Name := "tasks";
       schema.Table_Columns :=
         [samples.column "id" (schema.BrandedIDType "TSK") false;
          samples.column "title" (schema.StringType "text" 0) false;
          samples.column "epic_id" (schema.BrandedIDType "EPC") true];
       schema.Table_ForeignKeys := [] |}
  = Ok [{| schema.Check_Name := "chk_tasks_id_branded";
           schema.Check_Expr := "id ~ '^TSK[0-9A-Za-z]{11}$'" |};
        {| schema.Check_Name := "chk_tasks_epic_id_branded";
           schema.Check_Expr :=
             "epic_id IS NULL OR epic_id ~ '^EPC[0-9A-Za-z]{11}$'" |}].
Proof.
  destruct (GenerateForTable_checks samples.latin1
              (postgres.NewBrandedConstraintGenerator [])
              {| schema.Table_Name := "tasks";
                 schema.Table_Columns :=
                   [samples.column "id" (schema.BrandedIDType "TSK") false;
                    samples.column "title" (schema.StringType "text" 0) false;
                    samples.column "epic_id" (schema.BrandedIDType "EPC") true];
                 schema.Table_ForeignKeys := [] |}
              "chk_" "_" "_branded" eq_refl eq_refl)
    as (checks & Hg & Hc & _).
  - cbn. repeat split; discriminate.
  - cbn. repeat split; discriminate.
  - cbn. repeat split; discriminate.
  - repeat constructor; discriminate.
  - rewrite Hc in Hg. exact Hg.
Defined.

(** X21 at the HCL type [branded_id] of namespace TSK. *)
Lemma fromSpec_validated_TSK :
  WellFormedRegistry samples.registry
  /\ @branded.fromSpec samples.latin1 samples.registry (brandedSpec "TSK")
     = Ok (Some (schema.BrandedIDType "TSK"), None)
  /\ @validator.ValidateColumn samples.latin1 samples.registry
       (validator.NewValidator []) "tasks"
       (samples.column "id" (schema.BrandedIDType "TSK") false)
     = Ok [].
Proof.
  split; [exact samples_registry_well_formed|]. split; [reflexivity|].
  destruct (fromSpec_validated samples.latin1 samples.registry
              samples_registry_well_formed (brandedSpec "TSK")) as [_ H].
  exact (proj1 (H (schema.BrandedIDType "TSK") (validator.NewValidator []) "tasks"
                  (samples.column "id" (schema.BrandedIDType "TSK") false)
                  (samples.columnType (schema.BrandedIDType "TSK") false)
                  eq_refl eq_refl eq_refl) eq_refl).
Defined.

(** X23 at the column [varchar(14)] of the tests, commented
    [branded_id:TSK]. *)
Lemma convert_then_generate_TSK :
  @postgres.GenerateForColumn samples.latin1 (postgres.NewBrandedConstraintGenerator [])
    "tasks"
    (samples.commented "id" (schema.StringType "character varying" 14) "branded_id:TSK")
  = Ok None
  /\ @postgres.GenerateForColumn samples.latin1
       (postgres.NewBrandedConstraintGenerator []) "tasks"
       (postgres.convertBrandedIDColumn
          (samples.commented "id" (schema.StringType "character varying" 14)
             "branded_id:TSK"))
     = Ok (Some {| schema.Check_Name := "chk_tasks_id_branded";
                   schema.Check_Expr := "id ~ '^TSK[0-9A-Za-z]{11}$'" |}).
Proof.
  exact (convert_then_generate samples.latin1 "tasks"
           (samples.commented "id" (schema.StringType "character varying" 14)
              "branded_id:TSK") "TSK"
           (Eligible_commented "id" "character varying" "TSK"
              (Upper3_literal "T" "S" "K" eq_refl))).
Defined.
